(** * ptool [partialdownload]: the chunk planner and its command

    A shallow embedding of [cmd/partialdownload] (the Go function
    [partialdownload] and its [Chunk] struct) together with the properties
    of the partitioning pass and of the command's observable behaviour. *)

From Stdlib Require Import ZArith String List Bool Lia Permutation.
From Stdlib Require Import Sorted Ascii DecimalString.
Import ListNotations.
Open Scope Z_scope.

(** ** Go's [int64] arithmetic *)

Module Int64.

Definition min_int64 : Z := - 2 ^ 63.
Definition max_int64 : Z := 2 ^ 63 - 1.

(** Two's complement wrap-around of a mathematical integer. *)
Definition wrap (z : Z) : Z := (z + 2 ^ 63) mod 2 ^ 64 - 2 ^ 63.

(** [a + b] and [a++] on [int64]. *)
Definition add (a b : Z) : Z := wrap (a + b).
Definition incr (a : Z) : Z := add a 1.

Definition in_range (z : Z) : Prop := min_int64 <= z <= max_int64.

End Int64.

(** ** Data *)

(** [client.TorrentContentFile], as far as the command reads it. *)
Module TorrentFile.
Record t : Type := mk { Index : Z; Path : string; Size : Z }.
End TorrentFile.

(** [type Chunk struct { Index, FilesCnt, Size int64 }] *)
Module Chunk.
Record t : Type := mk { Index : Z; FilesCnt : Z; Size : Z }.
End Chunk.

(** The local variables of the scan (lines 102-108). *)
Record LoopState : Type := mkLoopState {
  chunks : list Chunk.t;
  currentChunkIndex : Z;
  currentChunkSize : Z;
  currentChunkFilesCnt : Z;
  downloadFileIndexes : list Z;
  noDownloadFileIndexes : list Z;
  allSize : Z
}.

Definition initState : LoopState :=
  mkLoopState [] 0 0 0 [] [] 0.

(** The strict-mode failure of line 111: the chunk size, and the path and
    size of the file that is too large. *)
Inductive TooLarge : Type :=
| FileTooLarge (chunkSize : Z) (path : string) (size : Z).

(** ** The partitioning pass *)

Section Planner.

Variable strict : bool.
Variable chunkSize : Z.
Variable chunkIndex : Z.

(** The guard of line 116. *)
Definition closes (s : LoopState) (file : TorrentFile.t) : bool :=
  (currentChunkSize s >=? chunkSize)
  || (strict
      && (Int64.add (currentChunkSize s) (TorrentFile.Size file) >? chunkSize)).

(** Lines 117-120: snapshot the open chunk and start a new one. *)
Definition closeChunk (s : LoopState) : LoopState :=
  mkLoopState
    (chunks s ++ [Chunk.mk (currentChunkIndex s) (currentChunkFilesCnt s)
                           (currentChunkSize s)])
    (Int64.incr (currentChunkIndex s))
    0
    0
    (downloadFileIndexes s)
    (noDownloadFileIndexes s)
    (allSize s).

(** Lines 122-128: add the file to the open chunk and classify it. *)
Definition addFile (s : LoopState) (file : TorrentFile.t) : LoopState :=
  mkLoopState
    (chunks s)
    (currentChunkIndex s)
    (Int64.add (currentChunkSize s) (TorrentFile.Size file))
    (Int64.incr (currentChunkFilesCnt s))
    (if currentChunkIndex s =? chunkIndex
     then downloadFileIndexes s ++ [TorrentFile.Index file]
     else downloadFileIndexes s)
    (if currentChunkIndex s =? chunkIndex
     then noDownloadFileIndexes s
     else noDownloadFileIndexes s ++ [TorrentFile.Index file])
    (allSize s).

Definition addAllSize (s : LoopState) (file : TorrentFile.t) : LoopState :=
  mkLoopState (chunks s) (currentChunkIndex s) (currentChunkSize s)
    (currentChunkFilesCnt s) (downloadFileIndexes s)
    (noDownloadFileIndexes s)
    (Int64.add (allSize s) (TorrentFile.Size file)).

(** One iteration of the loop body (lines 110-128). *)
Definition step (s : LoopState) (file : TorrentFile.t)
  : TooLarge + LoopState :=
  let s0 := addAllSize s file in
  if strict && (TorrentFile.Size file >? chunkSize)
  then inl (FileTooLarge chunkSize (TorrentFile.Path file)
              (TorrentFile.Size file))
  else
    let s1 := if closes s0 file then closeChunk s0 else s0 in
    inr (addFile s1 file).

(** The loop of lines 109-129, started in state [s]. *)
Fixpoint scan (s : LoopState) (files : list TorrentFile.t)
  : TooLarge + LoopState :=
  match files with
  | [] => inr s
  | file :: rest =>
      match step s file with
      | inl e => inl e
      | inr s' => scan s' rest
      end
  end.

(** Line 130: the open chunk is appended as the last one. *)
Definition appendLast (s : LoopState) : LoopState :=
  mkLoopState
    (chunks s ++ [Chunk.mk (currentChunkIndex s) (currentChunkFilesCnt s)
                           (currentChunkSize s)])
    (currentChunkIndex s) (currentChunkSize s) (currentChunkFilesCnt s)
    (downloadFileIndexes s) (noDownloadFileIndexes s) (allSize s).

(** Lines 102-130. *)
Definition plan (files : list TorrentFile.t) : TooLarge + LoopState :=
  match scan initState files with
  | inl e => inl e
  | inr s => inr (appendLast s)
  end.

(** The value of [currentChunkIndex] read at line 124, for each file of
    the list in turn: the index of the open chunk when the file is added. *)
Fixpoint chunkIndexAt (s : LoopState) (files : list TorrentFile.t)
  : list Z :=
  match files with
  | [] => []
  | file :: rest =>
      match step s file with
      | inl _ => []
      | inr s' => currentChunkIndex s' :: chunkIndexAt s' rest
      end
  end.

End Planner.

(** ** The command *)

(** What the command does to the outside world, in order. Printed lines are
    kept as the values that are formatted, not as text. *)
Inductive Event : Type :=
| EvCreateClient (clientName : string)
| EvGetTorrentContents (infoHash : string)
| EvSetFilePriority (infoHash : string) (fileIndexes : list Z) (priority : Z)
| EvSleep (seconds : Z)
| EvClose
| EvPrintTooLarge (chunkSize : Z) (path : string) (size : Z)
| EvPrintAllHeader (allSize : Z) (filesCnt : Z) (chunkSize : Z) (chunksCnt : Z)
| EvPrintColumns
| EvPrintChunk (index : Z) (filesCnt : Z) (size : Z)
| EvPrintResult (allSize : Z) (filesCnt : Z) (chunksCnt : Z) (chunkIndex : Z)
    (chunkSize : Z) (chunkFilesCnt : Z).

(** The messages of the [log.Fatalf] calls. *)
Inductive Fatal : Type :=
| InvalidChunkSize (chunkSize : Z)
| InvalidChunkIndex (chunkIndex : Z)
| FailedToCreateClient (err : string)
| FailedToGetClientFiles (err : string)
| InvalidChunkIndexOfChunks (chunkIndex : Z) (chunksCnt : Z)
| FailedToSetDownloadFiles (err : string)
| FailedToSetNoDownloadFiles (err : string).

(** How the process stops before the function returns. *)
Inductive Halt : Type :=
| OsExit (code : Z)
| LogFatal (msg : Fatal).

(** [log.Fatalf] logs and calls [os.Exit(1)]. *)
Definition exitCode (h : Halt) : Z :=
  match h with
  | OsExit code => code
  | LogFatal _ => 1
  end.

(** A computation that emits events and either halts the process or
    yields a value. *)
Definition Run (A : Type) : Type := (list Event * (Halt + A))%type.

Definition ret {A : Type} (a : A) : Run A := ([], inr a).

Definition bind {A B : Type} (m : Run A) (k : A -> Run B) : Run B :=
  match snd m with
  | inl h => (fst m, inl h)
  | inr a => (fst m ++ fst (k a), snd (k a))
  end.

Definition emit (e : Event) : Run unit := ([e], inr tt).
Definition halt {A : Type} (h : Halt) : Run A := ([], inl h).

Declare Scope run_scope.
Delimit Scope run_scope with run.
Notation "x <- m ;; k" := (bind m (fun x => k))
  (at level 100, m at next level, right associativity) : run_scope.
Notation "m ;; k" := (bind m (fun _ => k))
  (at level 100, right associativity) : run_scope.

Definition trace {A : Type} (m : Run A) : list Event := fst m.
Definition outcome {A : Type} (m : Run A) : Halt + A := snd m.

(** The client the command talks to: each call answers with an error
    message or with its result. *)
Record Client : Type := mkClient {
  CreateClient : string -> option string;
  GetTorrentContents : string -> string + list TorrentFile.t;
  SetFilePriority : string -> list Z -> Z -> option string
}.

(** The flags of the command; [chunkSize] is the value that
    [utils.RAMInBytes] returned for [--chunk-size]. *)
Module Flags.
Record t : Type := mk {
  chunkSize : Z;
  chunkIndex : Z;
  showAll : bool;
  strict : bool;
  originalOrder : bool
}.
End Flags.

(** [sort.Slice] with [torrentFiles[i].Path < torrentFiles[j].Path]
    (lines 95-99), as an insertion sort; the paths of one torrent are
    distinct, so the sorted order does not depend on the algorithm. *)
Fixpoint insertByPath (file : TorrentFile.t) (sorted : list TorrentFile.t)
  : list TorrentFile.t :=
  match sorted with
  | [] => [file]
  | g :: rest =>
      if String.ltb (TorrentFile.Path file) (TorrentFile.Path g)
      then file :: g :: rest
      else g :: insertByPath file rest
  end.

Definition sortByPath (files : list TorrentFile.t) : list TorrentFile.t :=
  fold_right insertByPath [] files.

(** Lines 95-99: path order unless [--original-order] is given. *)
Definition ordered (flags : Flags.t) (fetched : list TorrentFile.t)
  : list TorrentFile.t :=
  if Flags.originalOrder flags then fetched else sortByPath fetched.

Definition len {A : Type} (l : list A) : Z := Z.of_nat (length l).

(** Lines 135-137. *)
Definition printChunks (cs : list Chunk.t) : Run unit :=
  (map (fun c => EvPrintChunk (Chunk.Index c) (Chunk.FilesCnt c) (Chunk.Size c))
     cs, inr tt).

Local Open Scope run_scope.

(** The function [partialdownload] (lines 74-162). *)
Definition partialdownload (client : Client) (flags : Flags.t)
  (clientName infoHash : string) : Run unit :=
  let chunkSize := Flags.chunkSize flags in
  let chunkIndex := Flags.chunkIndex flags in
  if chunkSize <=? 0 then halt (LogFatal (InvalidChunkSize chunkSize)) else
  if chunkIndex <? 0 then halt (LogFatal (InvalidChunkIndex chunkIndex)) else
  emit (EvCreateClient clientName) ;;
  match CreateClient client clientName with
  | Some err => emit EvClose ;; halt (LogFatal (FailedToCreateClient err))
  | None =>
  emit (EvGetTorrentContents infoHash) ;;
  match GetTorrentContents client infoHash with
  | inl err => emit EvClose ;; halt (LogFatal (FailedToGetClientFiles err))
  | inr fetched =>
  let torrentFiles := ordered flags fetched in
  match plan (Flags.strict flags) chunkSize chunkIndex torrentFiles with
  | inl (FileTooLarge cs path size) =>
      emit (EvPrintTooLarge cs path size) ;; halt (OsExit 1)
  | inr s =>
  if Flags.showAll flags then
    emit (EvPrintAllHeader (allSize s) (len torrentFiles) chunkSize
            (len (chunks s))) ;;
    emit EvPrintColumns ;;
    printChunks (chunks s) ;;
    emit EvClose ;;
    halt (OsExit 0)
  else
  if chunkIndex >=? len (chunks s) then
    emit EvClose ;;
    halt (LogFatal (InvalidChunkIndexOfChunks chunkIndex
                      (Int64.add (currentChunkIndex s) 1)))
  else
  let chunk := nth (Z.to_nat chunkIndex) (chunks s) (Chunk.mk 0 0 0) in
  emit (EvSetFilePriority infoHash (downloadFileIndexes s) 1) ;;
  match SetFilePriority client infoHash (downloadFileIndexes s) 1 with
  | Some err => emit EvClose ;; halt (LogFatal (FailedToSetDownloadFiles err))
  | None =>
  emit (EvSleep 5) ;;
  emit (EvSetFilePriority infoHash (noDownloadFileIndexes s) 0) ;;
  match SetFilePriority client infoHash (noDownloadFileIndexes s) 0 with
  | Some err => emit EvClose ;; halt (LogFatal (FailedToSetNoDownloadFiles err))
  | None =>
  emit (EvPrintResult (allSize s) (len torrentFiles) (len (chunks s))
          chunkIndex (Chunk.Size chunk) (Chunk.FilesCnt chunk)) ;;
  emit EvClose
  end end end end end.

Local Close Scope run_scope.

(** Whether an event is a priority mutation. *)
Definition isSetFilePriority (e : Event) : bool :=
  match e with
  | EvSetFilePriority _ _ _ => true
  | _ => false
  end.

(** ** Specification vocabulary *)

(** The mathematical sum of the sizes of a run of files. *)
Definition totalSize (files : list TorrentFile.t) : Z :=
  fold_right (fun file acc => TorrentFile.Size file + acc) 0 files.

(** A file list whose sizes are byte counts and whose totals the [int64]
    accumulators of the scan can hold. *)
Record representable (files : list TorrentFile.t) : Prop := {
  rep_nonneg : Forall (fun file => 0 <= TorrentFile.Size file) files;
  rep_total : totalSize files <= Int64.max_int64;
  rep_len : len files <= Int64.max_int64
}.

(** No file is larger than the chunk size: the strict-mode check of
    line 111 never fires. *)
Definition fits (chunkSize : Z) (files : list TorrentFile.t) : Prop :=
  Forall (fun file => TorrentFile.Size file <= chunkSize) files.

Definition oversized (chunkSize : Z) (file : TorrentFile.t) : Prop :=
  TorrentFile.Size file > chunkSize.

(** The chunk table that a grouping of the files into consecutive runs
    stands for, numbered from [k]. *)
Fixpoint chunksOf (k : Z) (groups : list (list TorrentFile.t))
  : list Chunk.t :=
  match groups with
  | [] => []
  | g :: rest => Chunk.mk k (len g) (totalSize g) :: chunksOf (k + 1) rest
  end.

(** The chunk number of every file under a grouping, in file order. *)
Fixpoint labels (k : Z) (groups : list (list TorrentFile.t)) : list Z :=
  match groups with
  | [] => []
  | g :: rest => repeat k (length g) ++ labels (k + 1) rest
  end.

Definition sumZ (l : list Z) : Z := fold_right Z.add 0 l.

(** The files are cut into the consecutive non-empty runs [groups]; the
    chunk table and the chunk number of every file are those of the runs. *)
Definition partitionedAs (files : list TorrentFile.t)
  (chunkTable : list Chunk.t) (at124 : list Z)
  (groups : list (list TorrentFile.t)) : Prop :=
  concat groups = files /\
  Forall (fun g => g <> []) groups /\
  chunkTable = chunksOf 0 groups /\
  at124 = labels 0 groups.

(** ** The grouping that the scan computes *)

Section GroupingInvariant.

Variable strict : bool.
Variable chunkSize : Z.
Variable chunkIndex : Z.

(** Every file of the run that is larger than the chunk size is the last
    file of the run. *)
Definition oversizedLast (g : list TorrentFile.t) : Prop :=
  forall a file b,
    g = a ++ file :: b -> oversized chunkSize file -> b = [].

(** The state [s] reached after the files [pre], read as the closed runs
    [gs] and the run [g] of the open chunk. *)
Record Inv (pre : list TorrentFile.t) (s : LoopState)
  (gs : list (list TorrentFile.t)) (g : list TorrentFile.t) : Prop := {
  inv_scan : scan strict chunkSize chunkIndex initState pre = inr s;
  inv_concat : pre = concat gs ++ g;
  inv_chunks : chunks s = chunksOf 0 gs;
  inv_index : currentChunkIndex s = len gs;
  inv_size : currentChunkSize s = totalSize g;
  inv_cnt : currentChunkFilesCnt s = len g;
  inv_all : allSize s = totalSize pre;
  inv_closed : Forall (fun g' => g' <> []) gs;
  inv_open : g = [] -> pre = [];
  inv_labels :
    chunkIndexAt strict chunkSize chunkIndex initState pre
    = labels 0 (gs ++ [g]);
  inv_reached :
    strict = false -> Forall (fun g' => chunkSize <= totalSize g') gs;
  inv_bounded :
    strict = true -> Forall (fun g' => totalSize g' <= chunkSize) (gs ++ [g]);
  inv_last : strict = false -> Forall oversizedLast (gs ++ [g])
}.

End GroupingInvariant.

(** ** Strict mode: the first file that is too large *)

(** The first file that the check of line 111 rejects. *)
Definition firstOversized (chunkSize : Z) (files : list TorrentFile.t)
  : option TorrentFile.t :=
  find (fun file => TorrentFile.Size file >? chunkSize) files.

(** ** The download and no-download lists *)

(** The files of the list whose chunk number, read at line 124, satisfies
    [sel], by client index. *)
Definition selected (sel : Z -> bool) (files : list TorrentFile.t)
  (at124 : list Z) : list Z :=
  map (fun p => TorrentFile.Index (fst p))
    (filter (fun p => sel (snd p)) (combine files at124)).

(** ** The command, once the file list is fetched *)

(** What the command does after a successful fetch, spelled out event by
    event. *)
Definition afterFetch (client : Client) (flags : Flags.t)
  (clientName infoHash : string) (torrentFiles : list TorrentFile.t)
  : Run unit :=
  let chunkSize := Flags.chunkSize flags in
  let chunkIndex := Flags.chunkIndex flags in
  let fetch := [EvCreateClient clientName; EvGetTorrentContents infoHash] in
  match plan (Flags.strict flags) chunkSize chunkIndex torrentFiles with
  | inl (FileTooLarge cs path size) =>
      (fetch ++ [EvPrintTooLarge cs path size], inl (OsExit 1))
  | inr s =>
      let download := EvSetFilePriority infoHash (downloadFileIndexes s) 1 in
      let skip := EvSetFilePriority infoHash (noDownloadFileIndexes s) 0 in
      let chunk := nth (Z.to_nat chunkIndex) (chunks s) (Chunk.mk 0 0 0) in
      if Flags.showAll flags then
        (fetch
         ++ [EvPrintAllHeader (allSize s) (len torrentFiles) chunkSize
               (len (chunks s)); EvPrintColumns]
         ++ map (fun c => EvPrintChunk (Chunk.Index c) (Chunk.FilesCnt c)
                            (Chunk.Size c)) (chunks s)
         ++ [EvClose],
         inl (OsExit 0))
      else if chunkIndex >=? len (chunks s) then
        (fetch ++ [EvClose],
         inl (LogFatal (InvalidChunkIndexOfChunks chunkIndex
                          (Int64.add (currentChunkIndex s) 1))))
      else
        match SetFilePriority client infoHash (downloadFileIndexes s) 1 with
        | Some err =>
            (fetch ++ [download; EvClose],
             inl (LogFatal (FailedToSetDownloadFiles err)))
        | None =>
            match SetFilePriority client infoHash (noDownloadFileIndexes s) 0
            with
            | Some err =>
                (fetch ++ [download; EvSleep 5; skip; EvClose],
                 inl (LogFatal (FailedToSetNoDownloadFiles err)))
            | None =>
                (fetch
                 ++ [download; EvSleep 5; skip;
                     EvPrintResult (allSize s) (len torrentFiles)
                       (len (chunks s)) chunkIndex (Chunk.Size chunk)
                       (Chunk.FilesCnt chunk);
                     EvClose],
                 inr tt)
            end
        end
  end.

(** ** Example inputs *)

(** Three files of 300 units each, to be split in chunks of 500. *)
Definition threeFiles : list TorrentFile.t :=
  [TorrentFile.mk 0 "a" 300; TorrentFile.mk 1 "b" 300; TorrentFile.mk 2 "c" 300].

(** The same, with a middle file of 1000 units. *)
Definition largeInMiddle : list TorrentFile.t :=
  [TorrentFile.mk 0 "a" 300; TorrentFile.mk 1 "b" 1000;
   TorrentFile.mk 2 "c" 300].

(** A small file followed by one larger than a chunk size of 10. *)
Definition smallThenLarge : list TorrentFile.t :=
  [TorrentFile.mk 0 "a" 5; TorrentFile.mk 1 "b" 20].

(** A file that fills a chunk of size 10 exactly, followed by an empty
    file. *)
Definition fullThenEmpty : list TorrentFile.t :=
  [TorrentFile.mk 0 "a" 10; TorrentFile.mk 1 "b" 0].

(** A client whose calls all succeed and that holds the files [fetched]. *)
Definition okClient (fetched : list TorrentFile.t) : Client :=
  mkClient (fun _ => None) (fun _ => inr fetched) (fun _ _ _ => None).

(** The flags of a report run that asks for chunk 5. *)
Definition reportFlags : Flags.t := Flags.mk 500 5 true false true.

(** ** Further vocabulary for the planner *)

(** What the scan has computed so far, apart from the two index lists. *)
Definition progress (s : LoopState) : list Chunk.t * Z * Z * Z * Z :=
  (chunks s, currentChunkIndex s, currentChunkSize s,
   currentChunkFilesCnt s, allSize s).

(** The download list of the run that asks for chunk [k]; empty when the
    pass fails. *)
Definition downloadOf (strict : bool) (chunkSize : Z)
  (files : list TorrentFile.t) (k : Z) : list Z :=
  match plan strict chunkSize k files with
  | inl _ => []
  | inr r => downloadFileIndexes r
  end.

(** The order of [sort.Slice] at lines 96-98, made reflexive. *)
Definition pathLe (a b : TorrentFile.t) : Prop :=
  String.leb (TorrentFile.Path a) (TorrentFile.Path b) = true.

(** ** Further vocabulary for the command *)


(** The rows of the chunk table that a run prints, in order. *)
Fixpoint rowsPrinted (tr : list Event) : list Chunk.t :=
  match tr with
  | [] => []
  | EvPrintChunk index filesCnt size :: rest =>
      Chunk.mk index filesCnt size :: rowsPrinted rest
  | _ :: rest => rowsPrinted rest
  end.

(** A run that asks for the first chunk of [threeFiles], in the fetched
    order. *)
Definition firstChunkFlags : Flags.t := Flags.mk 500 0 false false true.

(** * [clientctl]: get or set client config

    The function [clientctl] and its helper [printOption] of
    [cmd/clientctl]. *)

Module Clientctl.

(** [type Option struct]; [Type_] is 0 for a plain value, 1 for a speed
    and 2 for a size. *)
Record Option : Type := mkOption {
  Name : string;
  Type_ : Z;
  Readonly : bool;
  Auto : bool;
  Description : string
}.

(** The table [allOptions] (lines 43-56). *)
Definition allOptions : list Option :=
  [mkOption "global_download_speed_limit" 1 false true
     "Global download speed limit (/s)";
   mkOption "global_upload_speed_limit" 1 false true
     "Global upload speed limit (/s)";
   mkOption "global_download_speed" 1 true false
     "Current global download speed (/s)";
   mkOption "global_upload_speed" 1 true false
     "Current global upload speed (/s)";
   mkOption "free_disk_space" 2 true false
     "Current free disk space of default save path";
   mkOption "save_path" 0 false false "Default save path";
   mkOption "qb_*" 0 false false
     ("The qBittorrent specific preferences. "
      ++ "For full list see https://github.com/qbittorrent/qBittorrent/wiki/"
      ++ "WebUI-API-(qBittorrent-4.1)#get-application-preferences . E.g. qb_start_paused_enabled")%string;
   mkOption "tr_*" 0 false false
     ("The transmission specific preferences. "
      ++ "For full list see https://github.com/transmission/transmission/blob/3.00/extras/rpc-spec.txt#L482 . "
      ++ "Convert argument name to snake_case. E.g. tr_config_dir")%string].

(** The flags [--raw], [--show-values-only] and [--parameters]. *)
Module Flags.
Record t : Type := mk {
  showRaw : bool;
  showValuesOnly : bool;
  showParameters : bool
}.
End Flags.

(** What the command prints, logs and asks of the client; a printed size
    or speed is kept as the number that [util.BytesSize] formats. *)
Inductive Event : Type :=
| EvPrintHeader
| EvPrintParameter (name permission auto description : string)
| EvCreateClient (clientName : string)
| EvGetConfig (name : string)
| EvSetConfig (name value : string)
| EvLogErrorGet (name err : string)
| EvLogErrorSet (name err : string)
| EvLogErrorGetClient (client name err : string)
| EvLogErrorReadonly (client name : string)
| EvLogErrorSetClient (client name value err : string)
| EvPrintValue (value : string)
| EvPrintNameValue (name value : string)
| EvPrintNameSpeed (name : string) (bytes : Z)
| EvPrintNameSize (name : string) (bytes : Z)
| EvPrintNameRaw (name : string) (bytes : Z).

(** The errors that [clientctl] returns. *)
Inductive Error : Type :=
| ErrClientNotProvided
| ErrIncompatibleFlags
| ErrCreateClient (err : string)
| ErrUnrecognized (name : string)
| ErrErrors (errorCnt : Z).

(** The client: its type and name, and its two config calls, whose answer
    may depend on everything that happened before the call. [GetConfig]
    answers with a value and an error, [SetConfig] with an error. *)
Record Client : Type := mkClient {
  ClientType : string;
  GetName : string;
  GetConfig : list Event -> string -> string * option string;
  SetConfig : list Event -> string -> string -> option string
}.

(** [strings.Split(s, "=")]. *)
Fixpoint split (s : string) : list string :=
  match s with
  | EmptyString => [EmptyString]
  | String c rest =>
      if Ascii.eqb c "="
      then EmptyString :: split rest
      else match split rest with
           | [] => [String c EmptyString]
           | piece :: pieces => String c piece :: pieces
           end
  end.

(** [fmt.Sprint] of an [int64]. *)
Definition Sprint (v : Z) : string := NilZero.string_of_int (Z.to_int v).

(** How the loop body of lines 107-173 ends: with the next iteration or
    with a return. *)
Inductive Next : Type :=
| Continue (tr : list Event) (errorCnt : Z)
| Return (tr : list Event) (err : Error).

Section WithUtil.

(** [util.RAMInBytes], whose error the command drops. *)
Variable RAMInBytes : string -> Z.

(** [client.CreateClient]. *)
Variable CreateClient : string -> string + Client.

(** The function [printOption] (lines 180-195). *)
Definition printOption (name value : string) (option : Option)
  (showRaw : bool) : Event :=
  if negb (value =? "")%string && (Type_ option >? 0) then
    let ff := RAMInBytes value in
    if negb showRaw then
      if Type_ option =? 1 then EvPrintNameSpeed name ff
      else EvPrintNameSize name ff
    else EvPrintNameRaw name ff
  else EvPrintNameValue name value.

(** The condition of lines 112-114: a preference of the client's own
    kind. *)
Definition clientSpecific (client : Client) (variable : string) : bool :=
  ((ClientType client =? "qbittorrent")%string && prefix "qb_" variable
   || (ClientType client =? "transmission")%string && prefix "tr_" variable)
  && (3 <? String.length variable)%nat.

(** Lines 168-172. *)
Definition printed (flags : Flags.t) (name value : string) (option : Option)
  : Event :=
  if Flags.showValuesOnly flags then EvPrintValue value
  else printOption name value option (Flags.showRaw flags).

(** One iteration of the loop over the variables (lines 108-172), after
    the events [tr] and with [errorCnt] errors so far. *)
Definition iteration (flags : Flags.t) (client : Client) (variable : string)
  (tr : list Event) (errorCnt : Z) : Next :=
  let s := split variable in
  let name := hd EmptyString s in
  if clientSpecific client variable then
    if (length s =? 1)%nat then
      let (value, err) := GetConfig client tr name in
      let tr := tr ++ [EvGetConfig name] in
      match err with
      | Some e => Continue (tr ++ [EvLogErrorGet name e]) (Int64.incr errorCnt)
      | None =>
          Continue
            (tr ++ [if Flags.showValuesOnly flags then EvPrintValue value
                    else EvPrintNameValue name value])
            errorCnt
      end
    else
      let value := nth 1 s EmptyString in
      let err := SetConfig client tr name value in
      let tr := tr ++ [EvSetConfig name value] in
      match err with
      | Some e => Continue (tr ++ [EvLogErrorSet name e]) (Int64.incr errorCnt)
      | None =>
          Continue
            (tr ++ [if Flags.showValuesOnly flags then EvPrintValue value
                    else EvPrintNameValue name value])
            errorCnt
      end
  else
    match find (fun o => (Name o =? name)%string) allOptions with
    | None => Return tr (ErrUnrecognized name)
    | Some option =>
        if (length s =? 1)%nat then
          let (value, err) := GetConfig client tr name in
          let tr := tr ++ [EvGetConfig name] in
          match err with
          | Some e =>
              Continue
                (tr ++ [EvLogErrorGetClient (GetName client) name e;
                        printed flags name value option])
                (Int64.incr errorCnt)
          | None => Continue (tr ++ [printed flags name value option]) errorCnt
          end
        else if Readonly option then
          Continue (tr ++ [EvLogErrorReadonly (GetName client) name])
            (Int64.incr errorCnt)
        else
          let value := nth 1 s EmptyString in
          let sent :=
            if Type_ option >? 0 then Sprint (RAMInBytes value) else value in
          let err := SetConfig client tr name sent in
          let tr := tr ++ [EvSetConfig name sent] in
          match err with
          | Some e =>
              Continue
                (tr ++ [EvLogErrorSetClient (GetName client) name value e;
                        printed flags name EmptyString option])
                (Int64.incr errorCnt)
          | None => Continue (tr ++ [printed flags name value option]) errorCnt
          end
    end.

(** The loop of lines 107-173 and the return of lines 174-177. *)
Fixpoint loop (flags : Flags.t) (client : Client) (args : list string)
  (tr : list Event) (errorCnt : Z) : list Event * option Error :=
  match args with
  | [] => (tr, if errorCnt >? 0 then Some (ErrErrors errorCnt) else None)
  | variable :: rest =>
      match iteration flags client variable tr errorCnt with
      | Continue tr' errorCnt' => loop flags client rest tr' errorCnt'
      | Return tr' err => (tr', Some err)
      end
  end.

(** Lines 71-82: the table of parameters. *)
Definition parametersTable : list Event :=
  EvPrintHeader
  :: map (fun option =>
            EvPrintParameter (Name option)
              (if Readonly option then "r" else "rw")
              (if Auto option then "✓" else "")
              (Description option))
       allOptions.

(** The function [clientctl] (lines 69-178): the events and the returned
    error, [None] for [nil]. *)
Definition clientctl (flags : Flags.t) (args : list string)
  : list Event * option Error :=
  if Flags.showParameters flags then (parametersTable, None)
  else
    match args with
    | [] => ([], Some ErrClientNotProvided)
    | clientName :: rest =>
        if Flags.showRaw flags && Flags.showValuesOnly flags
        then ([], Some ErrIncompatibleFlags)
        else
          match CreateClient clientName with
          | inl err => ([EvCreateClient clientName], Some (ErrCreateClient err))
          | inr client =>
              let variables :=
                match rest with
                | [] => map Name (filter Auto allOptions)
                | _ => rest
                end in
              loop flags client variables [EvCreateClient clientName] 0
          end
    end.

End WithUtil.

(** Whether a string holds the byte "=". *)
Fixpoint containsEq (s : string) : bool :=
  match s with
  | EmptyString => false
  | String c rest => Ascii.eqb c "=" || containsEq rest
  end.

Definition isSetConfig (e : Event) : bool :=
  match e with
  | EvSetConfig _ _ => true
  | _ => false
  end.

Definition isLogError (e : Event) : bool :=
  match e with
  | EvLogErrorGet _ _ | EvLogErrorSet _ _ | EvLogErrorGetClient _ _ _
  | EvLogErrorReadonly _ _ | EvLogErrorSetClient _ _ _ _ => true
  | _ => false
  end.

(** A variable that the loop body does not reject: a preference of the
    client's own kind, or one whose name is in the table. *)
Definition recognized (client : Client) (variable : string) : bool :=
  clientSpecific client variable
  || match find (fun o => (Name o =? hd EmptyString (split variable))%string)
             allOptions with
     | Some _ => true
     | None => false
     end.

(** The events after an iteration. *)
Definition after (next : Next) : list Event :=
  match next with
  | Continue tr _ => tr
  | Return tr _ => tr
  end.

(** A [SetConfig] call that the variable asks for: the variable has a
    part after "=", the name is the part before, and the value sent is the
    second part or a number printed in decimal; the variable is a
    preference of the client's own kind or names a table entry that is not
    read-only. *)
Definition asksToSet (client : Client) (variable name value : string)
  : Prop :=
  name = hd EmptyString (split variable) /\
  length (split variable) <> 1%nat /\
  (value = nth 1 (split variable) EmptyString \/
   exists v, value = Sprint v) /\
  (clientSpecific client variable = true \/
   exists option,
     find (fun o => (Name o =? name)%string) allOptions = Some option /\
     Readonly option = false).

(** A qBittorrent client that keeps nothing: every read gives the empty
    value and every write succeeds. *)
Definition quietClient : Client :=
  mkClient "qbittorrent" "local" (fun _ _ => (EmptyString, None))
    (fun _ _ _ => None).

(** Example collaborators: every size string stands for 10 MiB, and
    every client name gives [quietClient]. *)
Definition tenMiB (value : string) : Z := 10485760.

Definition createQuiet (clientName : string) : string + Client :=
  inr quietClient.

Definition plainFlags : Flags.t := Flags.mk false false false.

End Clientctl.

(** * [status]: test the cookiecloud servers

    The function [status] of [cmd/cookiecloud/status]. *)

Module CookiecloudStatus.

(** A cookiecloud profile, as far as [status] reads it. *)
Record Profile : Type := mkProfile {
  Server : string;
  Uuid : string;
  Password : string;
  Proxy : string;
  Timeoout : Z
}.

(** The calls and the printed lines; a line prints the host name of the
    server, the uuid and the error or the number of cookie domains. *)
Inductive Event : Type :=
| EvGetCookiecloudData (server uuid password proxy : string) (timeout : Z)
| EvPrintFailed (hostname uuid err : string)
| EvPrintOk (hostname uuid : string) (domains : Z).

Inductive Error : Type :=
| ErrNoProfile
| ErrErrors (cntError : Z).

Section WithCookiecloud.

(** [util.ParseUrlHostname]. *)
Variable ParseUrlHostname : string -> string.

(** [cookiecloud.GetCookiecloudData]: an error, or the number of domains
    in [Cookie_data]; the answer may depend on the earlier events. *)
Variable GetCookiecloudData : list Event -> Profile -> string + Z.

(** The loop of lines 230-241 and the return of lines 242-245. *)
Fixpoint loop (profiles : list Profile) (tr : list Event) (cntError : Z)
  : list Event * option Error :=
  match profiles with
  | [] => (tr, if cntError >? 0 then Some (ErrErrors cntError) else None)
  | profile :: rest =>
      let call :=
        EvGetCookiecloudData (Server profile) (Uuid profile)
          (Password profile) (Proxy profile) (Timeoout profile) in
      match GetCookiecloudData tr profile with
      | inl err =>
          loop rest
            (tr ++ [call;
                    EvPrintFailed (ParseUrlHostname (Server profile))
                      (Uuid profile) err])
            (Int64.incr cntError)
      | inr domains =>
          loop rest
            (tr ++ [call;
                    EvPrintOk (ParseUrlHostname (Server profile))
                      (Uuid profile) domains])
            cntError
      end
  end.

(** The function [status] (lines 224-246), given the profiles that
    [cookiecloud.ParseProfile] returned. *)
Definition status (cookiecloudProfiles : list Profile)
  : list Event * option Error :=
  match cookiecloudProfiles with
  | [] => ([], Some ErrNoProfile)
  | _ => loop cookiecloudProfiles [] 0
  end.

End WithCookiecloud.

(** The profiles of the [GetCookiecloudData] calls, in order. *)
Fixpoint tested (tr : list Event) : list Profile :=
  match tr with
  | [] => []
  | EvGetCookiecloudData server uuid password proxy timeout :: rest =>
      mkProfile server uuid password proxy timeout :: tested rest
  | _ :: rest => tested rest
  end.

Definition isFailed (e : Event) : bool :=
  match e with
  | EvPrintFailed _ _ _ => true
  | _ => false
  end.

Definition isOk (e : Event) : bool :=
  match e with
  | EvPrintOk _ _ _ => true
  | _ => false
  end.

(** Two example profiles; the server of the second one does not answer. *)
Definition twoProfiles : list Profile :=
  [mkProfile "https://cc.example/a" "u1" "p1" "" 3;
   mkProfile "https://down.example" "u2" "p2" "" 3].

Definition secondDown (tr : list Event) (profile : Profile) : string + Z :=
  if (Uuid profile =? "u2")%string then inl "timeout"%string else inr 12.

End CookiecloudStatus.

(** * [findalone]: files of the save paths that no torrent has

    The function [findalone] of [cmd/findalone], in the version with the
    [--all] flag (lines 171-247 of the file). *)

Module Findalone.

(** [client.Torrent], as far as the command reads it. *)
Record Torrent : Type := mkTorrent {
  Name : string;
  InfoHash : string;
  ContentPath : string
}.

(** [type File struct { Path string; Count int64 }] *)
Record File : Type := mkFile {
  Path : string;
  Count : Z
}.

(** The flags [--all], [--original-order] and [--map-save-path]. *)
Module Flags.
Record t : Type := mk {
  showAll : bool;
  originalOrder : bool;
  mapSavePaths : list string
}.
End Flags.

Inductive Event : Type :=
| EvCreateClient (clientName : string)
| EvGetTorrents
| EvDebugNoRule (name infoHash contentPath : string)
| EvReadDir (savePath : string)
| EvLogReadDirFailed (savePath err : string)
| EvDebugIgnored (name : string)
| EvPrintAlone (path : string)
| EvPrintCounted (count : Z) (path : string).

Inductive Error : Type :=
| ErrOriginalOrder
| ErrCreateClient (err : string)
| ErrMapSavePaths (err : string)
| ErrGetTorrents (err : string)
| ErrErrors (errorCnt : Z).

(** The client: the answer of [GetTorrents("", "", true)]. *)
Record Client : Type := mkClient {
  GetTorrents : string + list Torrent
}.

(** [contentRootFiles[key]++] on a [map[string]int64], read as the
    function from keys to counts that is 0 on a missing key. *)
Definition increment (m : string -> Z) (key : string) : string -> Z :=
  fun k => if (k =? key)%string then Int64.incr (m k) else m k.

(** The comparison handed to [slices.SortStableFunc] at line 237:
    [int(b.Count - a.Count)]. *)
Definition byCountDesc (a b : File) : Z := Int64.wrap (Count b - Count a).

(** [slices.SortStableFunc] with that comparison, as a stable insertion
    sort: an element goes in front of the first element that is not
    strictly before it. *)
Fixpoint insertStable (x : File) (sorted : list File) : list File :=
  match sorted with
  | [] => [x]
  | y :: rest =>
      if byCountDesc y x <? 0 then y :: insertStable x rest
      else x :: y :: rest
  end.

Definition sortStable (files : list File) : list File :=
  fold_right insertStable [] files.

Section WithEnv.

(** [util.ToSlash], [path.Clean], [path.Join] and [filepath.Clean]. *)
Variable ToSlash : string -> string.
Variable Clean : string -> string.
Variable Join : string -> string -> string.
Variable hostClean : string -> string.

(** [util.First(pathspec.GitIgnore(constants.DefaultIgnorePatterns, name))]. *)
Variable ignored : string -> bool.

(** [common.NewPathMapper]: an error, or the mapper, kept as its
    [After2Before] method. *)
Variable NewPathMapper : list string -> string + (string -> string * bool).

(** [os.ReadDir]: an error, or the names of the entries. *)
Variable ReadDir : string -> string + list string.

(** [client.CreateClient]. *)
Variable CreateClient : string -> string + Client.

(** The loop of lines 196-208. *)
Fixpoint countTorrents (savePathMapper : option (string -> string * bool))
  (torrents : list Torrent) (contentRootFiles : string -> Z)
  (tr : list Event) : (string -> Z) * list Event :=
  match torrents with
  | [] => (contentRootFiles, tr)
  | torrent :: rest =>
      let contentPath := ToSlash (ContentPath torrent) in
      match savePathMapper with
      | Some after2Before =>
          if negb (snd (after2Before contentPath)) then
            countTorrents savePathMapper rest contentRootFiles
              (tr ++ [EvDebugNoRule (Name torrent) (InfoHash torrent)
                        contentPath])
          else
            countTorrents savePathMapper rest
              (increment contentRootFiles (fst (after2Before contentPath)))
              tr
      | None =>
          countTorrents savePathMapper rest
            (increment contentRootFiles contentPath) tr
      end
  end.

(** The loop of lines 219-233 over the entries of one save path. *)
Fixpoint scanEntries (flags : Flags.t) (savePathes : list string)
  (contentRootFiles : string -> Z) (savePath : string)
  (entries : list string) (files : list File) (tr : list Event)
  : list File * list Event :=
  match entries with
  | [] => (files, tr)
  | name :: rest =>
      if ignored name then
        scanEntries flags savePathes contentRootFiles savePath rest files
          (tr ++ [EvDebugIgnored name])
      else
        let fullpath := Join savePath name in
        if existsb (String.eqb fullpath) savePathes then
          scanEntries flags savePathes contentRootFiles savePath rest files tr
        else if Flags.showAll flags then
          scanEntries flags savePathes contentRootFiles savePath rest
            (files ++ [mkFile (hostClean fullpath) (contentRootFiles fullpath)])
            tr
        else if contentRootFiles fullpath =? 0 then
          scanEntries flags savePathes contentRootFiles savePath rest files
            (tr ++ [EvPrintAlone (hostClean fullpath)])
        else
          scanEntries flags savePathes contentRootFiles savePath rest files tr
  end.

(** The loop of lines 212-234 over the save paths. *)
Fixpoint scanSavePaths (flags : Flags.t) (savePathes : list string)
  (contentRootFiles : string -> Z) (todo : list string)
  (files : list File) (errorCnt : Z) (tr : list Event)
  : list File * Z * list Event :=
  match todo with
  | [] => (files, errorCnt, tr)
  | savePath :: rest =>
      match ReadDir savePath with
      | inl err =>
          scanSavePaths flags savePathes contentRootFiles rest files
            (Int64.incr errorCnt)
            (tr ++ [EvReadDir savePath; EvLogReadDirFailed savePath err])
      | inr entries =>
          let scanned :=
            scanEntries flags savePathes contentRootFiles savePath entries
              files (tr ++ [EvReadDir savePath]) in
          scanSavePaths flags savePathes contentRootFiles rest
            (fst scanned) errorCnt (snd scanned)
      end
  end.

(** The path under which the command counts a torrent, if any. *)
Definition countedPath (savePathMapper : option (string -> string * bool))
  (torrent : Torrent) : option string :=
  let contentPath := ToSlash (ContentPath torrent) in
  match savePathMapper with
  | Some after2Before =>
      if snd (after2Before contentPath)
      then Some (fst (after2Before contentPath))
      else None
  | None => Some contentPath
  end.

(** Whether the torrent is counted under the path [p]. *)
Definition belongsTo (savePathMapper : option (string -> string * bool))
  (p : string) (torrent : Torrent) : bool :=
  match countedPath savePathMapper torrent with
  | Some q => (p =? q)%string
  | None => false
  end.

(** The number of torrents that are counted under the path [p]. *)
Definition torrentCount (savePathMapper : option (string -> string * bool))
  (torrents : list Torrent) (p : string) : Z :=
  Z.of_nat (length (filter (belongsTo savePathMapper p) torrents)).

(** Lines 183-189: no mapper without [--map-save-path], else the one that
    [common.NewPathMapper] builds, or its error. *)
Definition mapperOf (flags : Flags.t)
  : string + option (string -> string * bool) :=
  match Flags.mapSavePaths flags with
  | [] => inr None
  | _ =>
      match NewPathMapper (Flags.mapSavePaths flags) with
      | inl err => inl err
      | inr mapper => inr (Some mapper)
      end
  end.

(** The function [findalone] (lines 171-247), called with the client
    name [args[0]] and the save paths [args[1:]]. *)
Definition findalone (flags : Flags.t) (clientName : string)
  (paths : list string) : list Event * option Error :=
  if negb (Flags.showAll flags) && Flags.originalOrder flags
  then ([], Some ErrOriginalOrder)
  else
    let savePathes := map (fun p => Clean (ToSlash p)) paths in
    match CreateClient clientName with
    | inl err => ([EvCreateClient clientName], Some (ErrCreateClient err))
    | inr clientInstance =>
        match mapperOf flags with
        | inl err => ([EvCreateClient clientName], Some (ErrMapSavePaths err))
        | inr savePathMapper =>
            match GetTorrents clientInstance with
            | inl err =>
                ([EvCreateClient clientName; EvGetTorrents],
                 Some (ErrGetTorrents err))
            | inr torrents =>
                let counted :=
                  countTorrents savePathMapper torrents (fun _ => 0)
                    [EvCreateClient clientName; EvGetTorrents] in
                let scanned :=
                  scanSavePaths flags savePathes (fst counted) savePathes
                    [] 0 (snd counted) in
                let files := fst (fst scanned) in
                let errorCnt := snd (fst scanned) in
                let listing :=
                  if Flags.showAll flags then
                    map (fun file => EvPrintCounted (Count file) (Path file))
                      (if Flags.originalOrder flags then files
                       else sortStable files)
                  else [] in
                (snd scanned ++ listing,
                 if errorCnt >? 0 then Some (ErrErrors errorCnt) else None)
            end
        end
    end.

(** Whether the loop over the entries goes past the two [continue]s for
    the entry [name] of [savePath]. *)
Definition keep (savePathes : list string) (savePath name : string) : bool :=
  negb (ignored name)
  && negb (existsb (String.eqb (Join savePath name)) savePathes).

(** The entries of a save path, none when it cannot be read. *)
Definition entriesOf (savePath : string) : list string :=
  match ReadDir savePath with
  | inl _ => []
  | inr entries => entries
  end.

Definition unreadable (savePath : string) : bool :=
  match ReadDir savePath with
  | inl _ => true
  | inr _ => false
  end.

(** The files that [--all] collects from one save path, and the paths
    that are printed for it without [--all]. *)
Definition filesOf (savePathes : list string) (counts : string -> Z)
  (savePath : string) (entries : list string) : list File :=
  map (fun name =>
         mkFile (hostClean (Join savePath name)) (counts (Join savePath name)))
    (filter (keep savePathes savePath) entries).

Definition alonesOf (savePathes : list string) (counts : string -> Z)
  (savePath : string) (entries : list string) : list string :=
  map (fun name => hostClean (Join savePath name))
    (filter (fun name =>
               keep savePathes savePath name
               && (counts (Join savePath name) =? 0))
       entries).

(** An entry [name] of the readable save path [savePath] that the command
    considers: it is not ignored and is not itself a save path. *)
Definition considered (savePathes : list string) (savePath name : string)
  : Prop :=
  In savePath savePathes /\
  (exists entries, ReadDir savePath = inr entries /\ In name entries) /\
  ignored name = false /\
  ~ In (Join savePath name) savePathes.

End WithEnv.

Definition isReadDirFailed (e : Event) : bool :=
  match e with
  | EvLogReadDirFailed _ _ => true
  | _ => false
  end.

(** The paths printed as alone, the save paths read and the lines of the
    listing, each in the order of the events. *)
Fixpoint alones (tr : list Event) : list string :=
  match tr with
  | [] => []
  | EvPrintAlone path :: rest => path :: alones rest
  | _ :: rest => alones rest
  end.

Fixpoint readDirs (tr : list Event) : list string :=
  match tr with
  | [] => []
  | EvReadDir savePath :: rest => savePath :: readDirs rest
  | _ :: rest => readDirs rest
  end.

Fixpoint listed (tr : list Event) : list File :=
  match tr with
  | [] => []
  | EvPrintCounted count path :: rest => mkFile path count :: listed rest
  | _ :: rest => listed rest
  end.

(** The counts of the listing, in the order of the printed lines. *)
Fixpoint countsPrinted (tr : list Event) : list Z :=
  match tr with
  | [] => []
  | EvPrintCounted count _ :: rest => count :: countsPrinted rest
  | _ :: rest => countsPrinted rest
  end.

(** An example: the directory "/d" holds "a" and "b"; torrent content
    lives at "/d/a". Paths are kept as they are and joined with "/". *)
Definition exampleJoin (dir name : string) : string :=
  (dir ++ "/" ++ name)%string.

Definition exampleReadDir (dir : string) : string + list string :=
  if (dir =? "/d")%string then inr ["a"; "b"]%string
  else inl "no such directory"%string.

Definition exampleCreate (clientName : string) : string + Client :=
  inr (mkClient (inr [mkTorrent "t" "e447d424" "/d/a"])).

Definition exampleMapper (mapSavePaths : list string)
  : string + (string -> string * bool) :=
  inr (fun contentPath => (contentPath, true)).

End Findalone.

(** * Properties *)

(** ** The model on the scenarios of the specification *)

Example add_wraps : Int64.add Int64.max_int64 1 = Int64.min_int64.
Proof. reflexivity. Qed.

Example scenario_non_strict :
  plan false 500 0 threeFiles =
  inr (mkLoopState [Chunk.mk 0 2 600; Chunk.mk 1 1 300] 1 300 1 [0; 1] [2] 900).
Proof. reflexivity. Qed.

Example scenario_strict :
  plan true 500 0 threeFiles =
  inr (mkLoopState [Chunk.mk 0 1 300; Chunk.mk 1 1 300; Chunk.mk 2 1 300]
         2 300 1 [0] [1; 2] 900).
Proof. reflexivity. Qed.

Example scenario_too_large :
  plan true 500 0 [TorrentFile.mk 0 "a" 1000] = inl (FileTooLarge 500 "a" 1000).
Proof. reflexivity. Qed.

Example scenario_index_beyond :
  partialdownload (okClient threeFiles) (Flags.mk 500 5 false false false)
    "local" "e447d424" =
  ([EvCreateClient "local"; EvGetTorrentContents "e447d424"; EvClose],
   inl (LogFatal (InvalidChunkIndexOfChunks 5 2))).
Proof. reflexivity. Qed.

Example scenario_download_first_chunk :
  partialdownload
    (okClient [TorrentFile.mk 0 "b" 300; TorrentFile.mk 1 "a" 300;
               TorrentFile.mk 2 "c" 300])
    (Flags.mk 500 0 false false false) "local" "e447d424" =
  ([EvCreateClient "local"; EvGetTorrentContents "e447d424";
    EvSetFilePriority "e447d424" [1; 0] 1; EvSleep 5;
    EvSetFilePriority "e447d424" [2] 0; EvPrintResult 900 3 2 0 600 2;
    EvClose],
   inr tt).
Proof. reflexivity. Qed.

(** ** Arithmetic that does not wrap *)

Lemma wrap_id (z : Z) : Int64.in_range z -> Int64.wrap z = z.
Proof.
  unfold Int64.in_range, Int64.wrap, Int64.min_int64, Int64.max_int64.
  intros H. rewrite Z.mod_small; lia.
Qed.

Lemma wrap_in_range (z : Z) : Int64.in_range (Int64.wrap z).
Proof.
  unfold Int64.in_range, Int64.wrap, Int64.min_int64, Int64.max_int64.
  pose proof (Z.mod_pos_bound (z + 2 ^ 63) (2 ^ 64) ltac:(lia)). lia.
Qed.

Lemma add_id (a b : Z) :
  Int64.min_int64 <= a + b <= Int64.max_int64 -> Int64.add a b = a + b.
Proof. intros H. unfold Int64.add. now apply wrap_id. Qed.

Lemma add_0_l (b : Z) : Int64.in_range b -> Int64.add 0 b = b.
Proof. intros H. unfold Int64.add. now apply wrap_id. Qed.

Lemma max_int64_pos : 0 < Int64.max_int64.
Proof. reflexivity. Qed.

Lemma min_int64_neg : Int64.min_int64 < 0.
Proof. reflexivity. Qed.

(** ** Sums and lengths *)

Lemma len_nil {A : Type} : len (@nil A) = 0.
Proof. reflexivity. Qed.

Lemma len_app {A : Type} (l1 l2 : list A) : len (l1 ++ l2) = len l1 + len l2.
Proof. unfold len. rewrite length_app. lia. Qed.

Lemma len_cons {A : Type} (a : A) (l : list A) : len (a :: l) = len l + 1.
Proof. unfold len. cbn [length]. lia. Qed.

Lemma len_single {A : Type} (a : A) : len [a] = 1.
Proof. reflexivity. Qed.

Lemma len_nonneg {A : Type} (l : list A) : 0 <= len l.
Proof. unfold len. lia. Qed.

Lemma totalSize_app (l1 l2 : list TorrentFile.t) :
  totalSize (l1 ++ l2) = totalSize l1 + totalSize l2.
Proof.
  induction l1 as [|a l1 IH]; cbn [app totalSize fold_right].
  - reflexivity.
  - fold (totalSize (l1 ++ l2)). fold (totalSize l1). lia.
Qed.

Lemma totalSize_cons (file : TorrentFile.t) (l : list TorrentFile.t) :
  totalSize (file :: l) = TorrentFile.Size file + totalSize l.
Proof. reflexivity. Qed.

Lemma totalSize_nonneg (l : list TorrentFile.t) :
  Forall (fun file => 0 <= TorrentFile.Size file) l -> 0 <= totalSize l.
Proof.
  induction 1 as [|a l Ha _ IH].
  - cbn. lia.
  - rewrite totalSize_cons. lia.
Qed.

Lemma totalSize_concat (gs : list (list TorrentFile.t)) :
  totalSize (concat gs) = sumZ (map totalSize gs).
Proof.
  induction gs as [|g gs IH]; cbn [concat map sumZ fold_right].
  - reflexivity.
  - rewrite totalSize_app, IH. reflexivity.
Qed.

Lemma totalSize_In (file : TorrentFile.t) (l : list TorrentFile.t) :
  Forall (fun file => 0 <= TorrentFile.Size file) l ->
  In file l -> TorrentFile.Size file <= totalSize l.
Proof.
  induction 1 as [|a l Ha Hl IH]; intros Hin.
  - destruct Hin.
  - rewrite totalSize_cons. pose proof (totalSize_nonneg l Hl).
    destruct Hin as [->|Hin]; [lia|]. specialize (IH Hin). lia.
Qed.

Lemma representable_app_l (l1 l2 : list TorrentFile.t) :
  representable (l1 ++ l2) -> representable l1.
Proof.
  intros [Hn Ht Hl]. apply Forall_app in Hn as [Hn1 Hn2].
  rewrite totalSize_app in Ht. rewrite len_app in Hl.
  pose proof (totalSize_nonneg _ Hn2). pose proof (len_nonneg l2).
  constructor; [assumption | lia | lia].
Qed.

Lemma chunksOf_app (k : Z) (gs1 gs2 : list (list TorrentFile.t)) :
  chunksOf k (gs1 ++ gs2) = chunksOf k gs1 ++ chunksOf (k + len gs1) gs2.
Proof.
  revert k. induction gs1 as [|g gs1 IH]; intros k; cbn [app chunksOf].
  - rewrite len_nil, Z.add_0_r. reflexivity.
  - rewrite IH, len_cons. do 3 f_equal. lia.
Qed.

Lemma labels_app (k : Z) (gs1 gs2 : list (list TorrentFile.t)) :
  labels k (gs1 ++ gs2) = labels k gs1 ++ labels (k + len gs1) gs2.
Proof.
  revert k. induction gs1 as [|g gs1 IH]; intros k; cbn [app labels].
  - rewrite len_nil, Z.add_0_r. reflexivity.
  - rewrite IH, len_cons, <- app_assoc. do 3 f_equal. lia.
Qed.

Lemma chunksOf_length (k : Z) (gs : list (list TorrentFile.t)) :
  length (chunksOf k gs) = length gs.
Proof.
  revert k. induction gs as [|g gs IH]; intros k; cbn [chunksOf length].
  - reflexivity.
  - now rewrite IH.
Qed.

Lemma sum_FilesCnt_chunksOf (k : Z) (gs : list (list TorrentFile.t)) :
  sumZ (map Chunk.FilesCnt (chunksOf k gs)) = len (concat gs).
Proof.
  revert k. induction gs as [|g gs IH]; intros k;
    cbn [chunksOf map sumZ fold_right concat Chunk.FilesCnt].
  - reflexivity.
  - fold (sumZ (map Chunk.FilesCnt (chunksOf (k + 1) gs))).
    rewrite IH, len_app. reflexivity.
Qed.

Lemma sum_Size_chunksOf (k : Z) (gs : list (list TorrentFile.t)) :
  sumZ (map Chunk.Size (chunksOf k gs)) = totalSize (concat gs).
Proof.
  revert k. induction gs as [|g gs IH]; intros k;
    cbn [chunksOf map sumZ fold_right concat Chunk.Size].
  - reflexivity.
  - fold (sumZ (map Chunk.Size (chunksOf (k + 1) gs))).
    rewrite IH, totalSize_app. reflexivity.
Qed.

(** ** The loop, one file at a time *)

Section ScanFacts.

Variable strict : bool.
Variable chunkSize : Z.
Variable chunkIndex : Z.

Local Abbreviation step' := (step strict chunkSize chunkIndex).
Local Abbreviation scan' := (scan strict chunkSize chunkIndex).
Local Abbreviation chunkIndexAt' := (chunkIndexAt strict chunkSize chunkIndex).

Lemma scan_app (s : LoopState) (l1 l2 : list TorrentFile.t) :
  scan' s (l1 ++ l2) =
  match scan' s l1 with
  | inl e => inl e
  | inr s' => scan' s' l2
  end.
Proof.
  revert s. induction l1 as [|a l1 IH]; intros s; cbn [app scan].
  - reflexivity.
  - destruct (step' s a) as [e|s']; [reflexivity | apply IH].
Qed.

Lemma scan_snoc (s : LoopState) (l : list TorrentFile.t)
  (file : TorrentFile.t) :
  scan' s (l ++ [file]) =
  match scan' s l with
  | inl e => inl e
  | inr s' => step' s' file
  end.
Proof.
  rewrite scan_app. destruct (scan' s l) as [e|s']; [reflexivity|].
  cbn [scan]. now destruct (step' s' file).
Qed.

Lemma chunkIndexAt_snoc (s s' s'' : LoopState) (l : list TorrentFile.t)
  (file : TorrentFile.t) :
  scan' s l = inr s' -> step' s' file = inr s'' ->
  chunkIndexAt' s (l ++ [file]) = chunkIndexAt' s l ++ [currentChunkIndex s''].
Proof.
  revert s. induction l as [|a l IH]; intros s Hscan Hstep;
    cbn [app scan chunkIndexAt] in *.
  - injection Hscan as ->. now rewrite Hstep.
  - destruct (step' s a) as [e|s1]; [discriminate|].
    cbn [app]. f_equal. now apply IH.
Qed.

Lemma step_succeeds (s : LoopState) (file : TorrentFile.t) :
  (strict = true -> TorrentFile.Size file <= chunkSize) ->
  exists s', step' s file = inr s'.
Proof.
  intros Hfit. unfold step.
  destruct strict; cbn [andb].
  - specialize (Hfit eq_refl).
    destruct (Z.gtb_spec (TorrentFile.Size file) chunkSize); [lia|].
    eexists; reflexivity.
  - eexists; reflexivity.
Qed.

Lemma scan_succeeds (s : LoopState) (files : list TorrentFile.t) :
  (strict = true -> fits chunkSize files) ->
  exists s', scan' s files = inr s'.
Proof.
  revert s. induction files as [|a l IH]; intros s Hfit;
    cbn [scan].
  - eexists; reflexivity.
  - destruct (step_succeeds s a) as [s1 ->].
    + intros E. specialize (Hfit E). now inversion Hfit.
    + apply IH. intros E. specialize (Hfit E). now inversion Hfit.
Qed.

End ScanFacts.

(** ** The grouping invariant is kept *)

Lemma len_concat_nonempty {A : Type} (gs : list (list A)) :
  Forall (fun g => g <> []) gs -> len gs <= len (concat gs).
Proof.
  induction 1 as [|g gs Hg _ IH]; cbn [concat].
  - apply Z.le_refl.
  - rewrite len_app, len_cons. destruct g as [|a g]; [congruence|].
    rewrite len_cons. pose proof (len_nonneg g). lia.
Qed.

Lemma repeat_snoc {A : Type} (a : A) (n : nat) :
  repeat a (n + 1) = repeat a n ++ [a].
Proof. now rewrite repeat_app. Qed.

Lemma snoc_split {A : Type} (g a b : list A) (x y : A) :
  g ++ [x] = a ++ y :: b -> b = [] \/ In y g.
Proof.
  intros E. destruct b as [|b0 b]; [now left | right].
  assert (Hb : b0 :: b <> []) by discriminate.
  destruct (exists_last Hb) as (b' & z & Eb). rewrite Eb in E.
  change (a ++ y :: b' ++ [z]) with (a ++ (y :: b') ++ [z]) in E.
  rewrite app_assoc in E. apply app_inj_tail in E as [-> _].
  apply in_or_app. right. now left.
Qed.

Section Grouping.

Variable strict : bool.
Variable chunkSize : Z.
Variable chunkIndex : Z.
Hypothesis chunkSize_pos : 0 < chunkSize.

Local Abbreviation step' := (step strict chunkSize chunkIndex).
Local Abbreviation scan' := (scan strict chunkSize chunkIndex).
Local Abbreviation closes' := (closes strict chunkSize).
Local Abbreviation addFile' := (addFile chunkIndex).
Local Abbreviation chunkIndexAt' := (chunkIndexAt strict chunkSize chunkIndex).
Local Abbreviation Inv' := (Inv strict chunkSize chunkIndex).
Local Abbreviation oversizedLast' := (oversizedLast chunkSize).

Lemma Inv_init : Inv' [] initState [] [].
Proof.
  constructor; try reflexivity; try (intros; constructor); auto.
  - cbn. lia.
  - intros a file b E. now destruct a.
Qed.

Lemma step_eq (s : LoopState) (file : TorrentFile.t) :
  (strict = true -> TorrentFile.Size file <= chunkSize) ->
  step' s file =
  inr (addFile' (if closes' s file then closeChunk (addAllSize s file)
                else addAllSize s file) file).
Proof.
  intros Hfit. unfold step.
  replace (strict && (TorrentFile.Size file >? chunkSize)) with false;
    [reflexivity|].
  destruct strict; [|reflexivity]. cbn [andb]. specialize (Hfit eq_refl).
  symmetry. destruct (Z.gtb_spec (TorrentFile.Size file) chunkSize); [lia|].
  reflexivity.
Qed.

Lemma oversizedLast_singleton (file : TorrentFile.t) : oversizedLast' [file].
Proof.
  intros a x b E _. destruct a as [|y a].
  - now injection E.
  - injection E as _ E. now destruct a.
Qed.

Lemma oversizedLast_snoc (g : list TorrentFile.t) (file : TorrentFile.t) :
  Forall (fun x => 0 <= TorrentFile.Size x) g ->
  totalSize g < chunkSize -> oversizedLast' (g ++ [file]).
Proof.
  intros Hn Hlt a x b E Hx. apply snoc_split in E as [E|E]; [assumption|].
  apply (totalSize_In _ _ Hn) in E. unfold oversized in Hx. lia.
Qed.

Lemma Inv_step (pre : list TorrentFile.t) (s : LoopState)
  (gs : list (list TorrentFile.t)) (g : list TorrentFile.t)
  (file : TorrentFile.t) :
  Inv' pre s gs g ->
  representable (pre ++ [file]) ->
  (strict = true -> TorrentFile.Size file <= chunkSize) ->
  exists s' gs' g',
    step' s file = inr s' /\ Inv' (pre ++ [file]) s' gs' g' /\ g' <> [] /\
    (gs' = gs ++ [g] /\ g' = [file] /\ closes' s file = true \/
     gs' = gs /\ g' = g ++ [file] /\ closes' s file = false) /\
    closes' s file =
    (totalSize g >=? chunkSize)
    || strict && (totalSize g + TorrentFile.Size file >? chunkSize).
Proof.
  intros I [Hn Ht Hl] Hfit. destruct I.
  apply Forall_app in Hn as [Hnpre Hnfile].
  assert (Hf0 : 0 <= TorrentFile.Size file) by now inversion Hnfile.
  rewrite totalSize_app, totalSize_cons in Ht. cbn [totalSize fold_right] in Ht.
  rewrite len_app, len_single in Hl.
  assert (Hng : Forall (fun x => 0 <= TorrentFile.Size x) g).
  { rewrite inv_concat0 in Hnpre. now apply Forall_app in Hnpre. }
  assert (Hgs0 : 0 <= totalSize (concat gs)).
  { apply totalSize_nonneg. rewrite inv_concat0 in Hnpre.
    now apply Forall_app in Hnpre. }
  assert (Hg0 : 0 <= totalSize g) by now apply totalSize_nonneg.
  assert (Hgpre : totalSize g <= totalSize pre).
  { rewrite inv_concat0, totalSize_app. lia. }
  assert (Hpre0 : 0 <= totalSize pre).
  { now apply totalSize_nonneg. }
  assert (Hlgs : len gs <= len pre).
  { rewrite inv_concat0, len_app.
    pose proof (len_concat_nonempty gs inv_closed0). pose proof (len_nonneg g).
    lia. }
  assert (Hlg : len g <= len pre).
  { rewrite inv_concat0, len_app. pose proof (len_nonneg (concat gs)). lia. }
  pose proof (len_nonneg gs) as Hgs1. pose proof (len_nonneg g) as Hg1.
  pose proof min_int64_neg as Hmin.
  assert (Hsum : Int64.add (currentChunkSize s) (TorrentFile.Size file)
                 = totalSize g + TorrentFile.Size file).
  { rewrite inv_size0. apply add_id. lia. }
  assert (Hcl : closes' s file =
                (totalSize g >=? chunkSize)
                || strict && (totalSize g + TorrentFile.Size file >? chunkSize)).
  { unfold closes. now rewrite Hsum, inv_size0. }
  rewrite (step_eq s file Hfit).
  destruct (closes' s file) eqn:Ecl.
  - (* the open chunk is closed, the file starts a new one *)
    assert (Hgne : g <> []).
    { intros ->. cbn [totalSize fold_right] in Hcl.
      symmetry in Hcl. apply orb_true_iff in Hcl as [H|H].
      - apply Z.geb_le in H. lia.
      - apply andb_true_iff in H as [Hs H]. specialize (Hfit Hs).
        apply Z.gtb_lt in H. lia. }
    exists (addFile' (closeChunk (addAllSize s file)) file), (gs ++ [g]), [file].
    split; [reflexivity|].
    split; [|split; [congruence | split; [left; auto | assumption]]].
    constructor; cbn [chunks currentChunkIndex currentChunkSize
                        currentChunkFilesCnt allSize addFile
                        closeChunk addAllSize].
    + now rewrite scan_snoc, inv_scan0, (step_eq s file Hfit), Ecl.
    + rewrite concat_app. cbn [concat]. rewrite app_nil_r. now rewrite inv_concat0.
    + rewrite chunksOf_app. cbn [chunksOf].
      now rewrite inv_chunks0, inv_index0, inv_cnt0, inv_size0.
    + rewrite len_app, len_single, inv_index0.
      unfold Int64.incr. rewrite add_id; lia.
    + rewrite totalSize_cons. cbn [totalSize fold_right].
      rewrite add_id; lia.
    + unfold Int64.incr. rewrite add_id; [reflexivity|cbn; lia].
    + rewrite totalSize_app, totalSize_cons. cbn [totalSize fold_right].
      rewrite inv_all0, add_id; lia.
    + apply Forall_app. split; [assumption | now constructor].
    + discriminate.
    + erewrite chunkIndexAt_snoc;
        [| exact inv_scan0 | now rewrite (step_eq s file Hfit), Ecl].
      cbn [currentChunkIndex addFile closeChunk addAllSize].
      rewrite inv_labels0, (labels_app 0 (gs ++ [g])). f_equal.
      cbn [labels length repeat app]. f_equal.
      rewrite len_app, len_single, inv_index0.
      unfold Int64.incr. rewrite add_id; lia.
    + intros Hs. apply Forall_app. split; [auto|]. constructor; [|constructor].
      rewrite Hs in Hcl. cbn [andb] in Hcl. rewrite orb_false_r in Hcl.
      symmetry in Hcl. apply Z.geb_le in Hcl. lia.
    + intros Hs. apply Forall_app. split; [auto|]. constructor; [|constructor].
      rewrite totalSize_cons. cbn [totalSize fold_right]. specialize (Hfit Hs). lia.
    + intros Hs. apply Forall_app. split; [auto|]. constructor; [|constructor].
      apply oversizedLast_singleton.
  - (* the file joins the open chunk *)
    pose proof Hcl as Hcl0.
    symmetry in Hcl. apply orb_false_iff in Hcl as [Hlt Hst].
    assert (Hlt' : totalSize g < chunkSize).
    { destruct (Z.geb_spec (totalSize g) chunkSize); [discriminate | lia]. }
    exists (addFile' (addAllSize s file) file), gs, (g ++ [file]).
    split; [reflexivity|].
    split; [|split; [now destruct g | split; [right; auto | assumption]]].
    constructor; cbn [chunks currentChunkIndex currentChunkSize
                        currentChunkFilesCnt allSize addFile
                        addAllSize].
    + now rewrite scan_snoc, inv_scan0, (step_eq s file Hfit), Ecl.
    + now rewrite inv_concat0, app_assoc.
    + assumption.
    + assumption.
    + rewrite Hsum, totalSize_app, totalSize_cons. cbn [totalSize fold_right]. lia.
    + rewrite len_app, len_single, inv_cnt0.
      unfold Int64.incr. rewrite add_id; lia.
    + rewrite totalSize_app, totalSize_cons. cbn [totalSize fold_right].
      rewrite inv_all0, add_id; lia.
    + assumption.
    + now destruct g.
    + erewrite chunkIndexAt_snoc;
        [| exact inv_scan0 | now rewrite (step_eq s file Hfit), Ecl].
      cbn [currentChunkIndex addFile addAllSize].
      rewrite inv_labels0, !labels_app. rewrite <- app_assoc. f_equal.
      cbn [labels]. rewrite !app_nil_r, length_app. cbn [length].
      rewrite repeat_snoc. f_equal. now rewrite inv_index0.
    + assumption.
    + intros Hs. specialize (inv_bounded0 Hs).
      apply Forall_app in inv_bounded0 as [Hb _].
      apply Forall_app. split; [assumption|]. constructor; [|constructor].
      rewrite Hs in Hst. cbn [andb] in Hst.
      rewrite totalSize_app, totalSize_cons. cbn [totalSize fold_right].
      destruct (Z.gtb_spec (totalSize g + TorrentFile.Size file) chunkSize);
        [discriminate | lia].
    + intros Hs. specialize (inv_last0 Hs).
      apply Forall_app in inv_last0 as [Hb _].
      apply Forall_app. split; [assumption|]. constructor; [|constructor].
      now apply oversizedLast_snoc.
Qed.

(** The scan' over a representable list never wraps and keeps the grouping
    invariant. *)
Lemma scan_Inv (files : list TorrentFile.t) :
  representable files ->
  (strict = true -> fits chunkSize files) ->
  exists s gs g, Inv' files s gs g /\ (files <> [] -> g <> []).
Proof.
  induction files as [|file pre IH] using rev_ind; intros Hrep Hfit.
  - exists initState, [], []. split; [apply Inv_init | congruence].
  - destruct IH as (s & gs & g & I & _).
    + now apply representable_app_l in Hrep.
    + intros E. specialize (Hfit E). now apply Forall_app in Hfit.
    + destruct (Inv_step pre s gs g file I Hrep) as (s' & gs' & g' & _ & I' & Hg' & _ & _).
      * intros E. specialize (Hfit E). apply Forall_app in Hfit as [_ Hfit].
        now inversion Hfit.
      * exists s', gs', g'. split; [assumption | auto].
Qed.

End Grouping.

(** The result of the whole pass, read as a grouping of the files. *)
Lemma plan_groups (strict : bool) (chunkSize chunkIndex : Z)
  (files : list TorrentFile.t) :
  0 < chunkSize ->
  representable files ->
  (strict = true -> fits chunkSize files) ->
  exists s gs g,
    Inv strict chunkSize chunkIndex files s gs g /\
    (files <> [] -> g <> []) /\
    plan strict chunkSize chunkIndex files = inr (appendLast s) /\
    chunks (appendLast s) = chunksOf 0 (gs ++ [g]).
Proof.
  intros Hpos Hrep Hfit.
  destruct (scan_Inv strict chunkSize chunkIndex Hpos files Hrep Hfit)
    as (s & gs & g & I & Hg).
  exists s, gs, g. split; [assumption|]. split; [assumption|]. split.
  - unfold plan. now rewrite (inv_scan _ _ _ _ _ _ _ I).
  - cbn [appendLast chunks]. rewrite chunksOf_app. cbn [chunksOf].
    now rewrite (inv_chunks _ _ _ _ _ _ _ I), (inv_index _ _ _ _ _ _ _ I),
      (inv_cnt _ _ _ _ _ _ _ I), (inv_size _ _ _ _ _ _ _ I).
Qed.

(** ** Strict mode: the size bound and the failure *)

Lemma firstOversized_None (chunkSize : Z) (files : list TorrentFile.t) :
  firstOversized chunkSize files = None <-> fits chunkSize files.
Proof.
  unfold firstOversized, fits. induction files as [|a l IH]; cbn [find].
  - split; [constructor | reflexivity].
  - destruct (Z.gtb_spec (TorrentFile.Size a) chunkSize) as [H|H].
    + split; [discriminate|]. intros F. inversion F. lia.
    + rewrite IH. split; [now constructor | now inversion 1].
Qed.

Lemma firstOversized_Some (chunkSize : Z) (files : list TorrentFile.t)
  (file : TorrentFile.t) :
  firstOversized chunkSize files = Some file ->
  In file files /\ oversized chunkSize file.
Proof.
  intros H. apply find_some in H as [Hin H]. split; [assumption|].
  apply Z.gtb_lt in H. unfold oversized. lia.
Qed.

Lemma fits_not_oversized (chunkSize : Z) (files : list TorrentFile.t) :
  fits chunkSize files <-> ~ Exists (oversized chunkSize) files.
Proof.
  unfold fits, oversized. rewrite <- Forall_Exists_neg. split; intros H.
  - eapply Forall_impl; [|exact H]. cbn. intros; lia.
  - eapply Forall_impl; [|exact H]. cbn. intros; lia.
Qed.

Lemma scan_strict_fails (chunkSize chunkIndex : Z) (files : list TorrentFile.t)
  (file : TorrentFile.t) (s : LoopState) :
  firstOversized chunkSize files = Some file ->
  scan true chunkSize chunkIndex s files =
  inl (FileTooLarge chunkSize (TorrentFile.Path file) (TorrentFile.Size file)).
Proof.
  unfold firstOversized. revert s.
  induction files as [|a l IH]; intros s; cbn [find scan]; [discriminate|].
  unfold step. cbn [andb].
  destruct (TorrentFile.Size a >? chunkSize).
  - now intros [= ->].
  - intros H. now apply IH.
Qed.

Lemma plan_strict_fails (chunkSize chunkIndex : Z) (files : list TorrentFile.t)
  (file : TorrentFile.t) :
  firstOversized chunkSize files = Some file ->
  plan true chunkSize chunkIndex files =
  inl (FileTooLarge chunkSize (TorrentFile.Path file) (TorrentFile.Size file)).
Proof.
  intros H. unfold plan. now rewrite (scan_strict_fails _ _ _ _ _ H).
Qed.

Lemma plan_succeeds (strict : bool) (chunkSize chunkIndex : Z)
  (files : list TorrentFile.t) :
  (strict = true -> fits chunkSize files) ->
  exists s, scan strict chunkSize chunkIndex initState files = inr s /\
            plan strict chunkSize chunkIndex files = inr (appendLast s).
Proof.
  intros H. destruct (scan_succeeds strict chunkSize chunkIndex initState files H)
    as [s Hs].
  exists s. split; [assumption|]. unfold plan. now rewrite Hs.
Qed.

(** In strict mode neither the open chunk nor a closed one exceeds the
    chunk size, whatever the additions wrap to. *)
Lemma scan_strict_bounded (chunkSize chunkIndex : Z)
  (files : list TorrentFile.t) (s s' : LoopState) :
  Forall (fun file => Int64.in_range (TorrentFile.Size file)) files ->
  currentChunkSize s <= chunkSize ->
  Forall (fun c => Chunk.Size c <= chunkSize) (chunks s) ->
  scan true chunkSize chunkIndex s files = inr s' ->
  currentChunkSize s' <= chunkSize /\
  Forall (fun c => Chunk.Size c <= chunkSize) (chunks s').
Proof.
  intros Hr. revert s. induction Hr as [|a l Ha _ IH]; intros s Hcur Hcl;
    cbn [scan].
  - intros [= <-]. now split.
  - unfold step. cbn [andb].
    destruct (Z.gtb_spec (TorrentFile.Size a) chunkSize) as [Hbig|Hfit];
      [discriminate|].
    destruct (closes true chunkSize (addAllSize s a) a) eqn:Ecl.
    + apply IH; cbn [addFile closeChunk addAllSize currentChunkSize chunks].
      * rewrite add_0_l; assumption.
      * apply Forall_app. split; [assumption|]. now repeat constructor.
    + apply IH; cbn [addFile addAllSize currentChunkSize chunks]; [|assumption].
      unfold closes in Ecl. cbn [andb addAllSize currentChunkSize] in Ecl.
      apply orb_false_iff in Ecl as [_ Ecl].
      destruct (Z.gtb_spec (Int64.add (currentChunkSize s) (TorrentFile.Size a))
                  chunkSize); [discriminate | assumption].
Qed.

(** ** Non-strict mode: closed chunks have reached the chunk size *)

Lemma scan_nonstrict_reached (chunkSize chunkIndex : Z)
  (files : list TorrentFile.t) (s s' : LoopState) :
  Forall (fun c => chunkSize <= Chunk.Size c) (chunks s) ->
  scan false chunkSize chunkIndex s files = inr s' ->
  Forall (fun c => chunkSize <= Chunk.Size c) (chunks s').
Proof.
  revert s. induction files as [|a l IH]; intros s Hcl; cbn [scan].
  - now intros [= <-].
  - unfold step, closes. cbn [andb addAllSize currentChunkSize].
    rewrite orb_false_r.
    destruct (Z.geb_spec (currentChunkSize s) chunkSize) as [Hge|Hlt].
    + apply IH. cbn [addFile closeChunk chunks currentChunkSize
                       currentChunkIndex currentChunkFilesCnt].
      apply Forall_app. split; [assumption|]. now repeat constructor.
    + apply IH. assumption.
Qed.

(** The file counter of the open chunk counts at least the file that was
    just added. *)
Lemma step_cnt (strict : bool) (chunkSize chunkIndex : Z) (s s' : LoopState)
  (file : TorrentFile.t) (n : Z) :
  0 <= currentChunkFilesCnt s <= n -> n < Int64.max_int64 ->
  step strict chunkSize chunkIndex s file = inr s' ->
  1 <= currentChunkFilesCnt s' <= n + 1.
Proof.
  intros Hc Hn. unfold step.
  destruct (strict && (TorrentFile.Size file >? chunkSize)); [discriminate|].
  pose proof min_int64_neg.
  destruct (closes strict chunkSize (addAllSize s file) file);
    intros [= <-];
    cbn [addFile closeChunk addAllSize currentChunkFilesCnt];
    unfold Int64.incr; rewrite add_id; lia.
Qed.

Lemma scan_cnt (strict : bool) (chunkSize chunkIndex : Z)
  (files : list TorrentFile.t) (s s' : LoopState) (n : Z) :
  1 <= currentChunkFilesCnt s <= n -> n + len files <= Int64.max_int64 ->
  scan strict chunkSize chunkIndex s files = inr s' ->
  1 <= currentChunkFilesCnt s' <= n + len files.
Proof.
  revert s n. induction files as [|a l IH]; intros s n Hc Hn; cbn [scan].
  - intros [= <-]. rewrite len_nil. lia.
  - rewrite len_cons in Hn |- *. pose proof (len_nonneg l).
    destruct (step strict chunkSize chunkIndex s a) as [e|s1] eqn:E;
      [discriminate|].
    intros Hs. apply (step_cnt _ _ _ _ _ _ n) in E; [|lia|lia].
    apply (IH s1 (n + 1)) in Hs; lia.
Qed.

Lemma scan_cnt_init (strict : bool) (chunkSize chunkIndex : Z)
  (files : list TorrentFile.t) (s' : LoopState) :
  files <> [] -> len files <= Int64.max_int64 ->
  scan strict chunkSize chunkIndex initState files = inr s' ->
  1 <= currentChunkFilesCnt s' <= len files.
Proof.
  destruct files as [|a l]; [congruence|]. intros _ Hn. cbn [scan].
  rewrite len_cons in Hn |- *. pose proof (len_nonneg l).
  destruct (step strict chunkSize chunkIndex initState a) as [e|s1] eqn:E;
    [discriminate|].
  intros Hs. apply (step_cnt _ _ _ _ _ _ 0) in E;
    [|cbn; lia|apply max_int64_pos].
  apply (scan_cnt _ _ _ _ _ _ 1) in Hs; lia.
Qed.

(** ** The download and no-download lists *)

Lemma scan_classify (strict : bool) (chunkSize chunkIndex : Z)
  (files : list TorrentFile.t) (s s' : LoopState) :
  scan strict chunkSize chunkIndex s files = inr s' ->
  let at124 := chunkIndexAt strict chunkSize chunkIndex s files in
  length at124 = length files /\
  downloadFileIndexes s' =
    downloadFileIndexes s ++ selected (fun k => k =? chunkIndex) files at124 /\
  noDownloadFileIndexes s' =
    noDownloadFileIndexes s
    ++ selected (fun k => negb (k =? chunkIndex)) files at124.
Proof.
  revert s. induction files as [|a l IH]; intros s; cbn [scan chunkIndexAt].
  - intros [= <-]. unfold selected. cbn. now rewrite !app_nil_r.
  - destruct (step strict chunkSize chunkIndex s a) as [e|s1] eqn:E;
      [discriminate|].
    intros Hs. destruct (IH s1 Hs) as (Hlen & Hd & Hn).
    cbn zeta. cbn [length]. split; [now rewrite Hlen|].
    rewrite Hd, Hn. unfold selected. cbn [combine filter snd].
    unfold step in E.
    destruct (strict && (TorrentFile.Size a >? chunkSize)); [discriminate|].
    injection E as <-.
    destruct (closes strict chunkSize (addAllSize s a) a);
      cbn [addFile closeChunk addAllSize currentChunkIndex
             downloadFileIndexes noDownloadFileIndexes];
      destruct (_ =? chunkIndex); cbn [negb map fst app];
      rewrite <- ?app_assoc; cbn [app]; now rewrite ?app_nil_r.
Qed.

Lemma selected_split (sel : Z -> bool) (files : list TorrentFile.t)
  (at124 : list Z) :
  length at124 = length files ->
  Permutation
    (selected sel files at124 ++ selected (fun k => negb (sel k)) files at124)
    (map TorrentFile.Index files).
Proof.
  revert at124. unfold selected.
  induction files as [|a l IH]; intros [|k ks]; cbn [length]; try discriminate.
  - intros _. constructor.
  - intros [= Hlen]. specialize (IH ks Hlen).
    cbn [combine filter snd map]. destruct (sel k); cbn [negb map fst app].
    + now constructor.
    + apply Permutation_sym, Permutation_cons_app, Permutation_sym, IH.
Qed.

(** ** Two chunk sizes side by side *)

Lemma Inv_open_nonneg (strict : bool) (chunkSize chunkIndex : Z)
  (pre : list TorrentFile.t) (s : LoopState)
  (gs : list (list TorrentFile.t)) (g : list TorrentFile.t) :
  Inv strict chunkSize chunkIndex pre s gs g ->
  representable pre -> 0 <= totalSize g.
Proof.
  intros I [Hn _ _]. rewrite (inv_concat _ _ _ _ _ _ _ I) in Hn.
  apply Forall_app in Hn as [_ Hn]. now apply totalSize_nonneg.
Qed.

(** Scanning the same files with the smaller chunk size [c1] is never
    behind the scan with [c2]: it has closed more chunks, or as many and
    its open chunk is at least as full. *)
Lemma lockstep (strict : bool) (c1 c2 i1 i2 : Z) (files : list TorrentFile.t) :
  0 < c1 -> c1 <= c2 ->
  representable files ->
  (strict = true -> fits c1 files) ->
  exists s1 gs1 g1 s2 gs2 g2,
    Inv strict c1 i1 files s1 gs1 g1 /\
    Inv strict c2 i2 files s2 gs2 g2 /\
    (len gs2 < len gs1 \/ len gs1 = len gs2 /\ totalSize g2 <= totalSize g1).
Proof.
  intros Hc1 Hc12.
  induction files as [|file pre IH] using rev_ind; intros Hrep Hfit.
  - exists initState, [], [], initState, [], [].
    split; [apply Inv_init; lia|]. split; [apply Inv_init; lia|].
    right. split; [reflexivity | apply Z.le_refl].
  - assert (Hreppre : representable pre) by now apply representable_app_l in Hrep.
    assert (Hfile : strict = true -> TorrentFile.Size file <= c1).
    { intros E. specialize (Hfit E). apply Forall_app in Hfit as [_ Hfit].
      now inversion Hfit. }
    destruct IH as (s1 & gs1 & g1 & s2 & gs2 & g2 & I1 & I2 & Hahead);
      [assumption | |].
    { intros E. specialize (Hfit E). now apply Forall_app in Hfit. }
    pose proof (Inv_open_nonneg _ _ _ _ _ _ _ I1 Hreppre) as H1.
    pose proof (Inv_open_nonneg _ _ _ _ _ _ _ I2 Hreppre) as H2.
    assert (Hf0 : 0 <= TorrentFile.Size file).
    { destruct Hrep as [Hn _ _]. apply Forall_app in Hn as [_ Hn].
      now inversion Hn. }
    destruct (Inv_step strict c1 i1 Hc1 pre s1 gs1 g1 file I1 Hrep Hfile)
      as (s1' & gs1' & g1' & _ & I1' & _ & D1 & C1).
    destruct (Inv_step strict c2 i2 ltac:(lia) pre s2 gs2 g2 file I2 Hrep
                ltac:(intros E; specialize (Hfile E); lia))
      as (s2' & gs2' & g2' & _ & I2' & _ & D2 & C2).
    exists s1', gs1', g1', s2', gs2', g2'.
    split; [assumption|]. split; [assumption|].
    destruct D1 as [(-> & -> & E1)|(-> & -> & E1)];
      destruct D2 as [(-> & -> & E2)|(-> & -> & E2)];
      rewrite C1 in E1; rewrite C2 in E2;
      rewrite ?len_app, ?len_single, ?totalSize_app, ?totalSize_cons;
      cbn [totalSize fold_right];
      destruct strict; cbn [andb] in E1, E2; rewrite ?orb_false_r in E1, E2;
      destruct (Z.geb_spec (totalSize g1) c1);
      destruct (Z.geb_spec (totalSize g2) c2);
      try destruct (Z.gtb_spec (totalSize g1 + TorrentFile.Size file) c1);
      try destruct (Z.gtb_spec (totalSize g2 + TorrentFile.Size file) c2);
      cbn [orb] in E1, E2; try discriminate; lia.
Qed.

Lemma plan_inr_fits (strict : bool) (chunkSize chunkIndex : Z)
  (files : list TorrentFile.t) (r : LoopState) :
  plan strict chunkSize chunkIndex files = inr r ->
  strict = true -> fits chunkSize files.
Proof.
  intros Hp ->. apply firstOversized_None.
  destruct (firstOversized chunkSize files) as [file|] eqn:E; [|reflexivity].
  rewrite (plan_strict_fails _ chunkIndex _ _ E) in Hp. discriminate.
Qed.

(** ** The command, once the file list is fetched *)

Lemma partialdownload_afterFetch (client : Client) (flags : Flags.t)
  (clientName infoHash : string) (fetched : list TorrentFile.t) :
  0 < Flags.chunkSize flags ->
  0 <= Flags.chunkIndex flags ->
  CreateClient client clientName = None ->
  GetTorrentContents client infoHash = inr fetched ->
  partialdownload client flags clientName infoHash =
  afterFetch client flags clientName infoHash (ordered flags fetched).
Proof.
  intros Hsize Hindex Hcreate Hget. unfold partialdownload, afterFetch.
  destruct (Z.leb_spec (Flags.chunkSize flags) 0); [lia|].
  destruct (Z.ltb_spec (Flags.chunkIndex flags) 0); [lia|].
  rewrite Hcreate, Hget. cbv zeta.
  destruct (plan _ _ _ _) as [[cs path size]|s]; [reflexivity|].
  destruct (Flags.showAll flags).
  - unfold bind, emit, halt, printChunks. cbn [fst snd app].
    reflexivity.
  - destruct (_ >=? _); [reflexivity|].
    destruct (SetFilePriority _ _ _ 1); [reflexivity|].
    destruct (SetFilePriority _ _ _ 0); reflexivity.
Qed.

(** A negative chunk index stops the command before it does anything. *)
Lemma partialdownload_negative_index (client : Client) (flags : Flags.t)
  (clientName infoHash : string) :
  Flags.chunkIndex flags < 0 ->
  partialdownload client flags clientName infoHash =
  ([], inl (LogFatal (if Flags.chunkSize flags <=? 0
                      then InvalidChunkSize (Flags.chunkSize flags)
                      else InvalidChunkIndex (Flags.chunkIndex flags)))).
Proof.
  intros H. unfold partialdownload.
  destruct (Flags.chunkSize flags <=? 0); [reflexivity|].
  destruct (Z.ltb_spec (Flags.chunkIndex flags) 0); [reflexivity | lia].
Qed.

Lemma representable_threeFiles : representable threeFiles.
Proof.
  constructor.
  - repeat constructor; cbn; lia.
  - vm_compute. discriminate.
  - vm_compute. discriminate.
Defined.

(** * The claims *)

(** C1. For a non-empty file list and a positive chunk size, in either
    mode as long as the strict-mode failure does not fire, the pass
    succeeds and its chunks partition the list: there are consecutive
    non-empty runs of the ordered list, one per chunk, whose concatenation
    is the list; chunk [k] has index [k], counts the files of run [k] and
    totals their sizes; every file is added to the chunk of its run; the
    file counts add up to the number of files and the chunk sizes to the
    total size, which is also what [allSize] holds. *)
Theorem plan_partitions (strict : bool) (chunkSize chunkIndex : Z)
  (files : list TorrentFile.t) :
  files <> [] ->
  0 < chunkSize ->
  representable files ->
  (strict = true -> fits chunkSize files) ->
  exists r groups,
    plan strict chunkSize chunkIndex files = inr r /\
    partitionedAs files (chunks r)
      (chunkIndexAt strict chunkSize chunkIndex initState files) groups /\
    sumZ (map Chunk.FilesCnt (chunks r)) = len files /\
    sumZ (map Chunk.Size (chunks r)) = totalSize files /\
    allSize r = totalSize files.
Proof.
  intros Hne Hpos Hrep Hfit.
  destruct (plan_groups strict chunkSize chunkIndex files Hpos Hrep Hfit)
    as (s & gs & g & I & Hg & Hplan & Hchunks).
  assert (Hcat : concat (gs ++ [g]) = files).
  { rewrite concat_app. cbn [concat]. rewrite app_nil_r.
    symmetry. exact (inv_concat _ _ _ _ _ _ _ I). }
  exists (appendLast s), (gs ++ [g]).
  split; [assumption|]. split; [|split; [|split]].
  - split; [assumption|]. split; [|split].
    + apply Forall_app. split; [exact (inv_closed _ _ _ _ _ _ _ I)|].
      constructor; [auto | constructor].
    + assumption.
    + exact (inv_labels _ _ _ _ _ _ _ I).
  - now rewrite Hchunks, sum_FilesCnt_chunksOf, Hcat.
  - now rewrite Hchunks, sum_Size_chunksOf, Hcat.
  - exact (inv_all _ _ _ _ _ _ _ I).
Qed.

Lemma plan_partitions_witness :
  exists r groups,
    plan false 500 0 threeFiles = inr r /\
    partitionedAs threeFiles (chunks r)
      (chunkIndexAt false 500 0 initState threeFiles) groups /\
    sumZ (map Chunk.FilesCnt (chunks r)) = len threeFiles /\
    sumZ (map Chunk.Size (chunks r)) = totalSize threeFiles /\
    allSize r = totalSize threeFiles.
Proof.
  apply (plan_partitions false 500 0 threeFiles).
  - discriminate.
  - reflexivity.
  - exact representable_threeFiles.
  - discriminate.
Defined.

(** C2. In strict mode, for a positive chunk size, every chunk that the
    pass produces totals at most the chunk size; the pass fails exactly
    when some file is larger than the chunk size; the failure carries the
    path and the size of such a file; and the command then prints them and
    exits with status 1 without a single [SetFilePriority] call. *)
Theorem strict_bound_and_failure (chunkSize chunkIndex : Z)
  (files : list TorrentFile.t) :
  0 < chunkSize ->
  Forall (fun file => Int64.in_range (TorrentFile.Size file)) files ->
  (forall r, plan true chunkSize chunkIndex files = inr r ->
             Forall (fun c => Chunk.Size c <= chunkSize) (chunks r)) /\
  ((exists e, plan true chunkSize chunkIndex files = inl e) <->
   Exists (oversized chunkSize) files) /\
  ((exists r, plan true chunkSize chunkIndex files = inr r) <->
   ~ Exists (oversized chunkSize) files) /\
  (forall e, plan true chunkSize chunkIndex files = inl e ->
     exists file,
       In file files /\ oversized chunkSize file /\
       e = FileTooLarge chunkSize (TorrentFile.Path file)
             (TorrentFile.Size file) /\
       forall client flags clientName infoHash fetched,
         Flags.strict flags = true ->
         Flags.chunkSize flags = chunkSize ->
         Flags.chunkIndex flags = chunkIndex ->
         0 <= chunkIndex ->
         CreateClient client clientName = None ->
         GetTorrentContents client infoHash = inr fetched ->
         ordered flags fetched = files ->
         let run := partialdownload client flags clientName infoHash in
         trace run =
           [EvCreateClient clientName; EvGetTorrentContents infoHash;
            EvPrintTooLarge chunkSize (TorrentFile.Path file)
              (TorrentFile.Size file)] /\
         outcome run = inl (OsExit 1) /\
         filter isSetFilePriority (trace run) = []).
Proof.
  intros Hpos Hrange.
  destruct (firstOversized chunkSize files) as [file|] eqn:E.
  - (* some file is too large *)
    pose proof (plan_strict_fails chunkSize chunkIndex files file E) as Hfail.
    destruct (firstOversized_Some _ _ _ E) as [Hin Hbig].
    assert (Hex : Exists (oversized chunkSize) files).
    { apply Exists_exists. now exists file. }
    rewrite Hfail. split; [discriminate|]. split; [|split].
    + split; [auto | eauto].
    + split; [intros [r Hr]; discriminate | contradiction].
    + intros e [= <-]. exists file. repeat (split; [assumption || reflexivity|]).
      intros client flags clientName infoHash fetched Hs Hcs Hci Hci0 Hcreate
        Hget Hord.
      rewrite (partialdownload_afterFetch client flags clientName infoHash
                 fetched); [|lia|lia|assumption|assumption].
      unfold afterFetch. rewrite Hs, Hcs, Hci, Hord, Hfail.
      cbn. auto.
  - (* every file fits *)
    apply firstOversized_None in E.
    pose proof (proj1 (fits_not_oversized _ _) E) as Hnone.
    destruct (plan_succeeds true chunkSize chunkIndex files (fun _ => E))
      as (s & Hscan & Hplan).
    rewrite Hplan. split; [|split; [|split]].
    + intros r [= <-]. cbn [appendLast chunks].
      destruct (scan_strict_bounded chunkSize chunkIndex files initState s
                  Hrange ltac:(cbn; lia) ltac:(constructor) Hscan)
        as [Hcur Hclosed].
      apply Forall_app. split; [assumption|]. now repeat constructor.
    + split; [intros [e He]; discriminate | contradiction].
    + split; [auto | eauto].
    + discriminate.
Qed.

Lemma strict_bound_and_failure_witness :
  (exists e, plan true 500 0 largeInMiddle = inl e) /\
  (forall r, plan true 500 0 threeFiles = inr r ->
             Forall (fun c => Chunk.Size c <= 500) (chunks r)).
Proof.
  split.
  - apply (strict_bound_and_failure 500 0 largeInMiddle).
    + reflexivity.
    + repeat constructor; vm_compute; discriminate.
    + apply Exists_cons_tl, Exists_cons_hd. reflexivity.
  - apply (strict_bound_and_failure 500 0 threeFiles).
    + reflexivity.
    + repeat constructor; vm_compute; discriminate.
Defined.

(** C3. In non-strict mode, for a non-empty file list, the pass succeeds;
    its chunk table is the chunks closed during the scan, each totalling at
    least the chunk size, followed by the chunk that was still open, which
    is appended whatever its size and counts at least one file. *)
Theorem nonstrict_chunks_reach_size (chunkSize chunkIndex : Z)
  (files : list TorrentFile.t) :
  files <> [] ->
  0 < chunkSize ->
  len files <= Int64.max_int64 ->
  exists s r,
    scan false chunkSize chunkIndex initState files = inr s /\
    plan false chunkSize chunkIndex files = inr r /\
    chunks r =
      chunks s ++ [Chunk.mk (currentChunkIndex s) (currentChunkFilesCnt s)
                     (currentChunkSize s)] /\
    Forall (fun c => chunkSize <= Chunk.Size c) (chunks s) /\
    1 <= currentChunkFilesCnt s.
Proof.
  intros Hne Hpos Hlen.
  destruct (plan_succeeds false chunkSize chunkIndex files
              ltac:(discriminate)) as (s & Hscan & Hplan).
  exists s, (appendLast s). repeat (split; [assumption || reflexivity|]).
  split.
  - apply (scan_nonstrict_reached chunkSize chunkIndex files initState s);
      [constructor | assumption].
  - now apply (scan_cnt_init false chunkSize chunkIndex files s Hne Hlen).
Qed.

Lemma nonstrict_chunks_reach_size_witness :
  exists s r,
    scan false 500 0 initState threeFiles = inr s /\
    plan false 500 0 threeFiles = inr r /\
    chunks r =
      chunks s ++ [Chunk.mk (currentChunkIndex s) (currentChunkFilesCnt s)
                     (currentChunkSize s)] /\
    Forall (fun c => 500 <= Chunk.Size c) (chunks s) /\
    1 <= currentChunkFilesCnt s.
Proof.
  apply (nonstrict_chunks_reach_size 500 0 threeFiles).
  - discriminate.
  - reflexivity.
  - vm_compute. discriminate.
Defined.

(** C4, as the specification has it, fails: in non-strict mode a file
    larger than the chunk size joins the open chunk when that chunk has
    not reached the chunk size yet. With chunk size 10, the file of size 20
    shares chunk 0 with the file of size 5 before it. *)
Lemma oversized_alone_counterexample :
  ~ (forall r i file k c,
       plan false 10 0 smallThenLarge = inr r ->
       nth_error smallThenLarge i = Some file ->
       oversized 10 file ->
       nth_error (chunkIndexAt false 10 0 initState smallThenLarge) i = Some k ->
       nth_error (chunks r) (Z.to_nat k) = Some c ->
       Chunk.FilesCnt c = 1).
Proof.
  intros H.
  specialize (H _ 1%nat (TorrentFile.mk 1 "b" 20) 0 (Chunk.mk 0 2 25)
                eq_refl eq_refl eq_refl eq_refl eq_refl).
  discriminate H.
Qed.

(** C4, amended. In non-strict mode the pass never fails, and a file
    larger than the chunk size is the last file of its chunk: the chunk is
    closed before the next file is added, and its total exceeds the chunk
    size. Smaller files before it may share the chunk. *)
Theorem nonstrict_oversized_last (chunkSize chunkIndex : Z)
  (files : list TorrentFile.t) :
  files <> [] ->
  0 < chunkSize ->
  representable files ->
  exists r groups,
    plan false chunkSize chunkIndex files = inr r /\
    partitionedAs files (chunks r)
      (chunkIndexAt false chunkSize chunkIndex initState files) groups /\
    forall g a file b,
      In g groups -> g = a ++ file :: b -> oversized chunkSize file ->
      b = [] /\ chunkSize < totalSize g.
Proof.
  intros Hne Hpos Hrep.
  destruct (plan_groups false chunkSize chunkIndex files Hpos Hrep
              ltac:(discriminate)) as (s & gs & g & I & Hg & Hplan & Hchunks).
  assert (Hcat : concat (gs ++ [g]) = files).
  { rewrite concat_app. cbn [concat]. rewrite app_nil_r.
    symmetry. exact (inv_concat _ _ _ _ _ _ _ I). }
  exists (appendLast s), (gs ++ [g]).
  split; [assumption|]. split.
  - split; [assumption|]. split; [|split].
    + apply Forall_app. split; [exact (inv_closed _ _ _ _ _ _ _ I)|].
      constructor; [auto | constructor].
    + assumption.
    + exact (inv_labels _ _ _ _ _ _ _ I).
  - intros g0 a file b Hin -> Hbig.
    pose proof (inv_last _ _ _ _ _ _ _ I eq_refl) as Hlast.
    rewrite Forall_forall in Hlast. split.
    + exact (Hlast _ Hin a file b eq_refl Hbig).
    + assert (Hn : Forall (fun x => 0 <= TorrentFile.Size x) (a ++ file :: b)).
      { destruct Hrep as [Hn _ _]. rewrite <- Hcat in Hn.
        rewrite Forall_forall in Hn |- *. intros x Hx. apply Hn.
        apply in_concat. eauto. }
      pose proof (totalSize_In file _ Hn ltac:(apply in_elt)).
      unfold oversized in Hbig. lia.
Qed.

Lemma nonstrict_oversized_last_witness :
  exists r groups,
    plan false 10 0 smallThenLarge = inr r /\
    partitionedAs smallThenLarge (chunks r)
      (chunkIndexAt false 10 0 initState smallThenLarge) groups /\
    forall g a file b,
      In g groups -> g = a ++ file :: b -> oversized 10 file ->
      b = [] /\ 10 < totalSize g.
Proof.
  apply (nonstrict_oversized_last 10 0 smallThenLarge).
  - discriminate.
  - reflexivity.
  - constructor.
    + repeat constructor; cbn; lia.
    + vm_compute. discriminate.
    + vm_compute. discriminate.
Defined.

(** C5, as the specification has it, fails: with chunk size 10, after a
    file of size 10 the open chunk is closed before an empty file although
    10 + 0 does not exceed 10. *)
Lemma strict_close_counterexample :
  ~ (forall pre file post s,
       fullThenEmpty = pre ++ file :: post ->
       scan true 10 0 initState pre = inr s ->
       (closes true 10 s file = true <->
        currentChunkSize s + TorrentFile.Size file > 10)).
Proof.
  intros H.
  specialize (H [TorrentFile.mk 0 "a" 10] (TorrentFile.mk 1 "b" 0) [] _
                eq_refl eq_refl).
  destruct H as [H _]. specialize (H eq_refl). discriminate H.
Qed.

(** C5, amended. In strict mode, when no file is larger than the chunk
    size, the open chunk is closed before a file exactly when adding the
    file would make its size exceed the chunk size, or when the open chunk
    is exactly full and the file is empty. *)
Theorem strict_close_rule (chunkSize chunkIndex : Z)
  (pre : list TorrentFile.t) (file : TorrentFile.t)
  (post : list TorrentFile.t) :
  0 < chunkSize ->
  representable (pre ++ file :: post) ->
  fits chunkSize (pre ++ file :: post) ->
  exists s s',
    scan true chunkSize chunkIndex initState pre = inr s /\
    step true chunkSize chunkIndex s file = inr s' /\
    (closes true chunkSize s file = true <->
     currentChunkSize s + TorrentFile.Size file > chunkSize \/
     currentChunkSize s = chunkSize /\ TorrentFile.Size file = 0) /\
    (closes true chunkSize s file = true ->
     chunks s' =
       chunks s ++ [Chunk.mk (currentChunkIndex s) (currentChunkFilesCnt s)
                      (currentChunkSize s)]) /\
    (closes true chunkSize s file = false -> chunks s' = chunks s).
Proof.
  intros Hpos Hrep Hfit.
  change (pre ++ file :: post) with (pre ++ [file] ++ post) in Hrep, Hfit.
  rewrite app_assoc in Hrep, Hfit.
  apply representable_app_l in Hrep. apply Forall_app in Hfit as [Hfit _].
  pose proof Hfit as Hfit'. apply Forall_app in Hfit' as [Hfitpre Hfitfile].
  assert (Hfile : TorrentFile.Size file <= chunkSize) by now inversion Hfitfile.
  assert (Hf0 : 0 <= TorrentFile.Size file).
  { destruct Hrep as [Hn _ _]. apply Forall_app in Hn as [_ Hn].
    now inversion Hn. }
  destruct (scan_Inv true chunkSize chunkIndex Hpos pre
              (representable_app_l _ _ Hrep) (fun _ => Hfitpre))
    as (s & gs & g & I & _).
  destruct (Inv_step true chunkSize chunkIndex Hpos pre s gs g file I Hrep
              (fun _ => Hfile))
    as (s' & gs' & g' & Hstep & I' & _ & D & C).
  pose proof (inv_bounded _ _ _ _ _ _ _ I eq_refl) as Hb.
  apply Forall_app in Hb as [_ Hb]. inversion Hb as [|? ? Hg _]. subst.
  pose proof (Inv_open_nonneg _ _ _ _ _ _ _ I (representable_app_l _ _ Hrep))
    as Hg0.
  exists s, s'.
  split; [exact (inv_scan _ _ _ _ _ _ _ I)|]. split; [assumption|].
  rewrite (inv_size _ _ _ _ _ _ _ I). split; [|split].
  - rewrite C. cbn [andb].
    destruct (Z.geb_spec (totalSize g) chunkSize);
      destruct (Z.gtb_spec (totalSize g + TorrentFile.Size file) chunkSize);
      cbn [orb]; split; intros; try discriminate; try reflexivity; lia.
  - intros Hcl. destruct D as [(-> & _ & _)|(_ & _ & E)]; [|congruence].
    rewrite (inv_chunks _ _ _ _ _ _ _ I'), chunksOf_app. cbn [chunksOf].
    now rewrite (inv_chunks _ _ _ _ _ _ _ I), (inv_index _ _ _ _ _ _ _ I),
      (inv_cnt _ _ _ _ _ _ _ I).
  - intros Hcl. destruct D as [(_ & _ & E)|(-> & _ & _)]; [congruence|].
    now rewrite (inv_chunks _ _ _ _ _ _ _ I'), (inv_chunks _ _ _ _ _ _ _ I).
Qed.

Lemma strict_close_rule_witness :
  exists s s',
    scan true 10 0 initState [TorrentFile.mk 0 "a" 10] = inr s /\
    step true 10 0 s (TorrentFile.mk 1 "b" 0) = inr s' /\
    (closes true 10 s (TorrentFile.mk 1 "b" 0) = true <->
     currentChunkSize s + TorrentFile.Size (TorrentFile.mk 1 "b" 0) > 10 \/
     currentChunkSize s = 10 /\
     TorrentFile.Size (TorrentFile.mk 1 "b" 0) = 0) /\
    (closes true 10 s (TorrentFile.mk 1 "b" 0) = true ->
     chunks s' =
       chunks s ++ [Chunk.mk (currentChunkIndex s) (currentChunkFilesCnt s)
                      (currentChunkSize s)]) /\
    (closes true 10 s (TorrentFile.mk 1 "b" 0) = false ->
     chunks s' = chunks s).
Proof.
  apply (strict_close_rule 10 0 [TorrentFile.mk 0 "a" 10]
           (TorrentFile.mk 1 "b" 0) []).
  - reflexivity.
  - constructor.
    + repeat constructor; cbn; lia.
    + vm_compute. discriminate.
    + vm_compute. discriminate.
  - repeat constructor; cbn; lia.
Defined.

Lemma NoDup_app_disjoint {A : Type} (l1 l2 : list A) (x : A) :
  NoDup (l1 ++ l2) -> In x l1 -> ~ In x l2.
Proof.
  induction l1 as [|a l1 IH]; cbn [app]; intros Hnd Hin; [destruct Hin|].
  inversion Hnd as [|? ? Hnotin Hnd']; subst.
  destruct Hin as [->|Hin]; [|now apply IH].
  intros H2. apply Hnotin, in_or_app. now right.
Qed.

(** C6. Whenever the pass succeeds, the download list holds, in file
    order, the client indexes of the files for which the open chunk's index
    at line 124 equals [chunkIndex], and the no-download list holds those
    of all the other files; together the two lists hold every input file
    index exactly once, and with distinct client indexes no index is in
    both. *)
Theorem download_sets (strict : bool) (chunkSize chunkIndex : Z)
  (files : list TorrentFile.t) :
  (strict = true -> fits chunkSize files) ->
  NoDup (map TorrentFile.Index files) ->
  exists r,
    plan strict chunkSize chunkIndex files = inr r /\
    let at124 := chunkIndexAt strict chunkSize chunkIndex initState files in
    length at124 = length files /\
    downloadFileIndexes r = selected (fun k => k =? chunkIndex) files at124 /\
    noDownloadFileIndexes r =
      selected (fun k => negb (k =? chunkIndex)) files at124 /\
    Permutation (downloadFileIndexes r ++ noDownloadFileIndexes r)
      (map TorrentFile.Index files) /\
    forall i, In i (downloadFileIndexes r) -> ~ In i (noDownloadFileIndexes r).
Proof.
  intros Hfit Hnd.
  destruct (plan_succeeds strict chunkSize chunkIndex files Hfit)
    as (s & Hscan & Hplan).
  exists (appendLast s). split; [assumption|].
  destruct (scan_classify strict chunkSize chunkIndex files initState s Hscan)
    as (Hlen & Hd & Hn).
  cbn [downloadFileIndexes noDownloadFileIndexes initState app] in Hd, Hn.
  cbn zeta. cbn [appendLast downloadFileIndexes noDownloadFileIndexes].
  assert (Hperm : Permutation (downloadFileIndexes s ++ noDownloadFileIndexes s)
                    (map TorrentFile.Index files)).
  { rewrite Hd, Hn. now apply selected_split. }
  repeat (split; [assumption|]).
  intros i. apply NoDup_app_disjoint.
  apply (Permutation_NoDup (Permutation_sym Hperm) Hnd).
Qed.

Lemma download_sets_witness :
  exists r,
    plan false 500 0 threeFiles = inr r /\
    let at124 := chunkIndexAt false 500 0 initState threeFiles in
    length at124 = length threeFiles /\
    downloadFileIndexes r = selected (fun k => k =? 0) threeFiles at124 /\
    noDownloadFileIndexes r =
      selected (fun k => negb (k =? 0)) threeFiles at124 /\
    Permutation (downloadFileIndexes r ++ noDownloadFileIndexes r)
      (map TorrentFile.Index threeFiles) /\
    forall i, In i (downloadFileIndexes r) -> ~ In i (noDownloadFileIndexes r).
Proof.
  apply (download_sets false 500 0 threeFiles).
  - discriminate.
  - repeat constructor; cbn; intuition discriminate.
Defined.

(** C7, as the specification has it, fails for a report run: with
    [--all], a chunk index of 5 and only two chunks, the command prints
    the table and exits with status 0; the index is never compared with
    the chunk count. *)
Lemma index_check_counterexample :
  ~ (forall r,
       plan false 500 5 threeFiles = inr r ->
       5 >= len (chunks r) ->
       exists msg,
         outcome (partialdownload (okClient threeFiles) reportFlags
                    "local" "e447d424") = inl (LogFatal msg)).
Proof.
  intros H. destruct (H _ eq_refl) as [msg Hmsg].
  - vm_compute. discriminate.
  - vm_compute in Hmsg. discriminate Hmsg.
Qed.

Lemma no_SetFilePriority_in_table (cs : list Chunk.t) :
  filter isSetFilePriority
    (map (fun c => EvPrintChunk (Chunk.Index c) (Chunk.FilesCnt c)
                     (Chunk.Size c)) cs) = [].
Proof. induction cs as [|c cs IH]; [reflexivity | exact IH]. Qed.

(** C7, amended. A negative chunk index always stops the command with a
    validation failure before the client is created and before any file
    list is fetched or partitioned. Outside report mode, a chunk index at
    or beyond the number of chunks is a validation failure raised once the
    whole partition is computed. Neither run makes a [SetFilePriority]
    call. In report mode such an index is not checked: the run ends with
    status 0. *)
Theorem chunk_index_validation (client : Client) (flags : Flags.t)
  (clientName infoHash : string) :
  let run := partialdownload client flags clientName infoHash in
  (Flags.chunkIndex flags < 0 ->
   trace run = [] /\
   exists msg, outcome run = inl (LogFatal msg) /\
     (msg = InvalidChunkSize (Flags.chunkSize flags) \/
      msg = InvalidChunkIndex (Flags.chunkIndex flags))) /\
  (forall fetched r,
     0 < Flags.chunkSize flags ->
     0 <= Flags.chunkIndex flags ->
     CreateClient client clientName = None ->
     GetTorrentContents client infoHash = inr fetched ->
     plan (Flags.strict flags) (Flags.chunkSize flags)
       (Flags.chunkIndex flags) (ordered flags fetched) = inr r ->
     Flags.chunkIndex flags >= len (chunks r) ->
     (Flags.showAll flags = false ->
      trace run =
        [EvCreateClient clientName; EvGetTorrentContents infoHash; EvClose] /\
      outcome run =
        inl (LogFatal (InvalidChunkIndexOfChunks (Flags.chunkIndex flags)
                         (Int64.add (currentChunkIndex r) 1))) /\
      filter isSetFilePriority (trace run) = []) /\
     (Flags.showAll flags = true ->
      outcome run = inl (OsExit 0) /\
      filter isSetFilePriority (trace run) = [])).
Proof.
  cbv zeta. split.
  - intros Hneg. rewrite (partialdownload_negative_index _ _ _ _ Hneg).
    split; [reflexivity|]. eexists. split; [reflexivity|].
    destruct (Flags.chunkSize flags <=? 0); auto.
  - intros fetched r Hsize Hindex Hcreate Hget Hplan Hbeyond.
    rewrite (partialdownload_afterFetch client flags clientName infoHash
               fetched Hsize Hindex Hcreate Hget).
    unfold afterFetch. rewrite Hplan. split; intros ->.
    + destruct (Z.geb_spec (Flags.chunkIndex flags) (len (chunks r)));
        [|lia].
      cbn. auto.
    + unfold trace, outcome. cbn [fst snd]. split; [reflexivity|].
      cbn [app filter isSetFilePriority].
      rewrite filter_app. now rewrite no_SetFilePriority_in_table.
Qed.

Lemma chunk_index_validation_witness :
  trace (partialdownload (okClient threeFiles)
           (Flags.mk 500 (-1) false false true) "local" "e447d424") = [] /\
  exists r,
    plan false 500 5 threeFiles = inr r /\
    outcome (partialdownload (okClient threeFiles)
               (Flags.mk 500 5 false false true) "local" "e447d424")
    = inl (LogFatal (InvalidChunkIndexOfChunks 5
                       (Int64.add (currentChunkIndex r) 1))) /\
    outcome (partialdownload (okClient threeFiles) reportFlags
               "local" "e447d424") = inl (OsExit 0).
Proof.
  split.
  - apply (chunk_index_validation (okClient threeFiles)
             (Flags.mk 500 (-1) false false true) "local" "e447d424").
    reflexivity.
  - eexists. split; [reflexivity|]. split.
    + apply (proj2 (chunk_index_validation (okClient threeFiles)
               (Flags.mk 500 5 false false true) "local" "e447d424")
               threeFiles).
      * reflexivity.
      * discriminate.
      * reflexivity.
      * reflexivity.
      * reflexivity.
      * vm_compute. discriminate.
      * reflexivity.
    + eapply (proj2 (chunk_index_validation (okClient threeFiles)
               reportFlags "local" "e447d424") threeFiles).
      * reflexivity.
      * discriminate.
      * reflexivity.
      * reflexivity.
      * reflexivity.
      * vm_compute. discriminate.
      * reflexivity.
Defined.

(** C8. In report mode, once the chunk size is positive, the chunk index
    is not negative, the file list is fetched and the strict-mode check
    passes, the command prints the summary line and one table row per
    chunk, closes the client and exits with status 0, whatever the chunk
    index is compared with the number of chunks; it makes no
    [SetFilePriority] call. *)
Theorem report_mode (client : Client) (flags : Flags.t)
  (clientName infoHash : string) (fetched : list TorrentFile.t) :
  Flags.showAll flags = true ->
  0 < Flags.chunkSize flags ->
  0 <= Flags.chunkIndex flags ->
  CreateClient client clientName = None ->
  GetTorrentContents client infoHash = inr fetched ->
  (Flags.strict flags = true ->
   fits (Flags.chunkSize flags) (ordered flags fetched)) ->
  let run := partialdownload client flags clientName infoHash in
  exists r,
    plan (Flags.strict flags) (Flags.chunkSize flags) (Flags.chunkIndex flags)
      (ordered flags fetched) = inr r /\
    trace run =
      [EvCreateClient clientName; EvGetTorrentContents infoHash;
       EvPrintAllHeader (allSize r) (len (ordered flags fetched))
         (Flags.chunkSize flags) (len (chunks r));
       EvPrintColumns]
      ++ map (fun c => EvPrintChunk (Chunk.Index c) (Chunk.FilesCnt c)
                         (Chunk.Size c)) (chunks r)
      ++ [EvClose] /\
    outcome run = inl (OsExit 0) /\
    exitCode (OsExit 0) = 0 /\
    filter isSetFilePriority (trace run) = [].
Proof.
  intros Hall Hsize Hindex Hcreate Hget Hfit. cbv zeta.
  destruct (plan_succeeds _ _ (Flags.chunkIndex flags) _ Hfit)
    as (s & _ & Hplan).
  exists (appendLast s). split; [assumption|].
  rewrite (partialdownload_afterFetch client flags clientName infoHash
             fetched Hsize Hindex Hcreate Hget).
  unfold afterFetch. rewrite Hplan, Hall. unfold trace, outcome.
  cbn [fst snd]. repeat (split; [reflexivity|]).
  cbn [app filter isSetFilePriority].
  rewrite filter_app. now rewrite no_SetFilePriority_in_table.
Qed.

Lemma report_mode_witness :
  exists r,
    plan false 500 5 threeFiles = inr r /\
    trace (partialdownload (okClient threeFiles) reportFlags
             "local" "e447d424") =
      [EvCreateClient "local"; EvGetTorrentContents "e447d424";
       EvPrintAllHeader (allSize r) (len threeFiles) 500 (len (chunks r));
       EvPrintColumns]
      ++ map (fun c => EvPrintChunk (Chunk.Index c) (Chunk.FilesCnt c)
                         (Chunk.Size c)) (chunks r)
      ++ [EvClose] /\
    outcome (partialdownload (okClient threeFiles) reportFlags
               "local" "e447d424") = inl (OsExit 0) /\
    exitCode (OsExit 0) = 0 /\
    filter isSetFilePriority
      (trace (partialdownload (okClient threeFiles) reportFlags
                "local" "e447d424")) = [].
Proof.
  apply (report_mode (okClient threeFiles) reportFlags "local" "e447d424"
           threeFiles).
  - reflexivity.
  - reflexivity.
  - discriminate.
  - reflexivity.
  - reflexivity.
  - discriminate.
Defined.

(** C9. For one file list and one mode, a smaller chunk size never gives
    fewer chunks: when the pass succeeds for [s1] and for [s2] with
    [0 < s1 <= s2], the chunk table for [s1] is at least as long as the one
    for [s2]. *)
Theorem chunk_count_monotone (strict : bool) (s1 s2 i1 i2 : Z)
  (files : list TorrentFile.t) (r1 r2 : LoopState) :
  0 < s1 -> s1 <= s2 ->
  representable files ->
  plan strict s1 i1 files = inr r1 ->
  plan strict s2 i2 files = inr r2 ->
  len (chunks r2) <= len (chunks r1).
Proof.
  intros Hpos Hle Hrep Hp1 Hp2.
  destruct (lockstep strict s1 s2 i1 i2 files Hpos Hle Hrep
              (plan_inr_fits _ _ _ _ _ Hp1))
    as (t1 & gs1 & g1 & t2 & gs2 & g2 & I1 & I2 & Hahead).
  unfold plan in Hp1, Hp2.
  rewrite (inv_scan _ _ _ _ _ _ _ I1) in Hp1.
  rewrite (inv_scan _ _ _ _ _ _ _ I2) in Hp2.
  injection Hp1 as <-. injection Hp2 as <-.
  cbn [appendLast chunks]. rewrite !len_app, !len_single.
  rewrite (inv_chunks _ _ _ _ _ _ _ I1), (inv_chunks _ _ _ _ _ _ _ I2).
  unfold len in *. rewrite !chunksOf_length. lia.
Qed.

Lemma chunk_count_monotone_witness :
  exists r1 r2,
    plan true 300 0 threeFiles = inr r1 /\
    plan true 500 0 threeFiles = inr r2 /\
    len (chunks r2) <= len (chunks r1).
Proof.
  eexists. eexists. split; [reflexivity|]. split; [reflexivity|].
  apply (chunk_count_monotone true 300 500 0 0 threeFiles).
  - reflexivity.
  - discriminate.
  - exact representable_threeFiles.
  - reflexivity.
  - reflexivity.
Defined.

(** C10. With no file at all and a positive chunk size the command does
    not stop early: the pass yields the single chunk 0 with no file and
    size 0, chunk index 0 passes the check against the chunk count, and
    outside report mode [SetFilePriority] is called with an empty index
    list, first with priority 1 and, when that call succeeds, with
    priority 0. *)
Theorem empty_file_list (client : Client) (flags : Flags.t)
  (clientName infoHash : string) :
  0 < Flags.chunkSize flags ->
  Flags.chunkIndex flags = 0 ->
  Flags.showAll flags = false ->
  CreateClient client clientName = None ->
  GetTorrentContents client infoHash = inr [] ->
  let run := partialdownload client flags clientName infoHash in
  let download := EvSetFilePriority infoHash [] 1 in
  let skip := EvSetFilePriority infoHash [] 0 in
  (exists r,
     plan (Flags.strict flags) (Flags.chunkSize flags) 0 (ordered flags [])
     = inr r /\
     chunks r = [Chunk.mk 0 0 0] /\
     downloadFileIndexes r = [] /\ noDownloadFileIndexes r = [] /\
     (Flags.chunkIndex flags >=? len (chunks r)) = false) /\
  (exists rest,
     trace run =
       [EvCreateClient clientName; EvGetTorrentContents infoHash; download]
       ++ rest) /\
  (SetFilePriority client infoHash [] 1 = None ->
   exists rest,
     trace run =
       [EvCreateClient clientName; EvGetTorrentContents infoHash;
        download; EvSleep 5; skip] ++ rest) /\
  (SetFilePriority client infoHash [] 1 = None ->
   SetFilePriority client infoHash [] 0 = None ->
   trace run =
     [EvCreateClient clientName; EvGetTorrentContents infoHash;
      download; EvSleep 5; skip; EvPrintResult 0 0 1 0 0 0; EvClose] /\
   outcome run = inr tt).
Proof.
  intros Hsize Hindex Hall Hcreate Hget. cbv zeta.
  rewrite (partialdownload_afterFetch client flags clientName infoHash []
             Hsize ltac:(lia) Hcreate Hget).
  assert (Hord : ordered flags [] = []).
  { unfold ordered. now destruct (Flags.originalOrder flags). }
  unfold afterFetch. rewrite Hord, Hindex, Hall.
  assert (Hplan : plan (Flags.strict flags) (Flags.chunkSize flags) 0 []
                  = inr (appendLast initState)) by reflexivity.
  rewrite Hplan. cbn [appendLast initState chunks downloadFileIndexes
                        noDownloadFileIndexes allSize currentChunkIndex
                        currentChunkSize currentChunkFilesCnt app].
  change (0 >=? len [Chunk.mk 0 0 0]) with false. cbv iota.
  split; [|split; [|split]].
  - eexists. repeat (split; [reflexivity|]). reflexivity.
  - destruct (SetFilePriority client infoHash [] 1);
      [|destruct (SetFilePriority client infoHash [] 0)];
      eexists; reflexivity.
  - intros ->. destruct (SetFilePriority client infoHash [] 0);
      eexists; reflexivity.
  - intros -> ->. split; reflexivity.
Qed.

Lemma empty_file_list_witness :
  trace (partialdownload (okClient []) (Flags.mk 500 0 false false false)
           "local" "e447d424") =
    [EvCreateClient "local"; EvGetTorrentContents "e447d424";
     EvSetFilePriority "e447d424" [] 1; EvSleep 5;
     EvSetFilePriority "e447d424" [] 0; EvPrintResult 0 0 1 0 0 0; EvClose] /\
  outcome (partialdownload (okClient []) (Flags.mk 500 0 false false false)
             "local" "e447d424") = inr tt.
Proof.
  apply (empty_file_list (okClient []) (Flags.mk 500 0 false false false)
           "local" "e447d424"); reflexivity.
Defined.

(** * Further properties of [partialdownload] *)

(** ** Induction over the grouping *)

(** A property of the closed runs and the open run that holds at the start
    and is kept when the scan closes the open chunk and when it extends it,
    holds after the scan. *)
Lemma grouping_ind (strict : bool) (chunkSize chunkIndex : Z)
  (P : list (list TorrentFile.t) -> list TorrentFile.t -> Prop) :
  0 < chunkSize ->
  P [] [] ->
  (forall gs g file,
     P gs g -> g <> [] ->
     Forall (fun x => 0 <= TorrentFile.Size x) g ->
     0 <= TorrentFile.Size file ->
     (strict = true -> TorrentFile.Size file <= chunkSize) ->
     (totalSize g >=? chunkSize)
     || strict && (totalSize g + TorrentFile.Size file >? chunkSize) = true ->
     P (gs ++ [g]) [file]) ->
  (forall gs g file,
     P gs g ->
     Forall (fun x => 0 <= TorrentFile.Size x) g ->
     0 <= TorrentFile.Size file ->
     (totalSize g >=? chunkSize)
     || strict && (totalSize g + TorrentFile.Size file >? chunkSize) = false ->
     P gs (g ++ [file])) ->
  forall files,
    representable files ->
    (strict = true -> fits chunkSize files) ->
    exists s gs g,
      Inv strict chunkSize chunkIndex files s gs g /\
      (files <> [] -> g <> []) /\ P gs g.
Proof.
  intros Hpos Hinit Hclose Hextend.
  induction files as [|file pre IH] using rev_ind; intros Hrep Hfit.
  - exists initState, [], []. split; [now apply Inv_init|]. split; [congruence|].
    assumption.
  - assert (Hreppre : representable pre) by now apply representable_app_l in Hrep.
    assert (Hfile : strict = true -> TorrentFile.Size file <= chunkSize).
    { intros E. specialize (Hfit E). apply Forall_app in Hfit as [_ Hfit].
      now inversion Hfit. }
    assert (Hf0 : 0 <= TorrentFile.Size file).
    { destruct Hrep as [Hn _ _]. apply Forall_app in Hn as [_ Hn].
      now inversion Hn. }
    destruct IH as (s & gs & g & I & _ & HP); [assumption | |].
    { intros E. specialize (Hfit E). now apply Forall_app in Hfit. }
    assert (Hng : Forall (fun x => 0 <= TorrentFile.Size x) g).
    { destruct Hreppre as [Hn _ _]. rewrite (inv_concat _ _ _ _ _ _ _ I) in Hn.
      now apply Forall_app in Hn. }
    destruct (Inv_step strict chunkSize chunkIndex Hpos pre s gs g file I Hrep
                Hfile) as (s' & gs' & g' & _ & I' & Hg' & D & C).
    exists s', gs', g'. split; [assumption|]. split; [auto|].
    destruct D as [(-> & -> & E)|(-> & -> & E)]; rewrite C in E.
    + apply Hclose; try assumption.
      pose proof (inv_closed _ _ _ _ _ _ _ I') as Hc.
      apply Forall_app in Hc as [_ Hc]. now inversion Hc.
    + now apply Hextend.
Qed.

(** ** The files of one chunk *)

Lemma selected_app (sel : Z -> bool) (f1 f2 : list TorrentFile.t)
  (a1 a2 : list Z) :
  length a1 = length f1 ->
  selected sel (f1 ++ f2) (a1 ++ a2) = selected sel f1 a1 ++ selected sel f2 a2.
Proof.
  unfold selected. revert a1.
  induction f1 as [|x f1 IH]; intros [|k a1]; cbn [length]; try discriminate.
  - reflexivity.
  - intros [= Hlen]. cbn [app combine filter snd].
    destruct (sel k); cbn [map app]; now rewrite IH.
Qed.

Lemma selected_repeat (sel : Z -> bool) (g : list TorrentFile.t) (k : Z) :
  selected sel g (repeat k (length g)) =
  if sel k then map TorrentFile.Index g else [].
Proof.
  unfold selected. induction g as [|x g IH]; cbn [length repeat combine filter snd].
  - now destruct (sel k).
  - destruct (sel k); cbn [map fst]; [now rewrite IH | exact IH].
Qed.

Lemma selected_labels_below (groups : list (list TorrentFile.t)) (k i : Z) :
  i < k ->
  selected (fun j => j =? i) (concat groups) (labels k groups) = [] /\
  selected (fun j => negb (j =? i)) (concat groups) (labels k groups) =
  map TorrentFile.Index (concat groups).
Proof.
  revert k. induction groups as [|g rest IH]; intros k Hlt;
    cbn [concat labels].
  - now split.
  - rewrite !selected_app by apply repeat_length.
    rewrite !selected_repeat. destruct (IH (k + 1) ltac:(lia)) as [-> ->].
    destruct (Z.eqb_spec k i); [lia|]. cbn [negb app].
    now rewrite map_app.
Qed.

Lemma selected_labels (groups : list (list TorrentFile.t)) (k i : Z) :
  k <= i ->
  let n := Z.to_nat (i - k) in
  selected (fun j => j =? i) (concat groups) (labels k groups) =
  map TorrentFile.Index (nth n groups []) /\
  selected (fun j => negb (j =? i)) (concat groups) (labels k groups) =
  map TorrentFile.Index (concat (firstn n groups ++ skipn (S n) groups)).
Proof.
  revert k. induction groups as [|g rest IH]; intros k Hle; cbn zeta;
    cbn [concat labels].
  - destruct (Z.to_nat (i - k)); now split.
  - rewrite !selected_app by apply repeat_length.
    rewrite !selected_repeat. destruct (Z.eqb_spec k i) as [->|Hne].
    + rewrite Z.sub_diag. cbn [Z.to_nat nth firstn skipn app negb].
      destruct (selected_labels_below rest (i + 1) i ltac:(lia)) as [-> ->].
      now rewrite app_nil_r.
    + destruct (IH (k + 1) ltac:(lia)) as [H1 H2]. rewrite H1, H2.
      replace (Z.to_nat (i - k)) with (S (Z.to_nat (i - (k + 1)))) by lia.
      cbn [nth firstn skipn app negb concat]. split; [reflexivity|].
      now rewrite map_app.
Qed.

Lemma chunksOf_nth (groups : list (list TorrentFile.t)) (k : Z) (n : nat)
  (d : Chunk.t) :
  (n < length groups)%nat ->
  nth n (chunksOf k groups) d =
  Chunk.mk (k + Z.of_nat n) (len (nth n groups [])) (totalSize (nth n groups [])).
Proof.
  revert k n. induction groups as [|g rest IH]; intros k n Hn;
    cbn [length] in Hn; [lia|].
  destruct n as [|n]; cbn [chunksOf nth].
  - now rewrite Z.add_0_r.
  - rewrite IH by lia. f_equal. lia.
Qed.

Lemma plan_selected_chunk (strict : bool) (chunkSize chunkIndex : Z)
  (files : list TorrentFile.t) :
  0 < chunkSize ->
  representable files ->
  (strict = true -> fits chunkSize files) ->
  0 <= chunkIndex ->
  exists s gs g,
    Inv strict chunkSize chunkIndex files s gs g /\
    (files <> [] -> g <> []) /\
    plan strict chunkSize chunkIndex files = inr (appendLast s) /\
    chunks (appendLast s) = chunksOf 0 (gs ++ [g]) /\
    concat (gs ++ [g]) = files /\
    let n := Z.to_nat chunkIndex in
    downloadFileIndexes s = map TorrentFile.Index (nth n (gs ++ [g]) []) /\
    noDownloadFileIndexes s =
      map TorrentFile.Index
        (concat (firstn n (gs ++ [g]) ++ skipn (S n) (gs ++ [g]))).
Proof.
  intros Hpos Hrep Hfit Hci.
  destruct (plan_groups strict chunkSize chunkIndex files Hpos Hrep Hfit)
    as (s & gs & g & I & Hg & Hplan & Hchunks).
  assert (Hcat : concat (gs ++ [g]) = files).
  { rewrite concat_app. cbn [concat]. rewrite app_nil_r.
    symmetry. exact (inv_concat _ _ _ _ _ _ _ I). }
  destruct (scan_classify strict chunkSize chunkIndex files initState s
              (inv_scan _ _ _ _ _ _ _ I)) as (_ & Hd & Hn).
  cbn [downloadFileIndexes noDownloadFileIndexes initState app] in Hd, Hn.
  rewrite (inv_labels _ _ _ _ _ _ _ I) in Hd, Hn.
  rewrite <- Hcat in Hd at 1. rewrite <- Hcat in Hn at 1.
  destruct (selected_labels (gs ++ [g]) 0 chunkIndex Hci) as [H1 H2].
  rewrite Z.sub_0_r in H1, H2. rewrite H1 in Hd. rewrite H2 in Hn.
  exists s, gs, g. repeat (split; [assumption|]). assumption.
Qed.

(** X1. The download list is the run of files of the chosen chunk, in file
    order, and the no-download list is every other file, in file order.
    For a chunk index below the number of chunks the run is not empty and
    the chunk table holds, at that index, the number of download files and
    their total size; for a chunk index at or beyond the number of chunks
    the download list is empty and every file is in the no-download
    list. *)
Theorem download_is_selected_chunk (strict : bool) (chunkSize chunkIndex : Z)
  (files : list TorrentFile.t) :
  files <> [] ->
  0 < chunkSize ->
  representable files ->
  (strict = true -> fits chunkSize files) ->
  0 <= chunkIndex ->
  exists r groups,
    plan strict chunkSize chunkIndex files = inr r /\
    partitionedAs files (chunks r)
      (chunkIndexAt strict chunkSize chunkIndex initState files) groups /\
    let n := Z.to_nat chunkIndex in
    downloadFileIndexes r = map TorrentFile.Index (nth n groups []) /\
    noDownloadFileIndexes r =
      map TorrentFile.Index (concat (firstn n groups ++ skipn (S n) groups)) /\
    (chunkIndex < len (chunks r) ->
     nth n groups [] <> [] /\
     nth n (chunks r) (Chunk.mk 0 0 0) =
       Chunk.mk chunkIndex (len (downloadFileIndexes r))
         (totalSize (nth n groups []))) /\
    (len (chunks r) <= chunkIndex ->
     downloadFileIndexes r = [] /\
     noDownloadFileIndexes r = map TorrentFile.Index files).
Proof.
  intros Hne Hpos Hrep Hfit Hci.
  destruct (plan_selected_chunk strict chunkSize chunkIndex files Hpos Hrep
              Hfit Hci)
    as (s & gs & g & I & Hg & Hplan & Hchunks & Hcat & Hd & Hn).
  cbn zeta in Hd, Hn.
  assert (Hnonempty : Forall (fun g' => g' <> []) (gs ++ [g])).
  { apply Forall_app. split; [exact (inv_closed _ _ _ _ _ _ _ I)|].
    constructor; [auto | constructor]. }
  exists (appendLast s), (gs ++ [g]).
  split; [assumption|]. split.
  { split; [assumption|]. split; [assumption|]. split; [assumption|].
    exact (inv_labels _ _ _ _ _ _ _ I). }
  cbn zeta. cbn [appendLast downloadFileIndexes noDownloadFileIndexes].
  split; [assumption|]. split; [assumption|].
  assert (Hlen : len (chunks (appendLast s)) = len (gs ++ [g])).
  { rewrite Hchunks. unfold len. now rewrite chunksOf_length. }
  rewrite Hlen. unfold len at 1 3. split.
  - intros Hlt.
    assert (Hn' : (Z.to_nat chunkIndex < length (gs ++ [g]))%nat) by lia.
    split.
    + rewrite Forall_forall in Hnonempty. apply Hnonempty. now apply nth_In.
    + rewrite Hchunks, (chunksOf_nth _ 0 _ _ Hn'), Hd. unfold len.
      rewrite length_map. f_equal. lia.
  - intros Hge.
    assert (Hn' : (length (gs ++ [g]) <= Z.to_nat chunkIndex)%nat) by lia.
    rewrite Hd, Hn. rewrite (nth_overflow _ _ Hn').
    rewrite firstn_all2 by assumption. rewrite skipn_all2 by lia.
    now rewrite app_nil_r, Hcat.
Qed.

Lemma download_is_selected_chunk_witness :
  exists r groups,
    plan false 500 0 threeFiles = inr r /\
    partitionedAs threeFiles (chunks r)
      (chunkIndexAt false 500 0 initState threeFiles) groups /\
    let n := Z.to_nat 0 in
    downloadFileIndexes r = map TorrentFile.Index (nth n groups []) /\
    noDownloadFileIndexes r =
      map TorrentFile.Index (concat (firstn n groups ++ skipn (S n) groups)) /\
    (0 < len (chunks r) ->
     nth n groups [] <> [] /\
     nth n (chunks r) (Chunk.mk 0 0 0) =
       Chunk.mk 0 (len (downloadFileIndexes r))
         (totalSize (nth n groups []))) /\
    (len (chunks r) <= 0 ->
     downloadFileIndexes r = [] /\
     noDownloadFileIndexes r = map TorrentFile.Index threeFiles).
Proof.
  apply (download_is_selected_chunk false 500 0 threeFiles).
  - discriminate.
  - reflexivity.
  - exact representable_threeFiles.
  - discriminate.
  - discriminate.
Defined.

(** ** How many chunks *)

Lemma totalSize_concat_lower (c : Z) (gs : list (list TorrentFile.t)) :
  Forall (fun g => c <= totalSize g) gs -> len gs * c <= totalSize (concat gs).
Proof.
  induction 1 as [|g gs Hg _ IH]; cbn [concat].
  - cbn. lia.
  - rewrite len_cons, totalSize_app. lia.
Qed.

Lemma totalSize_concat_upper (c : Z) (gs : list (list TorrentFile.t)) :
  Forall (fun g => totalSize g <= c) gs -> totalSize (concat gs) <= len gs * c.
Proof.
  induction 1 as [|g gs Hg _ IH]; cbn [concat].
  - cbn. lia.
  - rewrite len_cons, totalSize_app. lia.
Qed.

(** X2. For a non-empty file list there are at least one chunk and at
    most as many chunks as files. In non-strict mode all chunks but the
    last reach the chunk size, so [(count - 1) * chunkSize] is at most the
    total size: there are never more chunks than the total size divided by
    the chunk size, plus one. In strict mode the total size is at most
    [count * chunkSize]: there are never fewer chunks than the total size
    divided by the chunk size. *)
Theorem chunk_count_bounds (strict : bool) (chunkSize chunkIndex : Z)
  (files : list TorrentFile.t) :
  files <> [] ->
  0 < chunkSize ->
  representable files ->
  (strict = true -> fits chunkSize files) ->
  exists r,
    plan strict chunkSize chunkIndex files = inr r /\
    1 <= len (chunks r) <= len files /\
    (strict = false -> (len (chunks r) - 1) * chunkSize <= totalSize files) /\
    (strict = true -> totalSize files <= len (chunks r) * chunkSize).
Proof.
  intros Hne Hpos Hrep Hfit.
  destruct (plan_groups strict chunkSize chunkIndex files Hpos Hrep Hfit)
    as (s & gs & g & I & Hg & Hplan & Hchunks).
  exists (appendLast s). split; [assumption|].
  assert (Hlen : len (chunks (appendLast s)) = len gs + 1).
  { rewrite Hchunks. unfold len. rewrite chunksOf_length, length_app.
    cbn [length]. lia. }
  rewrite Hlen. pose proof (inv_concat _ _ _ _ _ _ _ I) as Hcat.
  pose proof (len_nonneg gs) as Hgs0.
  assert (Hng : Forall (fun x => 0 <= TorrentFile.Size x) g).
  { destruct Hrep as [Hn _ _]. rewrite Hcat in Hn.
    now apply Forall_app in Hn. }
  split; [|split].
  - split; [lia|]. rewrite Hcat, len_app.
    pose proof (len_concat_nonempty gs (inv_closed _ _ _ _ _ _ _ I)).
    specialize (Hg Hne). destruct g as [|x g]; [congruence|].
    rewrite len_cons. pose proof (len_nonneg g). lia.
  - intros Hs. rewrite Hcat, totalSize_app.
    pose proof (totalSize_concat_lower chunkSize gs
                  (inv_reached _ _ _ _ _ _ _ I Hs)).
    pose proof (totalSize_nonneg g Hng). lia.
  - intros Hs. pose proof (inv_bounded _ _ _ _ _ _ _ I Hs) as Hb.
    apply totalSize_concat_upper in Hb.
    rewrite concat_app in Hb. cbn [concat] in Hb.
    rewrite app_nil_r, <- Hcat, len_app, len_single in Hb. exact Hb.
Qed.

Lemma chunk_count_bounds_witness :
  exists r,
    plan true 500 0 threeFiles = inr r /\
    1 <= len (chunks r) <= len threeFiles /\
    (true = false -> (len (chunks r) - 1) * 500 <= totalSize threeFiles) /\
    (true = true -> totalSize threeFiles <= len (chunks r) * 500).
Proof.
  apply (chunk_count_bounds true 500 0 threeFiles).
  - discriminate.
  - reflexivity.
  - exact representable_threeFiles.
  - intros _. repeat constructor; vm_compute; discriminate.
Defined.

(** The scan in the stricter mode, or with the smaller chunk size, is
    never behind. *)
Lemma lockstep_modes (m1 m2 : bool) (c1 c2 i1 i2 : Z)
  (files : list TorrentFile.t) :
  0 < c1 -> c1 <= c2 ->
  (m2 = true -> m1 = true) ->
  representable files ->
  (m1 = true -> fits c1 files) ->
  exists s1 gs1 g1 s2 gs2 g2,
    Inv m1 c1 i1 files s1 gs1 g1 /\
    Inv m2 c2 i2 files s2 gs2 g2 /\
    (len gs2 < len gs1 \/ len gs1 = len gs2 /\ totalSize g2 <= totalSize g1).
Proof.
  intros Hc1 Hc12 Hm.
  induction files as [|file pre IH] using rev_ind; intros Hrep Hfit.
  - exists initState, [], [], initState, [], [].
    split; [apply Inv_init; lia|]. split; [apply Inv_init; lia|].
    right. split; [reflexivity | apply Z.le_refl].
  - assert (Hreppre : representable pre) by now apply representable_app_l in Hrep.
    assert (Hfile : m1 = true -> TorrentFile.Size file <= c1).
    { intros E. specialize (Hfit E). apply Forall_app in Hfit as [_ Hfit].
      now inversion Hfit. }
    destruct IH as (s1 & gs1 & g1 & s2 & gs2 & g2 & I1 & I2 & Hahead);
      [assumption | |].
    { intros E. specialize (Hfit E). now apply Forall_app in Hfit. }
    pose proof (Inv_open_nonneg _ _ _ _ _ _ _ I1 Hreppre) as H1.
    pose proof (Inv_open_nonneg _ _ _ _ _ _ _ I2 Hreppre) as H2.
    assert (Hf0 : 0 <= TorrentFile.Size file).
    { destruct Hrep as [Hn _ _]. apply Forall_app in Hn as [_ Hn].
      now inversion Hn. }
    destruct (Inv_step m1 c1 i1 Hc1 pre s1 gs1 g1 file I1 Hrep Hfile)
      as (s1' & gs1' & g1' & _ & I1' & _ & D1 & C1).
    destruct (Inv_step m2 c2 i2 ltac:(lia) pre s2 gs2 g2 file I2 Hrep
                ltac:(intros E; specialize (Hfile (Hm E)); lia))
      as (s2' & gs2' & g2' & _ & I2' & _ & D2 & C2).
    exists s1', gs1', g1', s2', gs2', g2'.
    split; [assumption|]. split; [assumption|].
    destruct D1 as [(-> & -> & E1)|(-> & -> & E1)];
      destruct D2 as [(-> & -> & E2)|(-> & -> & E2)];
      rewrite C1 in E1; rewrite C2 in E2;
      rewrite ?len_app, ?len_single, ?totalSize_app, ?totalSize_cons;
      cbn [totalSize fold_right];
      destruct m1, m2; try (specialize (Hm eq_refl); discriminate Hm);
      cbn [andb] in E1, E2; rewrite ?orb_false_r in E1, E2;
      destruct (Z.geb_spec (totalSize g1) c1);
      destruct (Z.geb_spec (totalSize g2) c2);
      try destruct (Z.gtb_spec (totalSize g1 + TorrentFile.Size file) c1);
      try destruct (Z.gtb_spec (totalSize g2 + TorrentFile.Size file) c2);
      cbn [orb] in E1, E2; try discriminate; lia.
Qed.

(** X3. Strict mode never gives fewer chunks than non-strict mode: for the
    same file list, the strict chunk table with a chunk size [s1] is at
    least as long as the non-strict one with any chunk size [s2 >= s1]. *)
Theorem strict_no_fewer_chunks (s1 s2 i1 i2 : Z)
  (files : list TorrentFile.t) (r1 r2 : LoopState) :
  0 < s1 -> s1 <= s2 ->
  representable files ->
  plan true s1 i1 files = inr r1 ->
  plan false s2 i2 files = inr r2 ->
  len (chunks r2) <= len (chunks r1).
Proof.
  intros Hpos Hle Hrep Hp1 Hp2.
  destruct (lockstep_modes true false s1 s2 i1 i2 files Hpos Hle
              ltac:(discriminate) Hrep (plan_inr_fits _ _ _ _ _ Hp1))
    as (t1 & gs1 & g1 & t2 & gs2 & g2 & I1 & I2 & Hahead).
  unfold plan in Hp1, Hp2.
  rewrite (inv_scan _ _ _ _ _ _ _ I1) in Hp1.
  rewrite (inv_scan _ _ _ _ _ _ _ I2) in Hp2.
  injection Hp1 as <-. injection Hp2 as <-.
  cbn [appendLast chunks]. rewrite !len_app, !len_single.
  rewrite (inv_chunks _ _ _ _ _ _ _ I1), (inv_chunks _ _ _ _ _ _ _ I2).
  unfold len in *. rewrite !chunksOf_length. lia.
Qed.

Lemma strict_no_fewer_chunks_witness :
  exists r1 r2,
    plan true 500 0 threeFiles = inr r1 /\
    plan false 500 0 threeFiles = inr r2 /\
    len (chunks r2) <= len (chunks r1).
Proof.
  eexists. eexists. split; [reflexivity|]. split; [reflexivity|].
  apply (strict_no_fewer_chunks 500 500 0 0 threeFiles).
  - reflexivity.
  - discriminate.
  - exact representable_threeFiles.
  - reflexivity.
  - reflexivity.
Defined.

(** ** How full the chunks are *)

Lemma adjacent_snoc (R : Z -> Z -> Prop) (zs : list Z) (z : Z) :
  (forall a x y b, zs = a ++ x :: y :: b -> R x y) ->
  (forall a x, zs = a ++ [x] -> R x z) ->
  forall a x y b, zs ++ [z] = a ++ x :: y :: b -> R x y.
Proof.
  intros Hin Hlast a x y b E. destruct b as [|b0 b].
  - change (a ++ [x; y]) with (a ++ [x] ++ [y]) in E.
    rewrite app_assoc in E. apply app_inj_tail in E as [E ->].
    now apply (Hlast a).
  - assert (Hb : b0 :: b <> []) by discriminate.
    destruct (exists_last Hb) as (b' & w & Eb). rewrite Eb in E.
    change (a ++ x :: y :: b' ++ [w]) with (a ++ (x :: y :: b') ++ [w]) in E.
    rewrite app_assoc in E. apply app_inj_tail in E as [E _].
    now apply (Hin a x y b').
Qed.

Lemma map_Size_chunksOf (k : Z) (gs : list (list TorrentFile.t)) :
  map Chunk.Size (chunksOf k gs) = map totalSize gs.
Proof.
  revert k. induction gs as [|g gs IH]; intros k; cbn [chunksOf map].
  - reflexivity.
  - now rewrite IH.
Qed.

(** X4. In strict mode no two neighbouring chunks could have been one:
    the sizes of a chunk and of the chunk after it add up to more than the
    chunk size, unless the first of the two is exactly full. *)
Theorem strict_adjacent_tight (chunkSize chunkIndex : Z)
  (files : list TorrentFile.t) :
  0 < chunkSize ->
  representable files ->
  fits chunkSize files ->
  exists r,
    plan true chunkSize chunkIndex files = inr r /\
    forall a c c' b,
      chunks r = a ++ c :: c' :: b ->
      chunkSize < Chunk.Size c + Chunk.Size c' \/ Chunk.Size c = chunkSize.
Proof.
  intros Hpos Hrep Hfit.
  pose (R := fun x y : Z => chunkSize < x + y \/ chunkSize <= x).
  destruct (grouping_ind true chunkSize chunkIndex
              (fun gs g =>
                 (forall a x y b, map totalSize gs = a ++ x :: y :: b -> R x y) /\
                 (forall a x, map totalSize gs = a ++ [x] -> R x (totalSize g)))
              Hpos) with (files := files)
    as (s & gs & g & I & _ & Hpairs & Hlast).
  - split; intros a; intros; now destruct a.
  - intros gs g file [Hpairs Hlast] _ Hng Hf0 _ Hcond.
    rewrite map_app. cbn [map]. split.
    + now apply adjacent_snoc.
    + intros a x E. apply app_inj_tail in E as [_ <-].
      rewrite totalSize_cons. cbn [totalSize fold_right]. unfold R.
      cbn [andb] in Hcond. apply orb_true_iff in Hcond as [H|H].
      * apply Z.geb_le in H. lia.
      * apply Z.gtb_lt in H. lia.
  - intros gs g file [Hpairs Hlast] Hng Hf0 _. split; [assumption|].
    intros a x E. specialize (Hlast a x E). unfold R in *.
    rewrite totalSize_app, totalSize_cons. cbn [totalSize fold_right]. lia.
  - assumption.
  - auto.
  - exists (appendLast s). split.
    { unfold plan. now rewrite (inv_scan _ _ _ _ _ _ _ I). }
    intros a c c' b E.
    assert (Hb : Forall (fun z => z <= chunkSize) (map totalSize (gs ++ [g]))).
    { apply Forall_map. exact (inv_bounded _ _ _ _ _ _ _ I eq_refl). }
    apply (f_equal (map Chunk.Size)) in E.
    cbn [appendLast chunks] in E.
    rewrite (inv_chunks _ _ _ _ _ _ _ I), (inv_index _ _ _ _ _ _ _ I),
      (inv_cnt _ _ _ _ _ _ _ I), (inv_size _ _ _ _ _ _ _ I) in E.
    rewrite !map_app in E. cbn [map Chunk.Size] in E.
    rewrite map_Size_chunksOf in E.
    pose proof (adjacent_snoc R _ _ Hpairs Hlast _ _ _ _ E) as [H|H];
      [now left | right].
    rewrite map_app in Hb. cbn [map] in Hb. rewrite E in Hb.
    apply Forall_app in Hb as [_ Hb]. inversion Hb. lia.
Qed.

Lemma strict_adjacent_tight_witness :
  exists r,
    plan true 500 0 threeFiles = inr r /\
    forall a c c' b,
      chunks r = a ++ c :: c' :: b ->
      500 < Chunk.Size c + Chunk.Size c' \/ Chunk.Size c = 500.
Proof.
  apply (strict_adjacent_tight 500 0 threeFiles).
  - reflexivity.
  - exact representable_threeFiles.
  - repeat constructor; vm_compute; discriminate.
Defined.

(** X5. In non-strict mode a chunk is closed as soon as it has reached the
    chunk size: every chunk, without its last file, is smaller than the
    chunk size, so a chunk exceeds the chunk size by less than the size of
    its last file. *)
Theorem nonstrict_overshoot_bounded (chunkSize chunkIndex : Z)
  (files : list TorrentFile.t) :
  files <> [] ->
  0 < chunkSize ->
  representable files ->
  exists r groups,
    plan false chunkSize chunkIndex files = inr r /\
    partitionedAs files (chunks r)
      (chunkIndexAt false chunkSize chunkIndex initState files) groups /\
    Forall (fun g => totalSize (removelast g) < chunkSize) groups.
Proof.
  intros Hne Hpos Hrep.
  destruct (grouping_ind false chunkSize chunkIndex
              (fun gs g =>
                 Forall (fun h => totalSize (removelast h) < chunkSize)
                   (gs ++ [g]))
              Hpos) with (files := files)
    as (s & gs & g & I & Hg & Hall).
  - repeat constructor. exact Hpos.
  - intros gs g file H _ _ _ _ _. apply Forall_app. split; [assumption|].
    repeat constructor. exact Hpos.
  - intros gs g file H _ _ Hcond. apply Forall_app in H as [H _].
    apply Forall_app. split; [assumption|]. constructor; [|constructor].
    rewrite removelast_last. cbn [andb] in Hcond. rewrite orb_false_r in Hcond.
    destruct (Z.geb_spec (totalSize g) chunkSize); [discriminate | lia].
  - assumption.
  - discriminate.
  - exists (appendLast s), (gs ++ [g]). split.
    { unfold plan. now rewrite (inv_scan _ _ _ _ _ _ _ I). }
    split; [|assumption]. split; [|split; [|split]].
    + rewrite concat_app. cbn [concat]. rewrite app_nil_r.
      symmetry. exact (inv_concat _ _ _ _ _ _ _ I).
    + apply Forall_app. split; [exact (inv_closed _ _ _ _ _ _ _ I)|].
      constructor; [auto | constructor].
    + cbn [appendLast chunks]. rewrite chunksOf_app. cbn [chunksOf].
      now rewrite (inv_chunks _ _ _ _ _ _ _ I), (inv_index _ _ _ _ _ _ _ I),
        (inv_cnt _ _ _ _ _ _ _ I), (inv_size _ _ _ _ _ _ _ I).
    + exact (inv_labels _ _ _ _ _ _ _ I).
Qed.

Lemma nonstrict_overshoot_bounded_witness :
  exists r groups,
    plan false 10 0 smallThenLarge = inr r /\
    partitionedAs smallThenLarge (chunks r)
      (chunkIndexAt false 10 0 initState smallThenLarge) groups /\
    Forall (fun g => totalSize (removelast g) < 10) groups.
Proof.
  apply (nonstrict_overshoot_bounded 10 0 smallThenLarge).
  - discriminate.
  - reflexivity.
  - constructor.
    + repeat constructor; cbn; lia.
    + vm_compute. discriminate.
    + vm_compute. discriminate.
Defined.

(** ** The order of the files *)

Lemma wrap_add_l (a b : Z) : Int64.add (Int64.wrap a) b = Int64.wrap (a + b).
Proof.
  unfold Int64.add, Int64.wrap. f_equal.
  replace ((a + 2 ^ 63) mod 2 ^ 64 - 2 ^ 63 + b + 2 ^ 63)
    with ((a + 2 ^ 63) mod 2 ^ 64 + b) by lia.
  rewrite Zplus_mod_idemp_l. f_equal. lia.
Qed.

Lemma scan_allSize (strict : bool) (chunkSize chunkIndex : Z)
  (files : list TorrentFile.t) (s s' : LoopState) (x : Z) :
  allSize s = Int64.wrap x ->
  scan strict chunkSize chunkIndex s files = inr s' ->
  allSize s' = Int64.wrap (x + totalSize files).
Proof.
  revert s x. induction files as [|a l IH]; intros s x Hx; cbn [scan].
  - intros [= <-]. cbn [totalSize fold_right]. now rewrite Z.add_0_r.
  - unfold step.
    destruct (strict && (TorrentFile.Size a >? chunkSize)); [discriminate|].
    intros Hs. rewrite totalSize_cons, Z.add_assoc.
    eapply IH; [|exact Hs].
    destruct (closes strict chunkSize (addAllSize s a) a);
      cbn [addFile closeChunk addAllSize allSize]; rewrite Hx;
      apply wrap_add_l.
Qed.

Lemma plan_allSize (strict : bool) (chunkSize chunkIndex : Z)
  (files : list TorrentFile.t) (r : LoopState) :
  plan strict chunkSize chunkIndex files = inr r ->
  allSize r = Int64.wrap (totalSize files).
Proof.
  unfold plan.
  destruct (scan strict chunkSize chunkIndex initState files) as [e|s] eqn:E;
    [discriminate|].
  intros [= <-]. cbn [appendLast allSize].
  apply (scan_allSize _ _ _ _ initState _ 0) in E; [exact E | reflexivity].
Qed.

Lemma plan_index_perm (strict : bool) (chunkSize chunkIndex : Z)
  (files : list TorrentFile.t) (r : LoopState) :
  plan strict chunkSize chunkIndex files = inr r ->
  Permutation (downloadFileIndexes r ++ noDownloadFileIndexes r)
    (map TorrentFile.Index files).
Proof.
  unfold plan.
  destruct (scan strict chunkSize chunkIndex initState files) as [e|s] eqn:E;
    [discriminate|].
  intros [= <-]. cbn [appendLast downloadFileIndexes noDownloadFileIndexes].
  destruct (scan_classify _ _ _ _ _ _ E) as (Hlen & Hd & Hn).
  cbn [downloadFileIndexes noDownloadFileIndexes initState app] in Hd, Hn.
  rewrite Hd, Hn. now apply selected_split.
Qed.

Lemma totalSize_perm (l l' : list TorrentFile.t) :
  Permutation l l' -> totalSize l = totalSize l'.
Proof.
  induction 1; rewrite ?totalSize_cons; lia.
Qed.

Lemma insertByPath_perm (file : TorrentFile.t) (l : list TorrentFile.t) :
  Permutation (insertByPath file l) (file :: l).
Proof.
  induction l as [|g l IH]; cbn [insertByPath]; [reflexivity|].
  destruct (String.ltb _ _); [reflexivity|].
  rewrite IH. apply perm_swap.
Qed.

Lemma sortByPath_perm (l : list TorrentFile.t) : Permutation (sortByPath l) l.
Proof.
  unfold sortByPath. induction l as [|a l IH]; cbn [fold_right]; [reflexivity|].
  rewrite insertByPath_perm. now constructor.
Qed.

Lemma ltb_false_leb (x y : string) :
  String.ltb x y = false -> String.leb y x = true.
Proof.
  unfold String.ltb, String.leb. rewrite (String.compare_antisym y x).
  now destruct (String.compare x y).
Qed.

Lemma ltb_true_leb (x y : string) :
  String.ltb x y = true -> String.leb x y = true.
Proof.
  unfold String.ltb, String.leb. now destruct (String.compare x y).
Qed.

Lemma insertByPath_sorted (file : TorrentFile.t) (l : list TorrentFile.t) :
  Sorted pathLe l -> Sorted pathLe (insertByPath file l).
Proof.
  induction 1 as [|g l Hs IH Hhd]; cbn [insertByPath].
  - repeat constructor.
  - destruct (String.ltb (TorrentFile.Path file) (TorrentFile.Path g)) eqn:E.
    + constructor; [now constructor|]. constructor. now apply ltb_true_leb.
    + constructor; [assumption|]. apply ltb_false_leb in E.
      destruct l as [|h l]; cbn [insertByPath]; [now constructor|].
      destruct (String.ltb _ _); constructor; [assumption|].
      now inversion Hhd.
Qed.

Lemma sortByPath_sorted (l : list TorrentFile.t) : Sorted pathLe (sortByPath l).
Proof.
  unfold sortByPath. induction l as [|a l IH]; cbn [fold_right].
  - constructor.
  - now apply insertByPath_sorted.
Qed.

Lemma fits_perm (chunkSize : Z) (l l' : list TorrentFile.t) :
  Permutation l l' -> fits chunkSize l -> fits chunkSize l'.
Proof. intros H. unfold fits. now apply Permutation_Forall. Qed.

(** X6. The files are planned in ascending path order unless
    [--original-order] is given, and in the fetched order then; in both
    cases they are the fetched files. So the order mode changes neither
    the file count, nor whether the strict-mode check fails, nor the total
    size that is printed, nor which file indexes the download and
    no-download lists hold together. *)
Theorem order_mode_invariants (flags : Flags.t)
  (fetched : list TorrentFile.t) :
  let files := ordered flags fetched in
  Permutation files fetched /\
  len files = len fetched /\
  (Flags.originalOrder flags = true -> files = fetched) /\
  (Flags.originalOrder flags = false -> Sorted pathLe files) /\
  forall strict chunkSize chunkIndex,
    match plan strict chunkSize chunkIndex files,
          plan strict chunkSize chunkIndex fetched with
    | inr r, inr r' =>
        allSize r = allSize r' /\
        Permutation (downloadFileIndexes r ++ noDownloadFileIndexes r)
          (downloadFileIndexes r' ++ noDownloadFileIndexes r')
    | inl _, inl _ => True
    | _, _ => False
    end.
Proof.
  cbv zeta.
  assert (Hperm : Permutation (ordered flags fetched) fetched).
  { unfold ordered. destruct (Flags.originalOrder flags);
      [reflexivity | apply sortByPath_perm]. }
  split; [assumption|]. split; [|split; [|split]].
  - unfold len. now rewrite (Permutation_length Hperm).
  - unfold ordered. now intros ->.
  - unfold ordered. intros ->. apply sortByPath_sorted.
  - intros strict chunkSize chunkIndex.
    destruct (plan strict chunkSize chunkIndex (ordered flags fetched))
      as [e|r] eqn:E1;
      destruct (plan strict chunkSize chunkIndex fetched) as [e'|r'] eqn:E2.
    + exact I.
    + pose proof (plan_inr_fits _ _ _ _ _ E2) as Hfit.
      destruct (plan_succeeds strict chunkSize chunkIndex
                  (ordered flags fetched)) as (s & _ & Hp).
      { intros Hs. apply (fits_perm _ fetched); [now symmetry | auto]. }
      congruence.
    + pose proof (plan_inr_fits _ _ _ _ _ E1) as Hfit.
      destruct (plan_succeeds strict chunkSize chunkIndex fetched)
        as (s & _ & Hp).
      { intros Hs. apply (fits_perm _ (ordered flags fetched)); auto. }
      congruence.
    + split.
      * rewrite (plan_allSize _ _ _ _ _ E1), (plan_allSize _ _ _ _ _ E2).
        now rewrite (totalSize_perm _ _ Hperm).
      * rewrite (plan_index_perm _ _ _ _ _ E1), (plan_index_perm _ _ _ _ _ E2).
        now apply Permutation_map.
Qed.

(** ** One chunk after the other *)

Lemma step_progress (strict : bool) (chunkSize i1 i2 : Z) (s1 s2 : LoopState)
  (file : TorrentFile.t) :
  progress s1 = progress s2 ->
  match step strict chunkSize i1 s1 file, step strict chunkSize i2 s2 file with
  | inr t1, inr t2 => progress t1 = progress t2
  | inl e1, inl e2 => e1 = e2
  | _, _ => False
  end.
Proof.
  unfold progress. intros [= Hc Hi Hs Hn Ha]. unfold step.
  destruct (strict && (TorrentFile.Size file >? chunkSize)); [reflexivity|].
  unfold closes. cbn [addAllSize currentChunkSize]. rewrite Hs.
  destruct (_ || _);
    cbn [addFile closeChunk addAllSize chunks currentChunkIndex
           currentChunkSize currentChunkFilesCnt allSize];
    now rewrite ?Hc, ?Hi, ?Hs, ?Hn, ?Ha.
Qed.

Lemma chunkIndexAt_irrelevant (strict : bool) (chunkSize i1 i2 : Z)
  (files : list TorrentFile.t) (s1 s2 : LoopState) :
  progress s1 = progress s2 ->
  chunkIndexAt strict chunkSize i1 s1 files =
  chunkIndexAt strict chunkSize i2 s2 files.
Proof.
  revert s1 s2. induction files as [|a l IH]; intros s1 s2 Hp;
    cbn [chunkIndexAt]; [reflexivity|].
  pose proof (step_progress strict chunkSize i1 i2 s1 s2 a Hp) as H.
  destruct (step strict chunkSize i1 s1 a) as [e1|t1];
    destruct (step strict chunkSize i2 s2 a) as [e2|t2];
    try contradiction; [reflexivity|].
  rewrite (IH t1 t2 H). f_equal.
  unfold progress in H. now injection H.
Qed.

Lemma map_nth_seq {A : Type} (l : list A) (d : A) :
  map (fun i => nth i l d) (seq 0 (length l)) = l.
Proof.
  induction l as [|a l IH]; cbn [length seq map nth]; [reflexivity|].
  f_equal. rewrite <- seq_shift, map_map. exact IH.
Qed.

(** X7. Asking for chunk 0, then chunk 1, and so on up to the last chunk
    downloads every file exactly once: the download lists of these runs,
    one after the other, are the client indexes of the files in file
    order. *)
Theorem chunks_cover_files (strict : bool) (chunkSize : Z)
  (files : list TorrentFile.t) :
  files <> [] ->
  0 < chunkSize ->
  representable files ->
  (strict = true -> fits chunkSize files) ->
  exists r,
    plan strict chunkSize 0 files = inr r /\
    concat (map (fun k => downloadOf strict chunkSize files (Z.of_nat k))
              (seq 0 (length (chunks r))))
    = map TorrentFile.Index files.
Proof.
  intros Hne Hpos Hrep Hfit.
  destruct (plan_groups strict chunkSize 0 files Hpos Hrep Hfit)
    as (s & gs & g & I & Hg & Hplan & Hchunks).
  exists (appendLast s). split; [assumption|].
  assert (Hcat : concat (gs ++ [g]) = files).
  { rewrite concat_app. cbn [concat]. rewrite app_nil_r.
    symmetry. exact (inv_concat _ _ _ _ _ _ _ I). }
  assert (Hdl : forall k : nat,
             downloadOf strict chunkSize files (Z.of_nat k)
             = map TorrentFile.Index (nth k (gs ++ [g]) [])).
  { intros k. unfold downloadOf.
    destruct (plan_succeeds strict chunkSize (Z.of_nat k) files Hfit)
      as (t & Hscan & ->).
    cbn [appendLast downloadFileIndexes].
    destruct (scan_classify _ _ _ _ _ _ Hscan) as (_ & Hd & _).
    cbn [downloadFileIndexes initState app] in Hd. rewrite Hd.
    rewrite (chunkIndexAt_irrelevant strict chunkSize (Z.of_nat k) 0 files
               initState initState eq_refl).
    rewrite (inv_labels _ _ _ _ _ _ _ I). rewrite <- Hcat at 1.
    destruct (selected_labels (gs ++ [g]) 0 (Z.of_nat k) ltac:(lia)) as [H _].
    rewrite H. now rewrite Z.sub_0_r, Nat2Z.id. }
  rewrite (map_ext _ _ Hdl), Hchunks, chunksOf_length.
  rewrite <- (map_map (fun k => nth k (gs ++ [g]) []) (map TorrentFile.Index)).
  rewrite map_nth_seq, <- concat_map. now rewrite Hcat.
Qed.

Lemma chunks_cover_files_witness :
  exists r,
    plan true 500 0 threeFiles = inr r /\
    concat (map (fun k => downloadOf true 500 threeFiles (Z.of_nat k))
              (seq 0 (length (chunks r))))
    = map TorrentFile.Index threeFiles.
Proof.
  apply (chunks_cover_files true 500 threeFiles).
  - discriminate.
  - reflexivity.
  - exact representable_threeFiles.
  - intros _. repeat constructor; vm_compute; discriminate.
Defined.

(** ** Every run of the command *)

(** The ways a run can go before the file list is planned. *)
Lemma partialdownload_cases (client : Client) (flags : Flags.t)
  (clientName infoHash : string) :
  let run := partialdownload client flags clientName infoHash in
  let chunkSize := Flags.chunkSize flags in
  let chunkIndex := Flags.chunkIndex flags in
  (chunkSize <= 0 /\ run = ([], inl (LogFatal (InvalidChunkSize chunkSize)))) \/
  (0 < chunkSize /\ chunkIndex < 0 /\
   run = ([], inl (LogFatal (InvalidChunkIndex chunkIndex)))) \/
  (0 < chunkSize /\ 0 <= chunkIndex /\
   exists err,
     CreateClient client clientName = Some err /\
     run = ([EvCreateClient clientName; EvClose],
            inl (LogFatal (FailedToCreateClient err)))) \/
  (0 < chunkSize /\ 0 <= chunkIndex /\
   CreateClient client clientName = None /\
   exists err,
     GetTorrentContents client infoHash = inl err /\
     run = ([EvCreateClient clientName; EvGetTorrentContents infoHash;
             EvClose],
            inl (LogFatal (FailedToGetClientFiles err)))) \/
  (0 < chunkSize /\ 0 <= chunkIndex /\
   CreateClient client clientName = None /\
   exists fetched,
     GetTorrentContents client infoHash = inr fetched /\
     run = afterFetch client flags clientName infoHash (ordered flags fetched)).
Proof.
  cbv zeta.
  destruct (Z.leb_spec (Flags.chunkSize flags) 0) as [Hs|Hs].
  { left. split; [assumption|]. unfold partialdownload.
    destruct (Z.leb_spec (Flags.chunkSize flags) 0); [reflexivity | lia]. }
  right.
  destruct (Z.ltb_spec (Flags.chunkIndex flags) 0) as [Hi|Hi].
  { left. split; [assumption|]. split; [assumption|]. unfold partialdownload.
    destruct (Z.leb_spec (Flags.chunkSize flags) 0); [lia|].
    destruct (Z.ltb_spec (Flags.chunkIndex flags) 0); [reflexivity | lia]. }
  right.
  destruct (CreateClient client clientName) as [err|] eqn:Ec.
  { left. split; [assumption|]. split; [assumption|]. exists err.
    split; [reflexivity|]. unfold partialdownload.
    destruct (Z.leb_spec (Flags.chunkSize flags) 0); [lia|].
    destruct (Z.ltb_spec (Flags.chunkIndex flags) 0); [lia|].
    now rewrite Ec. }
  right.
  destruct (GetTorrentContents client infoHash) as [err|fetched] eqn:Eg.
  { left. repeat (split; [assumption || reflexivity|]). exists err.
    split; [reflexivity|]. unfold partialdownload.
    destruct (Z.leb_spec (Flags.chunkSize flags) 0); [lia|].
    destruct (Z.ltb_spec (Flags.chunkIndex flags) 0); [lia|].
    now rewrite Ec, Eg. }
  right. repeat (split; [assumption || reflexivity|]). exists fetched.
  split; [reflexivity|]. now apply partialdownload_afterFetch.
Qed.

(** X8. The command calls [SetFilePriority] only when everything before
    it went well: the chunk size is positive, the chunk index is not
    negative, the run is not a report run, the client was created, the
    file list was fetched and planned, and the chunk index is below the
    number of chunks. *)
Theorem mutation_only_when_valid (client : Client) (flags : Flags.t)
  (clientName infoHash : string) :
  filter isSetFilePriority
    (trace (partialdownload client flags clientName infoHash)) <> [] ->
  0 < Flags.chunkSize flags /\
  0 <= Flags.chunkIndex flags /\
  Flags.showAll flags = false /\
  CreateClient client clientName = None /\
  exists fetched r,
    GetTorrentContents client infoHash = inr fetched /\
    plan (Flags.strict flags) (Flags.chunkSize flags)
      (Flags.chunkIndex flags) (ordered flags fetched) = inr r /\
    Flags.chunkIndex flags < len (chunks r).
Proof.
  intros H.
  destruct (partialdownload_cases client flags clientName infoHash)
    as [(_ & E)|[(_ & _ & E)|[(_ & _ & err & _ & E)|
       [(_ & _ & _ & err & _ & E)|(Hs & Hi & Hc & fetched & Hg & E)]]]];
    rewrite E in H; try (exfalso; apply H; reflexivity).
  repeat (split; [assumption|]).
  unfold afterFetch in H.
  destruct (plan _ _ _ _) as [[cs path size]|r] eqn:Ep;
    [exfalso; apply H; reflexivity|].
  destruct (Flags.showAll flags).
  { exfalso. apply H. unfold trace. cbn [fst app filter isSetFilePriority].
    rewrite filter_app. now rewrite no_SetFilePriority_in_table. }
  split; [reflexivity|]. split; [assumption|]. exists fetched, r.
  split; [assumption|]. split; [exact Ep|].
  destruct (Z.geb_spec (Flags.chunkIndex flags) (len (chunks r)));
    [exfalso; apply H; reflexivity | assumption].
Qed.

Lemma mutation_only_when_valid_witness :
  0 < Flags.chunkSize firstChunkFlags /\
  0 <= Flags.chunkIndex firstChunkFlags /\
  Flags.showAll firstChunkFlags = false /\
  CreateClient (okClient threeFiles) "local" = None /\
  exists fetched r,
    GetTorrentContents (okClient threeFiles) "e447d424" = inr fetched /\
    plan (Flags.strict firstChunkFlags) (Flags.chunkSize firstChunkFlags)
      (Flags.chunkIndex firstChunkFlags) (ordered firstChunkFlags fetched)
    = inr r /\
    Flags.chunkIndex firstChunkFlags < len (chunks r).
Proof.
  apply (mutation_only_when_valid (okClient threeFiles) firstChunkFlags
           "local" "e447d424").
  vm_compute. discriminate.
Defined.

(** X9. Every run makes no [SetFilePriority] call, or the download call
    alone because it failed, or the download call, a sleep of 5 and then
    the no-download call: the download call is always first and on the
    download list with priority 1, the second call is on the no-download
    list with priority 0, and there is never a third. When the second call
    fails the first has already been made; it is not undone. *)
Theorem mutation_sequence (client : Client) (flags : Flags.t)
  (clientName infoHash : string) :
  let run := partialdownload client flags clientName infoHash in
  filter isSetFilePriority (trace run) = [] \/
  exists fetched r,
    GetTorrentContents client infoHash = inr fetched /\
    plan (Flags.strict flags) (Flags.chunkSize flags)
      (Flags.chunkIndex flags) (ordered flags fetched) = inr r /\
    let download := EvSetFilePriority infoHash (downloadFileIndexes r) 1 in
    let skip := EvSetFilePriority infoHash (noDownloadFileIndexes r) 0 in
    let fetch := [EvCreateClient clientName; EvGetTorrentContents infoHash] in
    ((exists err,
        SetFilePriority client infoHash (downloadFileIndexes r) 1 = Some err /\
        trace run = fetch ++ [download; EvClose] /\
        outcome run = inl (LogFatal (FailedToSetDownloadFiles err))) \/
     (SetFilePriority client infoHash (downloadFileIndexes r) 1 = None /\
      exists rest,
        trace run = fetch ++ [download; EvSleep 5; skip] ++ rest /\
        filter isSetFilePriority rest = [] /\
        match SetFilePriority client infoHash (noDownloadFileIndexes r) 0 with
        | Some err =>
            outcome run = inl (LogFatal (FailedToSetNoDownloadFiles err))
        | None => outcome run = inr tt
        end)).
Proof.
  cbv zeta.
  destruct (partialdownload_cases client flags clientName infoHash)
    as [(_ & E)|[(_ & _ & E)|[(_ & _ & err & _ & E)|
       [(_ & _ & _ & err & _ & E)|(Hs & Hi & Hc & fetched & Hg & E)]]]];
    rewrite E; try (left; reflexivity).
  unfold afterFetch.
  destruct (plan _ _ _ _) as [[cs path size]|r] eqn:Ep; [left; reflexivity|].
  destruct (Flags.showAll flags).
  { left. unfold trace. cbn [fst app filter isSetFilePriority].
    rewrite filter_app. now rewrite no_SetFilePriority_in_table. }
  destruct (_ >=? _); [left; reflexivity|].
  right. exists fetched, r. split; [assumption|]. split; [exact Ep|].
  destruct (SetFilePriority client infoHash (downloadFileIndexes r) 1)
    as [err|].
  { left. exists err. repeat split. }
  right. split; [reflexivity|].
  destruct (SetFilePriority client infoHash (noDownloadFileIndexes r) 0)
    as [err|]; eexists; repeat split.
Qed.





Lemma representable_perm (l l' : list TorrentFile.t) :
  Permutation l l' -> representable l -> representable l'.
Proof.
  intros Hp [Hn Ht Hl]. constructor.
  - now apply (Permutation_Forall Hp).
  - now rewrite <- (totalSize_perm _ _ Hp).
  - unfold len in *. now rewrite <- (Permutation_length Hp).
Qed.

Lemma ordered_perm (flags : Flags.t) (fetched : list TorrentFile.t) :
  Permutation (ordered flags fetched) fetched.
Proof.
  unfold ordered. destruct (Flags.originalOrder flags);
    [reflexivity | apply sortByPath_perm].
Qed.

(** X12. For a torrent with at least one file, the command never asks the
    client to download nothing: every [SetFilePriority] call with
    priority 1 is on a non-empty list of client indexes of fetched
    files. *)
Theorem download_call_not_empty (client : Client) (flags : Flags.t)
  (clientName infoHash : string) (fetched : list TorrentFile.t)
  (torrent : string) (fileIndexes : list Z) :
  GetTorrentContents client infoHash = inr fetched ->
  fetched <> [] ->
  representable fetched ->
  In (EvSetFilePriority torrent fileIndexes 1)
    (trace (partialdownload client flags clientName infoHash)) ->
  torrent = infoHash /\
  fileIndexes <> [] /\
  incl fileIndexes (map TorrentFile.Index fetched).
Proof.
  intros Hget Hne Hrep Hin.
  assert (Hperm := ordered_perm flags fetched).
  destruct (partialdownload_cases client flags clientName infoHash)
    as [(_ & E)|[(_ & _ & E)|[(_ & _ & err & _ & E)|
       [(_ & _ & _ & err & _ & E)|(Hs & Hi & Hc & fetched' & Hg & E)]]]];
    rewrite E in Hin;
    try (cbn in Hin; repeat (destruct Hin as [Hin|Hin]; try discriminate);
         contradiction).
  rewrite Hget in Hg. injection Hg as <-.
  unfold afterFetch in Hin.
  destruct (plan _ _ _ _) as [[cs path size]|r] eqn:Ep.
  { cbn in Hin. repeat (destruct Hin as [Hin|Hin]; try discriminate).
    contradiction. }
  destruct (Flags.showAll flags).
  { unfold trace in Hin. cbn [fst app In] in Hin.
    repeat (destruct Hin as [Hin|Hin]; try discriminate).
    apply in_app_or in Hin as [Hin|Hin].
    - apply in_map_iff in Hin as (c & Hc' & _). discriminate.
    - destruct Hin as [Hin|[]]. discriminate. }
  destruct (Z.geb_spec (Flags.chunkIndex flags) (len (chunks r))) as [Hge|Hlt].
  { cbn in Hin. repeat (destruct Hin as [Hin|Hin]; try discriminate).
    contradiction. }
  assert (Hdl : EvSetFilePriority torrent fileIndexes 1
                = EvSetFilePriority infoHash (downloadFileIndexes r) 1).
  { destruct (SetFilePriority client infoHash (downloadFileIndexes r) 1);
      [|destruct (SetFilePriority client infoHash (noDownloadFileIndexes r) 0)];
      cbn in Hin;
      repeat (destruct Hin as [Hin|Hin]; try discriminate);
      try contradiction; now symmetry. }
  injection Hdl as -> ->. split; [reflexivity|].
  assert (Hne' : ordered flags fetched <> []).
  { intros E0. rewrite E0 in Hperm. apply Permutation_nil in Hperm.
    congruence. }
  destruct (plan_selected_chunk (Flags.strict flags) (Flags.chunkSize flags)
              (Flags.chunkIndex flags) (ordered flags fetched) Hs
              (representable_perm _ _ (Permutation_sym Hperm) Hrep)
              (plan_inr_fits _ _ _ _ _ Ep) Hi)
    as (s & gs & g & I & Hg' & Hplan & Hchunks & Hcat & Hd & Hn).
  cbn zeta in Hd. rewrite Ep in Hplan. injection Hplan as ->.
  cbn [appendLast downloadFileIndexes]. split.
  - rewrite Hd. intros Hnil. apply map_eq_nil in Hnil.
    assert (Hall : Forall (fun g' => g' <> []) (gs ++ [g])).
    { apply Forall_app. split; [exact (inv_closed _ _ _ _ _ _ _ I)|].
      constructor; [auto | constructor]. }
    rewrite Forall_forall in Hall.
    assert (Hlen : (Z.to_nat (Flags.chunkIndex flags)
                    < length (gs ++ [g]))%nat).
    { rewrite Hchunks in Hlt. unfold len in Hlt.
      rewrite chunksOf_length in Hlt. lia. }
    exact (Hall _ (nth_In _ [] Hlen) Hnil).
  - pose proof (plan_index_perm _ _ _ _ _ Ep) as Hp.
    cbn [appendLast downloadFileIndexes noDownloadFileIndexes] in Hp.
    intros i Hi'.
    apply (Permutation_in (l := map TorrentFile.Index (ordered flags fetched))).
    + now apply Permutation_map.
    + apply (Permutation_in _ Hp). apply in_or_app. now left.
Qed.

Lemma download_call_not_empty_witness :
  "e447d424"%string = "e447d424"%string /\
  [0; 1] <> [] /\
  incl [0; 1] (map TorrentFile.Index threeFiles).
Proof.
  apply (download_call_not_empty (okClient threeFiles) firstChunkFlags
           "local" "e447d424" threeFiles "e447d424" [0; 1]).
  - reflexivity.
  - discriminate.
  - exact representable_threeFiles.
  - vm_compute. auto.
Defined.

(** ** What the command prints *)

Lemma rowsPrinted_table (cs : list Chunk.t) (tail : list Event) :
  rowsPrinted
    (map (fun c => EvPrintChunk (Chunk.Index c) (Chunk.FilesCnt c)
                     (Chunk.Size c)) cs ++ tail)
  = cs ++ rowsPrinted tail.
Proof.
  induction cs as [|[i n z] cs IH]; cbn [map app rowsPrinted]; [reflexivity|].
  now rewrite IH.
Qed.

Lemma map_Index_chunksOf (k : Z) (gs : list (list TorrentFile.t)) :
  map Chunk.Index (chunksOf k gs)
  = map (fun i => k + Z.of_nat i) (seq 0 (length gs)).
Proof.
  revert k. induction gs as [|g gs IH]; intros k;
    cbn [chunksOf map length seq]; [reflexivity|].
  rewrite Z.add_0_r. f_equal. rewrite IH, <- seq_shift, map_map.
  apply map_ext. intros i. lia.
Qed.

(** X13. The result line of a successful run describes the download call:
    it shows the total size and the number of the fetched files, the
    number of chunks, the chunk index that was asked for, and the size and
    the number of files of a run of fetched files whose client indexes are
    exactly the list that was sent with priority 1. *)
Theorem result_line_describes_download (client : Client) (flags : Flags.t)
  (clientName infoHash : string) (fetched : list TorrentFile.t)
  (total filesCnt chunksCnt index size chunkFilesCnt : Z) :
  GetTorrentContents client infoHash = inr fetched ->
  fetched <> [] ->
  representable fetched ->
  In (EvPrintResult total filesCnt chunksCnt index size chunkFilesCnt)
    (trace (partialdownload client flags clientName infoHash)) ->
  total = totalSize fetched /\
  filesCnt = len fetched /\
  index = Flags.chunkIndex flags /\
  0 <= index < chunksCnt /\
  exists chosen,
    incl chosen fetched /\
    In (EvSetFilePriority infoHash (map TorrentFile.Index chosen) 1)
      (trace (partialdownload client flags clientName infoHash)) /\
    chunkFilesCnt = len chosen /\
    size = totalSize chosen.
Proof.
  intros Hget Hne Hrep Hin.
  assert (Hperm := ordered_perm flags fetched).
  destruct (partialdownload_cases client flags clientName infoHash)
    as [(_ & E)|[(_ & _ & E)|[(_ & _ & err & _ & E)|
       [(_ & _ & _ & err & _ & E)|(Hs & Hi & Hc & fetched' & Hg & E)]]]];
    rewrite E in Hin |- *;
    try (cbn in Hin; repeat (destruct Hin as [Hin|Hin]; try discriminate);
         contradiction).
  rewrite Hget in Hg. injection Hg as <-.
  unfold afterFetch in Hin |- *.
  destruct (plan _ _ _ _) as [[cs path sz]|r] eqn:Ep.
  { cbn in Hin. repeat (destruct Hin as [Hin|Hin]; try discriminate).
    contradiction. }
  destruct (Flags.showAll flags).
  { unfold trace in Hin. cbn [fst app In] in Hin.
    repeat (destruct Hin as [Hin|Hin]; try discriminate).
    apply in_app_or in Hin as [Hin|Hin].
    - apply in_map_iff in Hin as (c & Hc' & _). discriminate.
    - destruct Hin as [Hin|[]]. discriminate. }
  destruct (Z.geb_spec (Flags.chunkIndex flags) (len (chunks r))) as [Hge|Hlt].
  { cbn in Hin. repeat (destruct Hin as [Hin|Hin]; try discriminate).
    contradiction. }
  destruct (SetFilePriority client infoHash (downloadFileIndexes r) 1).
  { cbn in Hin. repeat (destruct Hin as [Hin|Hin]; try discriminate).
    contradiction. }
  destruct (SetFilePriority client infoHash (noDownloadFileIndexes r) 0).
  { cbn in Hin. repeat (destruct Hin as [Hin|Hin]; try discriminate).
    contradiction. }
  unfold trace in Hin |- *. cbn [fst app In] in Hin |- *.
  repeat (destruct Hin as [Hin|Hin]; try discriminate); [|contradiction].
  injection Hin as <- <- <- <- <- <-.
  destruct (plan_selected_chunk (Flags.strict flags) (Flags.chunkSize flags)
              (Flags.chunkIndex flags) (ordered flags fetched) Hs
              (representable_perm _ _ (Permutation_sym Hperm) Hrep)
              (plan_inr_fits _ _ _ _ _ Ep) Hi)
    as (s & gs & g & I & Hg' & Hplan & Hchunks & Hcat & Hd & Hn).
  cbn zeta in Hd. rewrite Ep in Hplan. injection Hplan as ->.
  assert (Hlen : (Z.to_nat (Flags.chunkIndex flags)
                  < length (gs ++ [g]))%nat).
  { rewrite Hchunks in Hlt. unfold len in Hlt.
    rewrite chunksOf_length in Hlt. lia. }
  rewrite Hchunks, (chunksOf_nth _ 0 _ _ Hlen).
  cbn [appendLast allSize downloadFileIndexes Chunk.Size Chunk.FilesCnt].
  rewrite (inv_all _ _ _ _ _ _ _ I), (totalSize_perm _ _ Hperm).
  split; [reflexivity|]. split.
  { unfold len. now rewrite (Permutation_length Hperm). }
  split; [reflexivity|]. split.
  { rewrite <- Hchunks. lia. }
  exists (nth (Z.to_nat (Flags.chunkIndex flags)) (gs ++ [g]) []).
  split; [|split; [|split; reflexivity]].
  - intros x Hx. apply (Permutation_in _ Hperm). rewrite <- Hcat.
    apply in_concat. eexists. split; [apply (nth_In _ [] Hlen) | exact Hx].
  - right. right. left. now rewrite Hd.
Qed.

Lemma result_line_describes_download_witness :
  900 = totalSize threeFiles /\
  3 = len threeFiles /\
  0 = Flags.chunkIndex firstChunkFlags /\
  0 <= 0 < 2 /\
  exists chosen,
    incl chosen threeFiles /\
    In (EvSetFilePriority "e447d424" (map TorrentFile.Index chosen) 1)
      (trace (partialdownload (okClient threeFiles) firstChunkFlags
                "local" "e447d424")) /\
    2 = len chosen /\
    600 = totalSize chosen.
Proof.
  apply (result_line_describes_download (okClient threeFiles) firstChunkFlags
           "local" "e447d424" threeFiles 900 3 2 0 600 2).
  - reflexivity.
  - discriminate.
  - exact representable_threeFiles.
  - vm_compute. auto 10.
Defined.

(** X14. The chunk table of a report run adds up: the header shows the
    total size and the number of the fetched files, the chunk size and the
    number of rows; the rows are numbered 0, 1, 2, ... in order, their
    file counts add up to the number of files and their sizes to the
    total size. *)
Theorem report_table_adds_up (client : Client) (flags : Flags.t)
  (clientName infoHash : string) (fetched : list TorrentFile.t)
  (total filesCnt chunkSize chunksCnt : Z) :
  GetTorrentContents client infoHash = inr fetched ->
  fetched <> [] ->
  representable fetched ->
  In (EvPrintAllHeader total filesCnt chunkSize chunksCnt)
    (trace (partialdownload client flags clientName infoHash)) ->
  let rows :=
    rowsPrinted (trace (partialdownload client flags clientName infoHash)) in
  total = totalSize fetched /\
  filesCnt = len fetched /\
  chunkSize = Flags.chunkSize flags /\
  chunksCnt = len rows /\
  map Chunk.Index rows = map Z.of_nat (seq 0 (length rows)) /\
  sumZ (map Chunk.FilesCnt rows) = filesCnt /\
  sumZ (map Chunk.Size rows) = total.
Proof.
  intros Hget Hne Hrep Hin. cbv zeta.
  assert (Hperm := ordered_perm flags fetched).
  destruct (partialdownload_cases client flags clientName infoHash)
    as [(_ & E)|[(_ & _ & E)|[(_ & _ & err & _ & E)|
       [(_ & _ & _ & err & _ & E)|(Hs & Hi & Hc & fetched' & Hg & E)]]]];
    rewrite E in Hin |- *;
    try (cbn in Hin; repeat (destruct Hin as [Hin|Hin]; try discriminate);
         contradiction).
  rewrite Hget in Hg. injection Hg as <-.
  unfold afterFetch in Hin |- *.
  destruct (plan _ _ _ _) as [[cs path sz]|r] eqn:Ep.
  { cbn in Hin. repeat (destruct Hin as [Hin|Hin]; try discriminate).
    contradiction. }
  destruct (Flags.showAll flags).
  2:{ destruct (_ >=? _);
        [|destruct (SetFilePriority client infoHash (downloadFileIndexes r) 1);
          [|destruct (SetFilePriority client infoHash
                        (noDownloadFileIndexes r) 0)]];
        cbn in Hin; repeat (destruct Hin as [Hin|Hin]; try discriminate);
        contradiction. }
  unfold trace in Hin |- *. cbn [fst app In] in Hin |- *.
  destruct Hin as [Hin|[Hin|[Hin|[Hin|Hin]]]]; try discriminate.
  2:{ apply in_app_or in Hin as [Hin|[Hin|[]]]; [|discriminate].
      apply in_map_iff in Hin as (c & Hc' & _). discriminate. }
  injection Hin as <- <- <- <-.
  cbn [rowsPrinted]. rewrite rowsPrinted_table. cbn [rowsPrinted].
  rewrite app_nil_r.
  destruct (plan_groups (Flags.strict flags) (Flags.chunkSize flags)
              (Flags.chunkIndex flags) (ordered flags fetched) Hs
              (representable_perm _ _ (Permutation_sym Hperm) Hrep)
              (plan_inr_fits _ _ _ _ _ Ep))
    as (s & gs & g & I & Hg' & Hplan & Hchunks).
  rewrite Ep in Hplan. injection Hplan as ->.
  assert (Hcat : concat (gs ++ [g]) = ordered flags fetched).
  { rewrite concat_app. cbn [concat]. rewrite app_nil_r.
    symmetry. exact (inv_concat _ _ _ _ _ _ _ I). }
  rewrite Hchunks, map_Index_chunksOf, chunksOf_length,
    sum_FilesCnt_chunksOf, sum_Size_chunksOf, Hcat.
  cbn [appendLast allSize].
  rewrite (inv_all _ _ _ _ _ _ _ I), (totalSize_perm _ _ Hperm).
  assert (Hl : len (ordered flags fetched) = len fetched).
  { unfold len. now rewrite (Permutation_length Hperm). }
  rewrite Hl. repeat split; reflexivity.
Qed.

Lemma report_table_adds_up_witness :
  let rows :=
    rowsPrinted (trace (partialdownload (okClient threeFiles) reportFlags
                          "local" "e447d424")) in
  900 = totalSize threeFiles /\
  3 = len threeFiles /\
  500 = Flags.chunkSize reportFlags /\
  2 = len rows /\
  map Chunk.Index rows = map Z.of_nat (seq 0 (length rows)) /\
  sumZ (map Chunk.FilesCnt rows) = 3 /\
  sumZ (map Chunk.Size rows) = 900.
Proof.
  apply (report_table_adds_up (okClient threeFiles) reportFlags
           "local" "e447d424" threeFiles 900 3 500 2).
  - reflexivity.
  - discriminate.
  - exact representable_threeFiles.
  - vm_compute. auto 10.
Defined.

(** * Properties of [clientctl] *)

(** ** Splitting at "=" *)

Lemma split_nonempty (s : string) : Clientctl.split s <> [].
Proof.
  destruct s as [|c s]; cbn [Clientctl.split]; [discriminate|].
  destruct (Ascii.eqb c "="); [discriminate|].
  destruct (Clientctl.split s); discriminate.
Qed.

Lemma split_pieces_noEq (s : string) :
  Forall (fun piece => Clientctl.containsEq piece = false) (Clientctl.split s).
Proof.
  induction s as [|c s IH]; cbn [Clientctl.split].
  - repeat constructor.
  - destruct (Ascii.eqb c "=") eqn:E.
    + constructor; [reflexivity | assumption].
    + destruct (Clientctl.split s) as [|piece pieces].
      * repeat constructor. cbn [Clientctl.containsEq]. now rewrite E.
      * inversion IH as [|? ? Hp Hps]; subst. constructor; [|assumption].
        cbn [Clientctl.containsEq]. now rewrite E.
Qed.

Lemma split_noEq (s : string) :
  Clientctl.containsEq s = false -> Clientctl.split s = [s].
Proof.
  induction s as [|c s IH]; cbn [Clientctl.split Clientctl.containsEq].
  - reflexivity.
  - intros H. apply orb_false_iff in H as [Hc Hs]. rewrite Hc.
    now rewrite (IH Hs).
Qed.

Lemma split_hd_first (c : ascii) (s : string) :
  Ascii.eqb c "=" = false ->
  exists piece,
    hd EmptyString (Clientctl.split (String c s)) = String c piece.
Proof.
  intros H. cbn [Clientctl.split]. rewrite H.
  destruct (Clientctl.split s) as [|piece pieces]; eexists; reflexivity.
Qed.

Lemma string_of_uint_noEq (d : Decimal.uint) :
  Clientctl.containsEq (NilEmpty.string_of_uint d) = false.
Proof. induction d; cbn; auto. Qed.

Lemma Sprint_noEq (v : Z) : Clientctl.containsEq (Clientctl.Sprint v) = false.
Proof.
  unfold Clientctl.Sprint, NilZero.string_of_int, NilZero.string_of_uint.
  destruct (Z.to_int v) as [d|d]; destruct d; cbn;
    auto using string_of_uint_noEq.
Qed.

(** ** What one iteration adds *)

Lemma printOption_plain (RAMInBytes : string -> Z) (name value : string)
  (option : Clientctl.Option) (showRaw : bool) :
  Clientctl.isSetConfig
    (Clientctl.printOption RAMInBytes name value option showRaw) = false /\
  Clientctl.isLogError
    (Clientctl.printOption RAMInBytes name value option showRaw) = false.
Proof.
  unfold Clientctl.printOption.
  destruct (_ && _); [|now split].
  destruct (negb showRaw); [|now split].
  destruct (_ =? 1); now split.
Qed.

Lemma printed_plain (RAMInBytes : string -> Z) (flags : Clientctl.Flags.t)
  (name value : string) (option : Clientctl.Option) :
  Clientctl.isSetConfig
    (Clientctl.printed RAMInBytes flags name value option) = false /\
  Clientctl.isLogError
    (Clientctl.printed RAMInBytes flags name value option) = false.
Proof.
  unfold Clientctl.printed.
  destruct (Clientctl.Flags.showValuesOnly flags); [now split|].
  apply printOption_plain.
Qed.

Lemma not_SetConfig (e : Clientctl.Event) (name value : string) :
  Clientctl.isSetConfig e = false -> e <> Clientctl.EvSetConfig name value.
Proof. intros H ->. discriminate. Qed.

Lemma iteration_adds (RAMInBytes : string -> Z) (flags : Clientctl.Flags.t)
  (client : Clientctl.Client) (variable : string)
  (tr : list Clientctl.Event) (errorCnt : Z) :
  let next := Clientctl.iteration RAMInBytes flags client variable tr errorCnt in
  exists new,
    Clientctl.after next = tr ++ new /\
    (forall name value,
       In (Clientctl.EvSetConfig name value) new ->
       Clientctl.asksToSet client variable name value) /\
    match next with
    | Clientctl.Continue _ errorCnt' =>
        Clientctl.recognized client variable = true /\
        (filter Clientctl.isLogError new = [] /\ errorCnt' = errorCnt \/
         len (filter Clientctl.isLogError new) = 1 /\
         errorCnt' = Int64.incr errorCnt)
    | Clientctl.Return _ err =>
        new = [] /\
        err = Clientctl.ErrUnrecognized
                (hd EmptyString (Clientctl.split variable)) /\
        Clientctl.recognized client variable = false
    end.
Proof.
  cbv zeta.
  unfold Clientctl.iteration, Clientctl.recognized, Clientctl.asksToSet.
  destruct (Clientctl.clientSpecific client variable) eqn:Ecs.
  - set (shown := fun value =>
                    if Clientctl.Flags.showValuesOnly flags
                    then Clientctl.EvPrintValue value
                    else Clientctl.EvPrintNameValue
                           (hd EmptyString (Clientctl.split variable)) value).
    assert (Hshown : forall value,
               Clientctl.isSetConfig (shown value) = false /\
               Clientctl.isLogError (shown value) = false).
    { intros value. unfold shown.
      destruct (Clientctl.Flags.showValuesOnly flags); now split. }
    destruct (Nat.eqb_spec (length (Clientctl.split variable)) 1) as [E1|E1].
    + destruct (Clientctl.GetConfig client tr _) as [value [e|]];
        cbn [Clientctl.after]; rewrite <- app_assoc; eexists;
        (split; [reflexivity|]); cbn [app].
      * split; [|split; [reflexivity | right; now split]].
        intros name v [H|[H|[]]]; discriminate.
      * fold (shown value). destruct (Hshown value) as [H1 H2].
        split; [|split; [reflexivity | left; split; [|reflexivity]]].
        -- intros name v [H|[H|[]]]; [discriminate|].
           now apply (not_SetConfig _ _ _ H1) in H.
        -- cbn [filter Clientctl.isLogError]. now rewrite H2.
    + destruct (Clientctl.SetConfig client tr _ _) as [e|];
        cbn [Clientctl.after]; rewrite <- app_assoc; eexists;
        (split; [reflexivity|]); cbn [app].
      * split; [|split; [reflexivity | right; now split]].
        intros name v [H|[H|[]]]; [|discriminate].
        injection H as <- <-. auto.
      * fold (shown (nth 1 (Clientctl.split variable) EmptyString)).
        destruct (Hshown (nth 1 (Clientctl.split variable) EmptyString))
          as [H1 H2].
        split; [|split; [reflexivity | left; split; [|reflexivity]]].
        -- intros name v [H|[H|[]]]; [|now apply (not_SetConfig _ _ _ H1) in H].
           injection H as <- <-. auto.
        -- cbn [filter Clientctl.isLogError]. now rewrite H2.
  - cbn [orb].
    destruct (find _ Clientctl.allOptions) as [option|] eqn:Ef.
    2:{ exists []. cbn [Clientctl.after]. rewrite app_nil_r.
        split; [reflexivity|]. split; [intros ? ? []|]. auto. }
    assert (Hp : forall value,
               Clientctl.isSetConfig
                 (Clientctl.printed RAMInBytes flags
                    (hd EmptyString (Clientctl.split variable)) value option)
               = false /\
               Clientctl.isLogError
                 (Clientctl.printed RAMInBytes flags
                    (hd EmptyString (Clientctl.split variable)) value option)
               = false) by (intros; apply printed_plain).
    destruct (Nat.eqb_spec (length (Clientctl.split variable)) 1) as [E1|E1].
    + destruct (Clientctl.GetConfig client tr _) as [value [e|]];
        destruct (Hp value) as [H1 H2];
        cbn [Clientctl.after]; rewrite <- app_assoc; eexists;
        (split; [reflexivity|]); cbn [app].
      * split; [|split; [reflexivity | right; split; [|reflexivity]]].
        -- intros name v [H|[H|[H|[]]]]; try discriminate.
           now apply (not_SetConfig _ _ _ H1) in H.
        -- cbn [filter Clientctl.isLogError]. now rewrite H2.
      * split; [|split; [reflexivity | left; split; [|reflexivity]]].
        -- intros name v [H|[H|[]]]; try discriminate.
           now apply (not_SetConfig _ _ _ H1) in H.
        -- cbn [filter Clientctl.isLogError]. now rewrite H2.
    + destruct (Clientctl.Readonly option) eqn:Ero.
      { eexists. split; [reflexivity|].
        split; [|split; [reflexivity | right; now split]].
        intros name v [H|[]]. discriminate. }
      destruct (Clientctl.SetConfig client tr _ _) as [e|];
        cbn [Clientctl.after]; rewrite <- app_assoc; eexists;
        (split; [reflexivity|]); cbn [app].
      * destruct (Hp EmptyString) as [H1 H2].
        split; [|split; [reflexivity | right; split; [|reflexivity]]].
        -- intros name v [H|[H|[H|[]]]]; try discriminate;
             [|now apply (not_SetConfig _ _ _ H1) in H].
           injection H as <- <-. split; [reflexivity|]. split; [assumption|].
           split; [destruct (_ >? 0); eauto | eauto].
        -- cbn [filter Clientctl.isLogError]. now rewrite H2.
      * destruct (Hp (nth 1 (Clientctl.split variable) EmptyString))
          as [H1 H2].
        split; [|split; [reflexivity | left; split; [|reflexivity]]].
        -- intros name v [H|[H|[]]]; try discriminate;
             [|now apply (not_SetConfig _ _ _ H1) in H].
           injection H as <- <-. split; [reflexivity|]. split; [assumption|].
           split; [destruct (_ >? 0); eauto | eauto].
        -- cbn [filter Clientctl.isLogError]. now rewrite H2.
Qed.

(** ** The whole loop *)

Lemma In_after_Continue (RAMInBytes : string -> Z) (flags : Clientctl.Flags.t)
  (client : Clientctl.Client) (variable : string)
  (tr tr' : list Clientctl.Event) (n n' : Z) :
  Clientctl.iteration RAMInBytes flags client variable tr n
  = Clientctl.Continue tr' n' ->
  exists new,
    tr' = tr ++ new /\
    (forall name value,
       In (Clientctl.EvSetConfig name value) new ->
       Clientctl.asksToSet client variable name value) /\
    Clientctl.recognized client variable = true /\
    (filter Clientctl.isLogError new = [] /\ n' = n \/
     len (filter Clientctl.isLogError new) = 1 /\ n' = Int64.incr n).
Proof.
  intros E.
  destruct (iteration_adds RAMInBytes flags client variable tr n)
    as (new & Hafter & Hset & Hnext).
  rewrite E in Hafter, Hnext. cbn [Clientctl.after] in Hafter.
  exists new. destruct Hnext. auto.
Qed.

Lemma In_after_Return (RAMInBytes : string -> Z) (flags : Clientctl.Flags.t)
  (client : Clientctl.Client) (variable : string)
  (tr tr' : list Clientctl.Event) (n : Z) (err : Clientctl.Error) :
  Clientctl.iteration RAMInBytes flags client variable tr n
  = Clientctl.Return tr' err ->
  tr' = tr /\
  err = Clientctl.ErrUnrecognized (hd EmptyString (Clientctl.split variable)) /\
  Clientctl.recognized client variable = false.
Proof.
  intros E.
  destruct (iteration_adds RAMInBytes flags client variable tr n)
    as (new & Hafter & Hset & Hnext).
  rewrite E in Hafter, Hnext. cbn [Clientctl.after] in Hafter.
  destruct Hnext as (-> & Herr & Hrec). rewrite app_nil_r in Hafter. auto.
Qed.

Lemma loop_SetConfig (RAMInBytes : string -> Z) (flags : Clientctl.Flags.t)
  (client : Clientctl.Client) (args : list string)
  (tr : list Clientctl.Event) (n : Z) (name value : string) :
  In (Clientctl.EvSetConfig name value)
    (fst (Clientctl.loop RAMInBytes flags client args tr n)) ->
  In (Clientctl.EvSetConfig name value) tr \/
  exists variable,
    In variable args /\ Clientctl.asksToSet client variable name value.
Proof.
  revert tr n. induction args as [|variable rest IH]; intros tr n;
    cbn [Clientctl.loop].
  - cbn [fst]. auto.
  - destruct (Clientctl.iteration RAMInBytes flags client variable tr n)
      as [tr' n'|tr' err] eqn:E.
    + apply In_after_Continue in E as (new & -> & Hset & _).
      intros H. apply IH in H as [H|(v & Hv & Ha)].
      * apply in_app_or in H as [H|H]; [now left | right].
        exists variable. split; [now left | auto].
      * right. exists v. split; [now right | assumption].
    + apply In_after_Return in E as (-> & _). cbn [fst]. auto.
Qed.

Lemma loop_errors (RAMInBytes : string -> Z) (flags : Clientctl.Flags.t)
  (client : Clientctl.Client) (args : list string)
  (tr : list Clientctl.Event) (n : Z) :
  n = len (filter Clientctl.isLogError tr) ->
  n + len args <= Int64.max_int64 ->
  match Clientctl.loop RAMInBytes flags client args tr n with
  | (tr', None) => filter Clientctl.isLogError tr' = []
  | (tr', Some (Clientctl.ErrErrors k)) =>
      k = len (filter Clientctl.isLogError tr') /\ 0 < k
  | (_, Some (Clientctl.ErrUnrecognized _)) => True
  | (_, Some _) => False
  end.
Proof.
  revert tr n. induction args as [|variable rest IH]; intros tr n Hn Hmax;
    cbn [Clientctl.loop].
  - destruct (Z.gtb_spec n 0) as [H|H]; [split; [assumption | lia]|].
    pose proof (len_nonneg (filter Clientctl.isLogError tr)).
    apply length_zero_iff_nil. unfold len in *. lia.
  - rewrite len_cons in Hmax. pose proof (len_nonneg rest).
    pose proof (len_nonneg (filter Clientctl.isLogError tr)).
    destruct (Clientctl.iteration RAMInBytes flags client variable tr n)
      as [tr' n'|tr' err] eqn:E.
    + apply In_after_Continue in E as (new & -> & _ & _ & Hcnt).
      apply IH.
      * rewrite filter_app, len_app.
        destruct Hcnt as [(-> & ->)|(-> & ->)]; [cbn; lia|].
        unfold Int64.incr. rewrite add_id; [lia|].
        pose proof min_int64_neg. lia.
      * destruct Hcnt as [(_ & ->)|(_ & ->)]; [lia|].
        unfold Int64.incr. rewrite add_id; [lia|].
        pose proof min_int64_neg. lia.
    + apply In_after_Return in E as (_ & -> & _). exact I.
Qed.


(** A [SetConfig] call of the command comes from one of the variables
    given after the client name. *)
Lemma clientctl_SetConfig (RAMInBytes : string -> Z)
  (CreateClient : string -> string + Clientctl.Client)
  (flags : Clientctl.Flags.t) (args : list string) (name value : string) :
  In (Clientctl.EvSetConfig name value)
    (fst (Clientctl.clientctl RAMInBytes CreateClient flags args)) ->
  exists clientName rest client variable,
    args = clientName :: rest /\
    CreateClient clientName = inr client /\
    In variable rest /\
    Clientctl.asksToSet client variable name value.
Proof.
  unfold Clientctl.clientctl.
  destruct (Clientctl.Flags.showParameters flags).
  { cbn [fst]. unfold Clientctl.parametersTable.
    intros [H|H]; [discriminate|].
    apply in_map_iff in H as (o & H & _). discriminate. }
  destruct args as [|clientName rest]; [intros []|].
  destruct (_ && _); [intros []|].
  destruct (CreateClient clientName) as [err|client] eqn:Ec.
  { intros [H|[]]. discriminate. }
  intros H. apply loop_SetConfig in H as [[H|[]]|(v & Hv & Ha)];
    [discriminate|].
  exists clientName, rest, client, v. split; [reflexivity|].
  split; [exact Ec|]. split; [|assumption].
  destruct rest as [|r rest]; [|assumption].
  exfalso. destruct Ha as (_ & Hlen & _).
  cbn in Hv. destruct Hv as [<-|[<-|[]]]; apply Hlen; reflexivity.
Qed.

Lemma clientSpecific_first (client : Clientctl.Client) (variable : string) :
  Clientctl.clientSpecific client variable = true ->
  exists c rest,
    variable = String c rest /\ (c = "q"%char \/ c = "t"%char).
Proof.
  unfold Clientctl.clientSpecific. intros H.
  apply andb_true_iff in H as [H _].
  destruct variable as [|c rest].
  { cbn in H. rewrite !andb_false_r in H. discriminate. }
  exists c, rest. split; [reflexivity|].
  apply orb_true_iff in H as [H|H]; apply andb_true_iff in H as [_ H];
    cbn [prefix] in H.
  - destruct (ascii_dec "q" c); [now left | discriminate].
  - destruct (ascii_dec "t" c); [now right | discriminate].
Qed.

(** ** What the command never does, and what it reports *)

(** X15. The command never writes a read-only option: no [SetConfig] call
    is made with the name of a table entry marked read-only, whatever the
    client, the flags and the arguments. *)
Theorem clientctl_readonly_never_set (RAMInBytes : string -> Z)
  (CreateClient : string -> string + Clientctl.Client)
  (flags : Clientctl.Flags.t) (args : list string) (name value : string)
  (option : Clientctl.Option) :
  In (Clientctl.EvSetConfig name value)
    (fst (Clientctl.clientctl RAMInBytes CreateClient flags args)) ->
  In option Clientctl.allOptions ->
  Clientctl.Readonly option = true ->
  Clientctl.Name option <> name.
Proof.
  intros H Hin Hro.
  apply clientctl_SetConfig in H
    as (clientName & rest & client & variable & _ & _ & _ & Ha).
  destruct Ha as (Hname & _ & _ & [Hcs|(o & Hfind & Ho)]).
  - apply clientSpecific_first in Hcs as (c & tl & -> & Hc).
    destruct (split_hd_first c tl) as [piece Hp].
    { destruct Hc as [->| ->]; reflexivity. }
    rewrite Hp in Hname. subst name.
    unfold Clientctl.allOptions in Hin. cbn [In] in Hin.
    repeat (destruct Hin as [<-|Hin]; [cbn in Hro |- *; try discriminate Hro|]);
      try contradiction;
      intros [= E _]; destruct Hc as [->| ->]; discriminate E.
  - intros E. rewrite <- E in Hfind.
    unfold Clientctl.allOptions in Hin. cbn [In] in Hin.
    repeat (destruct Hin as [<-|Hin]; [cbn in Hro; try discriminate Hro|]);
      try contradiction;
      cbn in Hfind; injection Hfind as <-; discriminate Ho.
Qed.

Lemma clientctl_readonly_never_set_witness :
  Clientctl.Name
    (Clientctl.mkOption "free_disk_space" 2 true false
       "Current free disk space of default save path")
  <> "save_path"%string.
Proof.
  apply (clientctl_readonly_never_set Clientctl.tenMiB Clientctl.createQuiet
           Clientctl.plainFlags
           ["local"; "free_disk_space=1"; "save_path=/downloads"]%string
           "save_path" "/downloads").
  - vm_compute. auto.
  - vm_compute. auto 10.
  - reflexivity.
Defined.

(** X16. Reading does not write: when no variable holds a "=", and in
    particular when only the client name is given and the automatic
    options are shown, the command makes no [SetConfig] call. *)
Theorem clientctl_reads_never_set (RAMInBytes : string -> Z)
  (CreateClient : string -> string + Clientctl.Client)
  (flags : Clientctl.Flags.t) (args : list string) :
  (forall variable,
     In variable (tl args) -> Clientctl.containsEq variable = false) ->
  forall name value,
    ~ In (Clientctl.EvSetConfig name value)
        (fst (Clientctl.clientctl RAMInBytes CreateClient flags args)).
Proof.
  intros Hno name value H.
  apply clientctl_SetConfig in H
    as (clientName & rest & client & variable & -> & _ & Hv & Ha).
  destruct Ha as (_ & Hlen & _). apply Hlen.
  now rewrite (split_noEq variable (Hno variable Hv)).
Qed.

Lemma clientctl_reads_never_set_witness :
  ~ In (Clientctl.EvSetConfig "save_path" "/downloads")
      (fst (Clientctl.clientctl Clientctl.tenMiB Clientctl.createQuiet
              Clientctl.plainFlags ["local"; "save_path"]%string)).
Proof.
  apply (clientctl_reads_never_set Clientctl.tenMiB Clientctl.createQuiet
           Clientctl.plainFlags ["local"; "save_path"]%string).
  intros variable [<-|[]]. reflexivity.
Defined.

(** X17. The name and the value of a [SetConfig] call never hold a "=":
    the variable is cut at every "=", the name is the first part and the
    value the second, so whatever follows a second "=" is dropped. *)
Theorem clientctl_set_without_eq (RAMInBytes : string -> Z)
  (CreateClient : string -> string + Clientctl.Client)
  (flags : Clientctl.Flags.t) (args : list string) (name value : string) :
  In (Clientctl.EvSetConfig name value)
    (fst (Clientctl.clientctl RAMInBytes CreateClient flags args)) ->
  Clientctl.containsEq name = false /\ Clientctl.containsEq value = false.
Proof.
  intros H.
  apply clientctl_SetConfig in H
    as (clientName & rest & client & variable & _ & _ & _ & Ha).
  destruct Ha as (Hname & Hlen & Hvalue & _).
  pose proof (split_pieces_noEq variable) as Hall.
  pose proof (split_nonempty variable) as Hne.
  rewrite Forall_forall in Hall. split.
  - apply Hall. rewrite Hname.
    destruct (Clientctl.split variable); [congruence | now left].
  - destruct Hvalue as [->|(v & ->)]; [|apply Sprint_noEq].
    apply Hall, nth_In.
    destruct (Clientctl.split variable) as [|a [|b l]]; cbn [length] in *;
      [congruence | congruence | lia].
Qed.

Lemma clientctl_set_without_eq_witness :
  Clientctl.containsEq "save_path" = false /\
  Clientctl.containsEq "/a" = false.
Proof.
  apply (clientctl_set_without_eq Clientctl.tenMiB Clientctl.createQuiet
           Clientctl.plainFlags ["local"; "save_path=/a=b"]%string).
  vm_compute. auto.
Defined.

(** X18. Every error of the loop is both logged and counted: when the
    command returns [nil] no error was logged, and when it returns
    "n errors" then [n] is positive and is the number of errors logged.
    The only other errors it returns from the loop are the
    unrecognized-parameter error and those raised before the loop. *)
Theorem clientctl_errors_counted (RAMInBytes : string -> Z)
  (CreateClient : string -> string + Clientctl.Client)
  (flags : Clientctl.Flags.t) (args : list string) :
  len args <= Int64.max_int64 ->
  match Clientctl.clientctl RAMInBytes CreateClient flags args with
  | (tr, None) => filter Clientctl.isLogError tr = []
  | (tr, Some (Clientctl.ErrErrors n)) =>
      n = len (filter Clientctl.isLogError tr) /\ 0 < n
  | (tr, Some _) => True
  end.
Proof.
  intros Hlen. unfold Clientctl.clientctl.
  destruct (Clientctl.Flags.showParameters flags); [reflexivity|].
  destruct args as [|clientName rest]; [exact I|].
  destruct (_ && _); [exact I|].
  destruct (CreateClient clientName) as [err|client]; [exact I|].
  rewrite len_cons in Hlen.
  pose proof (loop_errors RAMInBytes flags client
                match rest with
                | [] => map Clientctl.Name
                          (filter Clientctl.Auto Clientctl.allOptions)
                | _ :: _ => rest
                end
                [Clientctl.EvCreateClient clientName] 0 eq_refl) as H.
  destruct (Clientctl.loop _ _ _ _ _ _) as [tr [[| | | |n]|]];
    try exact I; apply H;
    (destruct rest; [vm_compute; discriminate | lia]).
Qed.

Lemma clientctl_errors_counted_witness :
  match Clientctl.clientctl Clientctl.tenMiB Clientctl.createQuiet
          Clientctl.plainFlags
          ["local"; "free_disk_space=1"; "save_path"]%string with
  | (tr, None) => filter Clientctl.isLogError tr = []
  | (tr, Some (Clientctl.ErrErrors n)) =>
      n = len (filter Clientctl.isLogError tr) /\ 0 < n
  | (tr, Some _) => True
  end.
Proof.
  apply (clientctl_errors_counted Clientctl.tenMiB Clientctl.createQuiet
           Clientctl.plainFlags
           ["local"; "free_disk_space=1"; "save_path"]%string).
  vm_compute. discriminate.
Defined.



(** * Properties of the cookiecloud [status] *)

Lemma tested_app (tr1 tr2 : list CookiecloudStatus.Event) :
  CookiecloudStatus.tested (tr1 ++ tr2)
  = CookiecloudStatus.tested tr1 ++ CookiecloudStatus.tested tr2.
Proof.
  induction tr1 as [|e tr1 IH]; cbn [app CookiecloudStatus.tested];
    [reflexivity|].
  destruct e; cbn [app]; now rewrite IH.
Qed.

Lemma status_loop (ParseUrlHostname : string -> string)
  (GetCookiecloudData :
     list CookiecloudStatus.Event -> CookiecloudStatus.Profile -> string + Z)
  (profiles : list CookiecloudStatus.Profile)
  (tr : list CookiecloudStatus.Event) (n : Z) :
  n = len (filter CookiecloudStatus.isFailed tr) ->
  n + len profiles <= Int64.max_int64 ->
  let result :=
    CookiecloudStatus.loop ParseUrlHostname GetCookiecloudData profiles tr n in
  CookiecloudStatus.tested (fst result)
  = CookiecloudStatus.tested tr ++ profiles /\
  len (filter CookiecloudStatus.isFailed (fst result))
  + len (filter CookiecloudStatus.isOk (fst result))
  = len (filter CookiecloudStatus.isFailed tr)
    + len (filter CookiecloudStatus.isOk tr) + len profiles /\
  snd result =
  (if len (filter CookiecloudStatus.isFailed (fst result)) >? 0
   then Some (CookiecloudStatus.ErrErrors
                (len (filter CookiecloudStatus.isFailed (fst result))))
   else None).
Proof.
  revert tr n. induction profiles as [|[server uuid password proxy timeout] rest IH];
    intros tr n Hn Hmax; cbv zeta; cbn [CookiecloudStatus.loop fst snd].
  - rewrite app_nil_r, len_nil, Z.add_0_r, <- Hn. auto.
  - rewrite len_cons in Hmax. pose proof (len_nonneg rest).
    pose proof (len_nonneg (filter CookiecloudStatus.isFailed tr)).
    cbn [CookiecloudStatus.Server CookiecloudStatus.Uuid
           CookiecloudStatus.Password CookiecloudStatus.Proxy
           CookiecloudStatus.Timeoout].
    destruct (GetCookiecloudData tr _) as [err|domains].
    + destruct (IH (tr ++ [CookiecloudStatus.EvGetCookiecloudData server uuid
                             password proxy timeout;
                           CookiecloudStatus.EvPrintFailed
                             (ParseUrlHostname server) uuid err])
                  (Int64.incr n)) as (H1 & H2 & H3).
      * rewrite filter_app, len_app. cbn [filter CookiecloudStatus.isFailed].
        unfold Int64.incr. rewrite add_id; [rewrite len_single; lia|].
        pose proof min_int64_neg. lia.
      * unfold Int64.incr. rewrite add_id; [lia|].
        pose proof min_int64_neg. lia.
      * cbv zeta in H1, H2, H3. rewrite H1, H2, H3.
        rewrite tested_app, !filter_app, !len_app.
        cbn [CookiecloudStatus.tested filter CookiecloudStatus.isFailed
               CookiecloudStatus.isOk app].
        rewrite <- app_assoc, len_single, len_nil, len_cons.
        split; [reflexivity|]. split; [lia | reflexivity].
    + destruct (IH (tr ++ [CookiecloudStatus.EvGetCookiecloudData server uuid
                             password proxy timeout;
                           CookiecloudStatus.EvPrintOk
                             (ParseUrlHostname server) uuid domains]) n)
        as (H1 & H2 & H3).
      * rewrite filter_app, len_app. cbn [filter CookiecloudStatus.isFailed].
        rewrite len_nil. lia.
      * lia.
      * cbv zeta in H1, H2, H3. rewrite H1, H2, H3.
        rewrite tested_app, !filter_app, !len_app.
        cbn [CookiecloudStatus.tested filter CookiecloudStatus.isFailed
               CookiecloudStatus.isOk app].
        rewrite <- app_assoc, len_single, len_nil, len_cons.
        split; [reflexivity|]. split; [lia | reflexivity].
Qed.

(** X20. [status] tests every profile once, in order, and goes on after a
    failure: the [GetCookiecloudData] calls are exactly the profiles, and
    each call is followed by one line, a failure line or a success line.
    It returns [nil] exactly when there is at least one profile and no
    failure line; otherwise it returns the no-profile error, without any
    call, or "n errors" where [n] is the number of failure lines. *)
Theorem status_tests_every_profile (ParseUrlHostname : string -> string)
  (GetCookiecloudData :
     list CookiecloudStatus.Event -> CookiecloudStatus.Profile -> string + Z)
  (profiles : list CookiecloudStatus.Profile) :
  len profiles <= Int64.max_int64 ->
  let result :=
    CookiecloudStatus.status ParseUrlHostname GetCookiecloudData profiles in
  let failed := len (filter CookiecloudStatus.isFailed (fst result)) in
  CookiecloudStatus.tested (fst result) = profiles /\
  failed + len (filter CookiecloudStatus.isOk (fst result)) = len profiles /\
  snd result =
  match profiles with
  | [] => Some CookiecloudStatus.ErrNoProfile
  | _ => if failed >? 0 then Some (CookiecloudStatus.ErrErrors failed)
         else None
  end.
Proof.
  intros Hlen. cbv zeta. unfold CookiecloudStatus.status.
  destruct profiles as [|p rest]; [now split|].
  destruct (status_loop ParseUrlHostname GetCookiecloudData (p :: rest) [] 0
              eq_refl Hlen) as (H1 & H2 & H3).
  cbv zeta in H1, H2, H3. cbn [CookiecloudStatus.tested filter app] in H1, H2.
  change (len (@nil CookiecloudStatus.Event)
          + len (@nil CookiecloudStatus.Event) + len (p :: rest))
    with (len (p :: rest)) in H2.
  auto.
Qed.

Lemma status_tests_every_profile_witness :
  let result :=
    CookiecloudStatus.status (fun server => server)
      CookiecloudStatus.secondDown CookiecloudStatus.twoProfiles in
  let failed := len (filter CookiecloudStatus.isFailed (fst result)) in
  CookiecloudStatus.tested (fst result) = CookiecloudStatus.twoProfiles /\
  failed + len (filter CookiecloudStatus.isOk (fst result))
  = len CookiecloudStatus.twoProfiles /\
  snd result = Some (CookiecloudStatus.ErrErrors 1).
Proof.
  apply (status_tests_every_profile (fun server => server)
           CookiecloudStatus.secondDown CookiecloudStatus.twoProfiles).
  vm_compute. discriminate.
Defined.

(** * Properties of [findalone] *)

(** ** Counting the torrents *)

Lemma countTorrents_counts (ToSlash : string -> string)
  (mapper : option (string -> string * bool))
  (torrents : list Findalone.Torrent) (m : string -> Z)
  (tr : list Findalone.Event) (p : string) :
  (forall q, 0 <= m q) ->
  (forall q, m q + len torrents <= Int64.max_int64) ->
  fst (Findalone.countTorrents ToSlash mapper torrents m tr) p =
  m p + len (filter (Findalone.belongsTo ToSlash mapper p) torrents).
Proof.
  revert m tr. induction torrents as [|torrent rest IH]; intros m tr H0 Hmax;
    cbn [Findalone.countTorrents filter fst].
  - rewrite len_nil. lia.
  - assert (Hrest : forall q, m q + len rest <= Int64.max_int64).
    { intros q. specialize (Hmax q). rewrite len_cons in Hmax.
      pose proof (len_nonneg rest). lia. }
    assert (Hinc : forall key,
               (forall q, 0 <= Findalone.increment m key q) /\
               (forall q,
                  Findalone.increment m key q + len rest <= Int64.max_int64) /\
               Findalone.increment m key p
               = m p + (if (p =? key)%string then 1 else 0)).
    { intros key. unfold Findalone.increment.
      assert (Hi : forall q, Int64.incr (m q) = m q + 1).
      { intros q. unfold Int64.incr. apply add_id.
        specialize (Hmax q). specialize (H0 q). rewrite len_cons in Hmax.
        pose proof (len_nonneg rest). pose proof min_int64_neg. lia. }
      split; [|split].
      - intros q. destruct (q =? key)%string; [rewrite Hi|];
          specialize (H0 q); lia.
      - intros q. destruct (q =? key)%string; [rewrite Hi|];
          specialize (Hmax q); rewrite len_cons in Hmax;
          pose proof (len_nonneg rest); lia.
      - destruct (p =? key)%string; [apply Hi | lia]. }
    unfold Findalone.belongsTo at 1, Findalone.countedPath.
    destruct mapper as [after2Before|].
    + destruct (snd (after2Before _)) eqn:Ematch; cbn [negb].
      * destruct (Hinc (fst (after2Before
                               (ToSlash (Findalone.ContentPath torrent)))))
          as (Ha & Hb & Hc).
        rewrite IH by assumption. rewrite Hc.
        destruct (p =? _)%string; [rewrite len_cons|]; lia.
      * now rewrite IH.
    + destruct (Hinc (ToSlash (Findalone.ContentPath torrent)))
        as (Ha & Hb & Hc).
      rewrite IH by assumption. rewrite Hc.
      destruct (p =? _)%string; [rewrite len_cons|]; lia.
Qed.

Lemma alones_app (tr1 tr2 : list Findalone.Event) :
  Findalone.alones (tr1 ++ tr2) = Findalone.alones tr1 ++ Findalone.alones tr2.
Proof.
  induction tr1 as [|e tr1 IH]; cbn [app Findalone.alones]; [reflexivity|].
  destruct e; cbn [app]; now rewrite IH.
Qed.

Lemma readDirs_app (tr1 tr2 : list Findalone.Event) :
  Findalone.readDirs (tr1 ++ tr2)
  = Findalone.readDirs tr1 ++ Findalone.readDirs tr2.
Proof.
  induction tr1 as [|e tr1 IH]; cbn [app Findalone.readDirs]; [reflexivity|].
  destruct e; cbn [app]; now rewrite IH.
Qed.

Lemma listed_app (tr1 tr2 : list Findalone.Event) :
  Findalone.listed (tr1 ++ tr2) = Findalone.listed tr1 ++ Findalone.listed tr2.
Proof.
  induction tr1 as [|e tr1 IH]; cbn [app Findalone.listed]; [reflexivity|].
  destruct e; cbn [app]; now rewrite IH.
Qed.

Lemma countTorrents_trace (ToSlash : string -> string)
  (mapper : option (string -> string * bool))
  (torrents : list Findalone.Torrent) (m : string -> Z)
  (tr : list Findalone.Event) :
  let tr' := snd (Findalone.countTorrents ToSlash mapper torrents m tr) in
  Findalone.alones tr' = Findalone.alones tr /\
  Findalone.readDirs tr' = Findalone.readDirs tr /\
  Findalone.listed tr' = Findalone.listed tr /\
  filter Findalone.isReadDirFailed tr' = filter Findalone.isReadDirFailed tr.
Proof.
  revert m tr. induction torrents as [|torrent rest IH]; intros m tr;
    cbv zeta; cbn [Findalone.countTorrents snd]; [auto|].
  destruct mapper as [after2Before|]; [|apply IH].
  destruct (negb _); [|apply IH].
  destruct (IH m (tr ++ [Findalone.EvDebugNoRule (Findalone.Name torrent)
                           (Findalone.InfoHash torrent)
                           (ToSlash (Findalone.ContentPath torrent))]))
    as (H1 & H2 & H3 & H4).
  cbv zeta in H1, H2, H3, H4. rewrite H1, H2, H3, H4.
  rewrite alones_app, readDirs_app, listed_app, filter_app.
  cbn. now rewrite !app_nil_r.
Qed.

(** ** The two loops over the save paths *)

Section FindaloneLoops.

Variable Join : string -> string -> string.
Variable hostClean : string -> string.
Variable ignored : string -> bool.
Variable ReadDir : string -> string + list string.
Variable flags : Findalone.Flags.t.
Variable savePathes : list string.
Variable counts : string -> Z.

Local Abbreviation scanEntries' :=
  (Findalone.scanEntries Join hostClean ignored flags savePathes counts).
Local Abbreviation scanSavePaths' :=
  (Findalone.scanSavePaths Join hostClean ignored ReadDir flags savePathes
     counts).
Local Abbreviation filesOf' :=
  (Findalone.filesOf Join hostClean ignored savePathes counts).
Local Abbreviation alonesOf' :=
  (Findalone.alonesOf Join hostClean ignored savePathes counts).

Lemma scanEntries_spec (savePath : string) (entries : list string)
  (files : list Findalone.File) (tr : list Findalone.Event) :
  let r := scanEntries' savePath entries files tr in
  fst r =
    files ++ (if Findalone.Flags.showAll flags
              then filesOf' savePath entries else []) /\
  Findalone.alones (snd r) =
    Findalone.alones tr
    ++ (if Findalone.Flags.showAll flags
        then [] else alonesOf' savePath entries) /\
  Findalone.readDirs (snd r) = Findalone.readDirs tr /\
  Findalone.listed (snd r) = Findalone.listed tr /\
  filter Findalone.isReadDirFailed (snd r)
  = filter Findalone.isReadDirFailed tr.
Proof.
  cbv zeta. revert files tr.
  unfold Findalone.filesOf, Findalone.alonesOf, Findalone.keep.
  induction entries as [|name rest IH]; intros files tr;
    cbn [Findalone.scanEntries filter map fst snd].
  - destruct (Findalone.Flags.showAll flags); now rewrite !app_nil_r.
  - destruct (ignored name); cbn [negb andb].
    { destruct (IH files (tr ++ [Findalone.EvDebugIgnored name]))
        as (H1 & H2 & H3 & H4 & H5).
      rewrite H1, H2, H3, H4, H5.
      rewrite alones_app, readDirs_app, listed_app, filter_app. cbn.
      now rewrite !app_nil_r. }
    destruct (existsb _ savePathes); cbn [negb andb]; [apply IH|].
    destruct (Findalone.Flags.showAll flags) eqn:Eall.
    { destruct (IH (files ++ [Findalone.mkFile (hostClean (Join savePath name))
                                (counts (Join savePath name))]) tr)
        as (H1 & H2 & H3 & H4 & H5).
      rewrite H1, H2, H3, H4, H5. cbn [map]. rewrite <- app_assoc. auto. }
    destruct (counts (Join savePath name) =? 0); [|apply IH].
    destruct (IH files (tr ++ [Findalone.EvPrintAlone
                                 (hostClean (Join savePath name))]))
      as (H1 & H2 & H3 & H4 & H5).
    rewrite H1, H2, H3, H4, H5.
    rewrite alones_app, readDirs_app, listed_app, filter_app. cbn.
    rewrite <- app_assoc, !app_nil_r. auto.
Qed.

Lemma scanSavePaths_spec (todo : list string) (files : list Findalone.File)
  (errorCnt : Z) (tr : list Findalone.Event) :
  0 <= errorCnt ->
  errorCnt + len todo <= Int64.max_int64 ->
  let r := scanSavePaths' todo files errorCnt tr in
  fst (fst r) =
    files
    ++ (if Findalone.Flags.showAll flags
        then flat_map
               (fun savePath =>
                  filesOf' savePath (Findalone.entriesOf ReadDir savePath))
               todo
        else []) /\
  Findalone.alones (snd r) =
    Findalone.alones tr
    ++ (if Findalone.Flags.showAll flags then []
        else flat_map
               (fun savePath =>
                  alonesOf' savePath (Findalone.entriesOf ReadDir savePath))
               todo) /\
  Findalone.readDirs (snd r) = Findalone.readDirs tr ++ todo /\
  Findalone.listed (snd r) = Findalone.listed tr /\
  snd (fst r) = errorCnt + len (filter (Findalone.unreadable ReadDir) todo) /\
  len (filter Findalone.isReadDirFailed (snd r)) =
    len (filter Findalone.isReadDirFailed tr)
    + len (filter (Findalone.unreadable ReadDir) todo).
Proof.
  cbv zeta. revert files errorCnt tr.
  induction todo as [|savePath rest IH]; intros files errorCnt tr H0 Hmax;
    cbn [Findalone.scanSavePaths flat_map filter fst snd].
  - rewrite len_nil, !Z.add_0_r.
    destruct (Findalone.Flags.showAll flags); now rewrite !app_nil_r.
  - rewrite len_cons in Hmax. pose proof (len_nonneg rest).
    assert (Hu : Findalone.unreadable ReadDir savePath
                 = match ReadDir savePath with
                   | inl _ => true
                   | inr _ => false
                   end) by reflexivity.
    assert (He : Findalone.entriesOf ReadDir savePath
                 = match ReadDir savePath with
                   | inl _ => []
                   | inr entries => entries
                   end) by reflexivity.
    rewrite Hu, He. clear Hu He.
    destruct (ReadDir savePath) as [err|entries].
    + destruct (IH files (Int64.incr errorCnt)
                  (tr ++ [Findalone.EvReadDir savePath;
                          Findalone.EvLogReadDirFailed savePath err]))
        as (H1 & H2 & H3 & H4 & H5 & H6).
      * unfold Int64.incr. rewrite add_id; [lia|].
        pose proof min_int64_neg. lia.
      * unfold Int64.incr. rewrite add_id; [lia|].
        pose proof min_int64_neg. lia.
      * rewrite H1, H2, H3, H4, H5, H6.
        rewrite alones_app, readDirs_app, listed_app, filter_app, len_app.
        unfold Findalone.filesOf, Findalone.alonesOf.
        cbn [filter map app Findalone.alones Findalone.readDirs
               Findalone.listed Findalone.isReadDirFailed].
        rewrite !app_nil_r, <- app_assoc, len_cons, len_single.
        unfold Int64.incr. rewrite add_id;
          [|pose proof min_int64_neg; lia].
        repeat split; try reflexivity; lia.
    + destruct (scanEntries_spec savePath entries files
                  (tr ++ [Findalone.EvReadDir savePath]))
        as (E1 & E2 & E3 & E4 & E5).
      cbv zeta in E1, E2, E3, E4, E5.
      destruct (IH (fst (scanEntries' savePath entries files
                           (tr ++ [Findalone.EvReadDir savePath])))
                  errorCnt
                  (snd (scanEntries' savePath entries files
                          (tr ++ [Findalone.EvReadDir savePath])))
                  H0 ltac:(lia))
        as (H1 & H2 & H3 & H4 & H5 & H6).
      rewrite H1, H2, H3, H4, H5, H6, E1, E2, E3, E4, E5.
      rewrite alones_app, readDirs_app, listed_app, filter_app.
      cbn [app Findalone.alones Findalone.readDirs Findalone.listed filter
             Findalone.isReadDirFailed].
      rewrite !app_nil_r, <- !app_assoc.
      destruct (Findalone.Flags.showAll flags); cbn [app];
        rewrite ?app_nil_r; repeat split; reflexivity.
Qed.

End FindaloneLoops.

(** ** The stable sort by count *)

Lemma byCountDesc_sign (x y : Findalone.File) :
  0 <= Findalone.Count x <= Int64.max_int64 ->
  0 <= Findalone.Count y <= Int64.max_int64 ->
  (Findalone.byCountDesc y x <? 0) = (Findalone.Count x <? Findalone.Count y).
Proof.
  intros Hx Hy. unfold Findalone.byCountDesc.
  rewrite wrap_id.
  - destruct (Z.ltb_spec (Findalone.Count x - Findalone.Count y) 0);
      destruct (Z.ltb_spec (Findalone.Count x) (Findalone.Count y));
      try reflexivity; lia.
  - unfold Int64.in_range. pose proof min_int64_neg.
    unfold Int64.min_int64, Int64.max_int64 in *. lia.
Qed.

Lemma insertStable_perm (x : Findalone.File) (l : list Findalone.File) :
  Permutation (Findalone.insertStable x l) (x :: l).
Proof.
  induction l as [|y l IH]; cbn [Findalone.insertStable]; [reflexivity|].
  destruct (_ <? 0); [|reflexivity].
  rewrite IH. apply perm_swap.
Qed.

Lemma sortStable_perm (l : list Findalone.File) :
  Permutation (Findalone.sortStable l) l.
Proof.
  unfold Findalone.sortStable.
  induction l as [|x l IH]; cbn [fold_right]; [reflexivity|].
  rewrite insertStable_perm. now constructor.
Qed.

Lemma insertStable_sorted (x : Findalone.File) (l : list Findalone.File) :
  0 <= Findalone.Count x <= Int64.max_int64 ->
  Forall (fun f => 0 <= Findalone.Count f <= Int64.max_int64) l ->
  Sorted (fun a b => Findalone.Count b <= Findalone.Count a) l ->
  Sorted (fun a b => Findalone.Count b <= Findalone.Count a)
    (Findalone.insertStable x l).
Proof.
  intros Hx Hl Hs. induction Hs as [|y l Hs IH Hhd];
    cbn [Findalone.insertStable].
  - repeat constructor.
  - inversion Hl as [|? ? Hy Hl']; subst.
    rewrite (byCountDesc_sign x y Hx Hy).
    destruct (Z.ltb_spec (Findalone.Count x) (Findalone.Count y)).
    + constructor; [now apply IH|].
      destruct l as [|z l]; cbn [Findalone.insertStable];
        [constructor; lia|].
      destruct (_ <? 0); constructor; [now inversion Hhd | lia].
    + constructor; [now constructor|]. constructor. lia.
Qed.

Lemma sortStable_sorted (l : list Findalone.File) :
  Forall (fun f => 0 <= Findalone.Count f <= Int64.max_int64) l ->
  Sorted (fun a b => Findalone.Count b <= Findalone.Count a)
    (Findalone.sortStable l).
Proof.
  unfold Findalone.sortStable.
  induction 1 as [|x l Hx Hl IH]; cbn [fold_right]; [constructor|].
  apply insertStable_sorted; try assumption.
  apply (Permutation_Forall (Permutation_sym (sortStable_perm l))). exact Hl.
Qed.

Lemma insertStable_stable (c : Z) (x : Findalone.File)
  (l : list Findalone.File) :
  0 <= Findalone.Count x <= Int64.max_int64 ->
  Forall (fun f => 0 <= Findalone.Count f <= Int64.max_int64) l ->
  filter (fun f => Findalone.Count f =? c) (Findalone.insertStable x l) =
  filter (fun f => Findalone.Count f =? c) (x :: l).
Proof.
  intros Hx Hl. induction Hl as [|y l Hy Hl IH];
    cbn [Findalone.insertStable]; [reflexivity|].
  rewrite (byCountDesc_sign x y Hx Hy).
  destruct (Z.ltb_spec (Findalone.Count x) (Findalone.Count y));
    [|reflexivity].
  cbn [filter] in IH |- *. rewrite IH.
  destruct (Z.eqb_spec (Findalone.Count y) c);
    destruct (Z.eqb_spec (Findalone.Count x) c); try reflexivity; lia.
Qed.

Lemma sortStable_stable (c : Z) (l : list Findalone.File) :
  Forall (fun f => 0 <= Findalone.Count f <= Int64.max_int64) l ->
  filter (fun f => Findalone.Count f =? c) (Findalone.sortStable l) =
  filter (fun f => Findalone.Count f =? c) l.
Proof.
  unfold Findalone.sortStable.
  induction 1 as [|x l Hx Hl IH]; cbn [fold_right]; [reflexivity|].
  rewrite insertStable_stable; try assumption.
  - cbn [filter]. now rewrite IH.
  - apply (Permutation_Forall (Permutation_sym (sortStable_perm l))). exact Hl.
Qed.

Lemma listed_of_files (files : list Findalone.File) :
  Findalone.listed
    (map (fun file =>
            Findalone.EvPrintCounted (Findalone.Count file)
              (Findalone.Path file)) files) = files.
Proof.
  induction files as [|[path count] files IH]; cbn; [reflexivity|].
  now rewrite IH.
Qed.

Lemma alones_of_files (files : list Findalone.File) :
  Findalone.alones
    (map (fun file =>
            Findalone.EvPrintCounted (Findalone.Count file)
              (Findalone.Path file)) files) = [] /\
  Findalone.readDirs
    (map (fun file =>
            Findalone.EvPrintCounted (Findalone.Count file)
              (Findalone.Path file)) files) = [] /\
  filter Findalone.isReadDirFailed
    (map (fun file =>
            Findalone.EvPrintCounted (Findalone.Count file)
              (Findalone.Path file)) files) = [].
Proof. induction files as [|f files IH]; cbn; auto. Qed.

(** ** The whole command *)

Section FindaloneFacts.

Variable ToSlash : string -> string.
Variable Clean : string -> string.
Variable Join : string -> string -> string.
Variable hostClean : string -> string.
Variable ignored : string -> bool.
Variable NewPathMapper : list string -> string + (string -> string * bool).
Variable ReadDir : string -> string + list string.
Variable CreateClient : string -> string + Findalone.Client.

Local Abbreviation findalone' :=
  (Findalone.findalone ToSlash Clean Join hostClean ignored NewPathMapper
     ReadDir CreateClient).

Lemma filesOf_ext (savePathes : list string) (m m' : string -> Z)
  (savePath : string) (entries : list string) :
  (forall p, m p = m' p) ->
  Findalone.filesOf Join hostClean ignored savePathes m savePath entries =
  Findalone.filesOf Join hostClean ignored savePathes m' savePath entries.
Proof.
  intros H. unfold Findalone.filesOf. apply map_ext. intros name.
  now rewrite H.
Qed.

Lemma alonesOf_ext (savePathes : list string) (m m' : string -> Z)
  (savePath : string) (entries : list string) :
  (forall p, m p = m' p) ->
  Findalone.alonesOf Join hostClean ignored savePathes m savePath entries =
  Findalone.alonesOf Join hostClean ignored savePathes m' savePath entries.
Proof.
  intros H. unfold Findalone.alonesOf. f_equal. apply filter_ext.
  intros name. now rewrite H.
Qed.

(** What a run that gets to the save paths prints and returns. *)
Lemma findalone_summary (flags : Findalone.Flags.t) (clientName : string)
  (paths : list string) (client : Findalone.Client)
  (mapper : option (string -> string * bool))
  (torrents : list Findalone.Torrent) :
  negb (Findalone.Flags.showAll flags) && Findalone.Flags.originalOrder flags
  = false ->
  CreateClient clientName = inr client ->
  Findalone.mapperOf NewPathMapper flags = inr mapper ->
  Findalone.GetTorrents client = inr torrents ->
  len torrents <= Int64.max_int64 ->
  len paths <= Int64.max_int64 ->
  let savePathes := map (fun q => Clean (ToSlash q)) paths in
  let counts := Findalone.torrentCount ToSlash mapper torrents in
  let all :=
    flat_map
      (fun savePath =>
         Findalone.filesOf Join hostClean ignored savePathes counts savePath
           (Findalone.entriesOf ReadDir savePath))
      savePathes in
  let failed := len (filter (Findalone.unreadable ReadDir) savePathes) in
  let tr := fst (findalone' flags clientName paths) in
  Findalone.alones tr =
    (if Findalone.Flags.showAll flags then []
     else flat_map
            (fun savePath =>
               Findalone.alonesOf Join hostClean ignored savePathes counts
                 savePath (Findalone.entriesOf ReadDir savePath))
            savePathes) /\
  Findalone.listed tr =
    (if Findalone.Flags.showAll flags
     then if Findalone.Flags.originalOrder flags then all
          else Findalone.sortStable all
     else []) /\
  Findalone.readDirs tr = savePathes /\
  len (filter Findalone.isReadDirFailed tr) = failed /\
  snd (findalone' flags clientName paths) =
    (if failed >? 0 then Some (Findalone.ErrErrors failed) else None).
Proof.
  intros Hflags Hc Hm Hg Hlt Hlp. cbv zeta.
  unfold Findalone.findalone. rewrite Hflags, Hc, Hm, Hg. cbv zeta.
  set (savePathes := map (fun q => Clean (ToSlash q)) paths).
  set (start := [Findalone.EvCreateClient clientName; Findalone.EvGetTorrents]).
  destruct (countTorrents_trace ToSlash mapper torrents (fun _ => 0) start)
    as (T1 & T2 & T3 & T4). cbv zeta in T1, T2, T3, T4.
  assert (Hcounts : forall p,
             fst (Findalone.countTorrents ToSlash mapper torrents
                    (fun _ => 0) start) p
             = Findalone.torrentCount ToSlash mapper torrents p).
  { intros p. rewrite countTorrents_counts; [reflexivity | intros; lia|].
    intros _. lia. }
  set (m := fst (Findalone.countTorrents ToSlash mapper torrents
                   (fun _ => 0) start)) in *.
  set (tr1 := snd (Findalone.countTorrents ToSlash mapper torrents
                     (fun _ => 0) start)) in *.
  destruct (scanSavePaths_spec Join hostClean ignored ReadDir flags savePathes
              m savePathes [] 0 tr1 ltac:(lia))
    as (S1 & S2 & S3 & S4 & S5 & S6).
  { unfold savePathes, len. rewrite length_map. exact Hlp. }
  cbv zeta in S1, S2, S3, S4, S5, S6.
  cbn [fst snd]. rewrite S5, Z.add_0_l.
  rewrite alones_app, listed_app, readDirs_app, filter_app, len_app.
  rewrite S1, S2, S3, S4, S6, T1, T2, T3, T4.
  cbn [start Findalone.alones Findalone.readDirs Findalone.listed filter
         Findalone.isReadDirFailed app].
  assert (Hall :
            flat_map
              (fun savePath =>
                 Findalone.filesOf Join hostClean ignored savePathes m
                   savePath (Findalone.entriesOf ReadDir savePath))
              savePathes
            = flat_map
                (fun savePath =>
                   Findalone.filesOf Join hostClean ignored savePathes
                     (Findalone.torrentCount ToSlash mapper torrents)
                     savePath (Findalone.entriesOf ReadDir savePath))
                savePathes).
  { apply flat_map_ext. intros sp. now apply filesOf_ext. }
  assert (Halone :
            flat_map
              (fun savePath =>
                 Findalone.alonesOf Join hostClean ignored savePathes m
                   savePath (Findalone.entriesOf ReadDir savePath))
              savePathes
            = flat_map
                (fun savePath =>
                   Findalone.alonesOf Join hostClean ignored savePathes
                     (Findalone.torrentCount ToSlash mapper torrents)
                     savePath (Findalone.entriesOf ReadDir savePath))
                savePathes).
  { apply flat_map_ext. intros sp. now apply alonesOf_ext. }
  rewrite Hall, Halone.
  destruct (Findalone.Flags.showAll flags).
  - set (listing := if Findalone.Flags.originalOrder flags then _ else _).
    destruct (alones_of_files listing) as (A1 & A2 & A3).
    rewrite A1, A2, A3, listed_of_files, len_nil, !app_nil_r, Z.add_0_r.
    repeat split; reflexivity.
  - cbn [map Findalone.alones Findalone.readDirs Findalone.listed filter].
    rewrite len_nil, !app_nil_r, Z.add_0_r. repeat split; reflexivity.
Qed.

End FindaloneFacts.

Lemma existsb_eqb_In (x : string) (l : list string) :
  existsb (String.eqb x) l = false <-> ~ In x l.
Proof.
  induction l as [|y l IH]; cbn [existsb In].
  - split; [intros _ [] | reflexivity].
  - rewrite orb_false_iff, IH.
    destruct (String.eqb_spec x y) as [->|Hne].
    + split; [intros [H _]; discriminate|].
      intros H. exfalso. apply H. now left.
    + split.
      * intros [_ H] [E|Hin]; [congruence | auto].
      * intros H. split; [reflexivity|]. intros Hin. apply H. now right.
Qed.

Lemma filter_none {A : Type} (f : A -> bool) (l : list A) :
  Z.of_nat (length (filter f l)) = 0 <-> forall x, In x l -> f x = false.
Proof.
  induction l as [|a l IH]; cbn [filter In]; [cbn; tauto|].
  destruct (f a) eqn:E.
  - cbn [length]. split; [lia|]. intros H. specialize (H a (or_introl eq_refl)).
    congruence.
  - rewrite IH. split; intros H.
    + intros x [<-|Hx]; auto.
    + intros x Hx. apply H. now right.
Qed.

(** X21. Without [--all], the command prints exactly the entries found in
    a readable save path that are not ignored, are not themselves save
    paths, and under which no torrent of the client is counted: a file or
    directory of a torrent is never reported as alone, and every other
    considered entry is. Nothing is listed with a count. *)
Theorem findalone_alone_files (ToSlash Clean : string -> string)
  (Join : string -> string -> string) (hostClean : string -> string)
  (ignored : string -> bool)
  (NewPathMapper : list string -> string + (string -> string * bool))
  (ReadDir : string -> string + list string)
  (CreateClient : string -> string + Findalone.Client)
  (flags : Findalone.Flags.t) (clientName : string) (paths : list string)
  (client : Findalone.Client) (mapper : option (string -> string * bool))
  (torrents : list Findalone.Torrent) :
  Findalone.Flags.showAll flags = false ->
  Findalone.Flags.originalOrder flags = false ->
  CreateClient clientName = inr client ->
  Findalone.mapperOf NewPathMapper flags = inr mapper ->
  Findalone.GetTorrents client = inr torrents ->
  len torrents <= Int64.max_int64 ->
  len paths <= Int64.max_int64 ->
  let savePathes := map (fun q => Clean (ToSlash q)) paths in
  let tr :=
    fst (Findalone.findalone ToSlash Clean Join hostClean ignored
           NewPathMapper ReadDir CreateClient flags clientName paths) in
  Findalone.listed tr = [] /\
  forall p,
    In p (Findalone.alones tr) <->
    exists savePath name,
      Findalone.considered Join ignored ReadDir savePathes savePath name /\
      (forall torrent,
         In torrent torrents ->
         Findalone.belongsTo ToSlash mapper (Join savePath name) torrent
         = false) /\
      p = hostClean (Join savePath name).
Proof.
  intros Hall Horig Hc Hm Hg Hlt Hlp. cbv zeta.
  destruct (findalone_summary ToSlash Clean Join hostClean ignored
              NewPathMapper ReadDir CreateClient flags clientName paths
              client mapper torrents) as (A & L & _); try assumption.
  { now rewrite Hall, Horig. }
  cbv zeta in A, L. rewrite Hall in A, L. split; [assumption|].
  intros p. rewrite A, in_flat_map. unfold Findalone.alonesOf.
  unfold Findalone.considered, Findalone.keep, Findalone.entriesOf.
  split.
  - intros (sp & Hsp & Hin). apply in_map_iff in Hin as (name & <- & Hin).
    apply filter_In in Hin as (Hname & Hk).
    apply andb_true_iff in Hk as (Hk & Hz).
    apply andb_true_iff in Hk as (Hi & He).
    apply negb_true_iff in Hi. apply negb_true_iff in He.
    apply existsb_eqb_In in He. apply Z.eqb_eq in Hz.
    unfold Findalone.torrentCount in Hz. rewrite filter_none in Hz.
    exists sp, name. repeat split; try assumption.
    destruct (ReadDir sp) as [err|entries]; [destruct Hname | eauto].
  - intros (sp & name & (Hsp & (entries & Hr & Hname) & Hi & He) & Hz & ->).
    exists sp. split; [assumption|]. apply in_map_iff. exists name.
    split; [reflexivity|]. apply filter_In. rewrite Hr.
    split; [assumption|].
    apply existsb_eqb_In in He. rewrite Hi, He. cbn [negb andb].
    apply Z.eqb_eq. unfold Findalone.torrentCount. now apply filter_none.
Qed.

Lemma findalone_alone_files_witness :
  In "/d/b"%string
    (Findalone.alones
       (fst (Findalone.findalone (fun q => q) (fun q => q)
               Findalone.exampleJoin (fun q => q) (fun _ => false)
               Findalone.exampleMapper Findalone.exampleReadDir
               Findalone.exampleCreate (Findalone.Flags.mk false false [])
               "local" ["/d"%string]))).
Proof.
  apply (findalone_alone_files (fun q => q) (fun q => q)
           Findalone.exampleJoin (fun q => q) (fun _ => false)
           Findalone.exampleMapper Findalone.exampleReadDir
           Findalone.exampleCreate (Findalone.Flags.mk false false [])
           "local" ["/d"%string]
           (Findalone.mkClient
              (inr [Findalone.mkTorrent "t" "e447d424" "/d/a"]))
           None [Findalone.mkTorrent "t" "e447d424" "/d/a"]).
  - reflexivity.
  - reflexivity.
  - reflexivity.
  - reflexivity.
  - reflexivity.
  - vm_compute. discriminate.
  - vm_compute. discriminate.
  - exists "/d"%string, "b"%string. split; [|split].
    + split; [now left|]. split; [|split].
      * exists ["a"; "b"]%string. split; [reflexivity | right; now left].
      * reflexivity.
      * intros [H|[]]. discriminate.
    + intros torrent [<-|[]]. reflexivity.
    + reflexivity.
Defined.

Lemma torrentCount_bounded (ToSlash : string -> string)
  (mapper : option (string -> string * bool))
  (torrents : list Findalone.Torrent) (p : string) :
  len torrents <= Int64.max_int64 ->
  0 <= Findalone.torrentCount ToSlash mapper torrents p <= Int64.max_int64.
Proof.
  intros H. unfold Findalone.torrentCount, len in *.
  pose proof (filter_length_le (Findalone.belongsTo ToSlash mapper p) torrents).
  lia.
Qed.

(** X22. With [--all], nothing is printed as alone and the listing holds
    one line for every considered entry, with the number of torrents of
    the client that are counted under it. With [--original-order] the
    lines are in the order of the save paths and of their entries;
    otherwise they are sorted by count, largest first, and lines with the
    same count keep that order. *)
Theorem findalone_listing (ToSlash Clean : string -> string)
  (Join : string -> string -> string) (hostClean : string -> string)
  (ignored : string -> bool)
  (NewPathMapper : list string -> string + (string -> string * bool))
  (ReadDir : string -> string + list string)
  (CreateClient : string -> string + Findalone.Client)
  (flags : Findalone.Flags.t) (clientName : string) (paths : list string)
  (client : Findalone.Client) (mapper : option (string -> string * bool))
  (torrents : list Findalone.Torrent) :
  Findalone.Flags.showAll flags = true ->
  CreateClient clientName = inr client ->
  Findalone.mapperOf NewPathMapper flags = inr mapper ->
  Findalone.GetTorrents client = inr torrents ->
  len torrents <= Int64.max_int64 ->
  len paths <= Int64.max_int64 ->
  let savePathes := map (fun q => Clean (ToSlash q)) paths in
  let all :=
    flat_map
      (fun savePath =>
         Findalone.filesOf Join hostClean ignored savePathes
           (Findalone.torrentCount ToSlash mapper torrents) savePath
           (Findalone.entriesOf ReadDir savePath))
      savePathes in
  let tr :=
    fst (Findalone.findalone ToSlash Clean Join hostClean ignored
           NewPathMapper ReadDir CreateClient flags clientName paths) in
  Findalone.alones tr = [] /\
  Permutation (Findalone.listed tr) all /\
  (Findalone.Flags.originalOrder flags = true -> Findalone.listed tr = all) /\
  (Findalone.Flags.originalOrder flags = false ->
   Sorted (fun a b => Findalone.Count b <= Findalone.Count a)
     (Findalone.listed tr) /\
   forall c,
     filter (fun f => Findalone.Count f =? c) (Findalone.listed tr) =
     filter (fun f => Findalone.Count f =? c) all).
Proof.
  intros Hall Hc Hm Hg Hlt Hlp. cbv zeta.
  destruct (findalone_summary ToSlash Clean Join hostClean ignored
              NewPathMapper ReadDir CreateClient flags clientName paths
              client mapper torrents) as (A & L & _); try assumption.
  { now rewrite Hall. }
  cbv zeta in A, L. rewrite Hall in A, L. split; [assumption|].
  set (all := flat_map _ _) in *.
  assert (Hb : Forall (fun f => 0 <= Findalone.Count f <= Int64.max_int64) all).
  { apply Forall_forall. intros f Hf. unfold all in Hf.
    apply in_flat_map in Hf as (sp & _ & Hf). unfold Findalone.filesOf in Hf.
    apply in_map_iff in Hf as (name & <- & _). cbn [Findalone.Count].
    now apply torrentCount_bounded. }
  rewrite L. destruct (Findalone.Flags.originalOrder flags).
  - split; [reflexivity|]. split; [reflexivity | discriminate].
  - split; [apply sortStable_perm|]. split; [discriminate|]. intros _.
    split; [now apply sortStable_sorted|].
    intros c. now apply sortStable_stable.
Qed.

Lemma findalone_listing_witness :
  Findalone.listed
    (fst (Findalone.findalone (fun q => q) (fun q => q)
            Findalone.exampleJoin (fun q => q) (fun _ => false)
            Findalone.exampleMapper Findalone.exampleReadDir
            Findalone.exampleCreate (Findalone.Flags.mk true true [])
            "local" ["/d"%string]))
  = [Findalone.mkFile "/d/a" 1; Findalone.mkFile "/d/b" 0].
Proof.
  apply (findalone_listing (fun q => q) (fun q => q)
           Findalone.exampleJoin (fun q => q) (fun _ => false)
           Findalone.exampleMapper Findalone.exampleReadDir
           Findalone.exampleCreate (Findalone.Flags.mk true true [])
           "local" ["/d"%string]
           (Findalone.mkClient
              (inr [Findalone.mkTorrent "t" "e447d424" "/d/a"]))
           None [Findalone.mkTorrent "t" "e447d424" "/d/a"]).
  - reflexivity.
  - reflexivity.
  - reflexivity.
  - reflexivity.
  - vm_compute. discriminate.
  - vm_compute. discriminate.
  - reflexivity.
Defined.

(** X23. The command reads every save path, in the order given and after
    cleaning it, also after one of them could not be read. Each unreadable
    save path is logged once, and the command returns [nil] when there is
    none and "n errors" otherwise, [n] being their number. *)
Theorem findalone_reads_every_save_path (ToSlash Clean : string -> string)
  (Join : string -> string -> string) (hostClean : string -> string)
  (ignored : string -> bool)
  (NewPathMapper : list string -> string + (string -> string * bool))
  (ReadDir : string -> string + list string)
  (CreateClient : string -> string + Findalone.Client)
  (flags : Findalone.Flags.t) (clientName : string) (paths : list string)
  (client : Findalone.Client) (mapper : option (string -> string * bool))
  (torrents : list Findalone.Torrent) :
  negb (Findalone.Flags.showAll flags) && Findalone.Flags.originalOrder flags
  = false ->
  CreateClient clientName = inr client ->
  Findalone.mapperOf NewPathMapper flags = inr mapper ->
  Findalone.GetTorrents client = inr torrents ->
  len torrents <= Int64.max_int64 ->
  len paths <= Int64.max_int64 ->
  let savePathes := map (fun q => Clean (ToSlash q)) paths in
  let failed := len (filter (Findalone.unreadable ReadDir) savePathes) in
  let result :=
    Findalone.findalone ToSlash Clean Join hostClean ignored NewPathMapper
      ReadDir CreateClient flags clientName paths in
  Findalone.readDirs (fst result) = savePathes /\
  len (filter Findalone.isReadDirFailed (fst result)) = failed /\
  snd result =
    (if failed >? 0 then Some (Findalone.ErrErrors failed) else None).
Proof.
  intros Hflags Hc Hm Hg Hlt Hlp. cbv zeta.
  destruct (findalone_summary ToSlash Clean Join hostClean ignored
              NewPathMapper ReadDir CreateClient flags clientName paths
              client mapper torrents) as (_ & _ & R & F & E);
    try assumption.
  cbv zeta in R, F, E. auto.
Qed.

Lemma findalone_reads_every_save_path_witness :
  let result :=
    Findalone.findalone (fun q => q) (fun q => q) Findalone.exampleJoin
      (fun q => q) (fun _ => false) Findalone.exampleMapper
      Findalone.exampleReadDir Findalone.exampleCreate
      (Findalone.Flags.mk false false []) "local" ["/x"; "/d"]%string in
  Findalone.readDirs (fst result) = ["/x"; "/d"]%string /\
  len (filter Findalone.isReadDirFailed (fst result)) = 1 /\
  snd result = Some (Findalone.ErrErrors 1).
Proof.
  apply (findalone_reads_every_save_path (fun q => q) (fun q => q)
           Findalone.exampleJoin (fun q => q) (fun _ => false)
           Findalone.exampleMapper Findalone.exampleReadDir
           Findalone.exampleCreate (Findalone.Flags.mk false false [])
           "local" ["/x"; "/d"]%string
           (Findalone.mkClient
              (inr [Findalone.mkTorrent "t" "e447d424" "/d/a"]))
           None [Findalone.mkTorrent "t" "e447d424" "/d/a"]).
  - reflexivity.
  - reflexivity.
  - reflexivity.
  - reflexivity.
  - vm_compute. discriminate.
  - vm_compute. discriminate.
Defined.
